(** * ECS kernel: entity manager, movement system and AI system

    A shallow embedding of [core/entity-manager.js],
    [components/components.js], [systems/movement-system.js] and
    [systems/ai-system.js].

    - JavaScript numbers are IEEE 754 binary64 values: they are modelled by
      the kernel's primitive floats, so [+], [-], [*], [/], [Math.sqrt] and
      the comparisons are the very operations the engine performs.
      [Math.sin], [Math.cos], [Math.atan2], [Math.random] and [Date.now]
      belong to the host and are taken as inputs.
    - The [Map] of entities is an insertion-ordered map (a key-unique
      association list, iterated front to back); the per-entity [Map] of
      components is never iterated by the engine and is a [gmap].
    - A lifecycle hook is an opaque callback of a registered system: a call
      is recorded in a trace, in the order in which the calls are made. *)

From Stdlib Require Import ZArith List Floats Lia Bool Permutation Sorted.
From stdpp Require Import gmap strings list.
Import ListNotations.

Set Warnings "-inexact-float".
Local Open Scope Z_scope.

(** Entity ids are the integral numbers handed out by [nextEntityId++] or
    supplied by the caller; component types are the string tags of
    [ComponentTypes]. *)
Definition Id := Z.
Definition Variant := string.

(** ** Insertion-ordered maps keyed by entity id (the JavaScript [Map]) *)
Module JSMap.
Section Ordered.
Context {V : Type}.

(** [Map.prototype.get] *)
Fixpoint get (k : Id) (m : list (Id * V)) : option V :=
  match m with
  | [] => None
  | (k', v) :: m' => if Z.eqb k k' then Some v else get k m'
  end.

(** [Map.prototype.has] *)
Definition has (k : Id) (m : list (Id * V)) : bool :=
  match get k m with Some _ => true | None => false end.

(** [Map.prototype.set]: an existing key keeps its place in the
    iteration order and takes the new value, a new key goes last. *)
Fixpoint set (k : Id) (v : V) (m : list (Id * V)) : list (Id * V) :=
  match m with
  | [] => [(k, v)]
  | (k', v') :: m' =>
      if Z.eqb k k' then (k, v) :: m' else (k', v') :: set k v m'
  end.

(** [Map.prototype.delete] *)
Fixpoint delete (k : Id) (m : list (Id * V)) : list (Id * V) :=
  match m with
  | [] => []
  | (k', v') :: m' =>
      if Z.eqb k k' then m' else (k', v') :: delete k m'
  end.

(** [Map.prototype.keys], in iteration order *)
Definition keys (m : list (Id * V)) : list Id := List.map fst m.
End Ordered.
End JSMap.

(** ** Registered systems

    A system is an object that may carry any of the four hooks
    [update], [onComponentAdded], [onComponentRemoved] and
    [onEntityDestroyed]; the manager probes for a hook before it calls it
    ([if (system.onEntityDestroyed) ...]). *)
Record System := mkSystem {
  sys_name : string;
  has_update : bool;
  has_onComponentAdded : bool;
  has_onComponentRemoved : bool;
  has_onEntityDestroyed : bool
}.

(** ** core/entity-manager.js *)
Module EM.
Section Manager.
Variable Data : Type.

(** One call of a hook of the system named [sys], with its arguments. *)
Inductive HookCall :=
| onEntityDestroyed (sys : string) (entityId : Id)
| onComponentAdded (sys : string) (entityId : Id)
    (componentType : Variant) (componentData : Data)
| onComponentRemoved (sys : string) (entityId : Id)
    (componentType : Variant).

(** [throw new Error(`Entity ${entityId} does not exist`)] *)
Inductive Exn := EntityNotFound (entityId : Id).

Record EntityManager := mkEntityManager {
  entities : list (Id * gmap Variant Data);
  nextEntityId : Z;
  componentTypes : gset Variant;
  systems : list System
}.

(** What a method call leaves behind: the value returned or the error
    thrown, the manager after the call, and the hook calls made, oldest
    first. *)
Record Outcome (A : Type) := mkOutcome {
  returned : Exn + A;
  store : EntityManager;
  notified : list HookCall
}.
Arguments mkOutcome {A}.
Arguments returned {A}.
Arguments store {A}.
Arguments notified {A}.

(** [constructor()] *)
Definition constructor : EntityManager :=
  {| entities := []; nextEntityId := 1; componentTypes := ∅; systems := [] |}.

(** [this.systems.forEach((system) => { if (system.hook) system.hook(..) })] *)
Definition forEach_hook (hook : System -> bool) (call : string -> HookCall)
    (ss : list System) : list HookCall :=
  List.map (fun s => call (sys_name s)) (List.filter hook ss).

(** [createEntity(id = null)]: [id || this.nextEntityId++]. A missing
    argument is [None]; among the integral ids only [0] is falsy. The
    allocator is an integer here; the code's is a binary64 number,
    whose [++] is exact below [2^53] and leaves it in place from there
    on. *)
Definition createEntity (id : option Id) (em : EntityManager) : Outcome Id :=
  let supplied :=
    match id with
    | Some i => if Z.eqb i 0 then None else Some i
    | None => None
    end in
  let entityId := match supplied with Some i => i | None => nextEntityId em end in
  let next :=
    match supplied with Some _ => nextEntityId em | None => nextEntityId em + 1 end in
  {| returned := inr entityId;
     store := {| entities := JSMap.set entityId ∅ (entities em);
                 nextEntityId := next;
                 componentTypes := componentTypes em;
                 systems := systems em |};
     notified := [] |}.

(** [destroyEntity(entityId)] *)
Definition destroyEntity (entityId : Id) (em : EntityManager) : Outcome unit :=
  {| returned := inr tt;
     store := {| entities := JSMap.delete entityId (entities em);
                 nextEntityId := nextEntityId em;
                 componentTypes := componentTypes em;
                 systems := systems em |};
     notified :=
       forEach_hook has_onEntityDestroyed
         (fun s => onEntityDestroyed s entityId) (systems em) |}.

(** [addComponent(entityId, componentType, componentData)] *)
Definition addComponent (entityId : Id) (componentType : Variant)
    (componentData : Data) (em : EntityManager) : Outcome unit :=
  match JSMap.get entityId (entities em) with
  | None =>
      {| returned := inl (EntityNotFound entityId); store := em; notified := [] |}
  | Some components =>
      {| returned := inr tt;
         store :=
           {| entities :=
                JSMap.set entityId (<[componentType := componentData]> components)
                  (entities em);
              nextEntityId := nextEntityId em;
              componentTypes := {[componentType]} ∪ componentTypes em;
              systems := systems em |};
         notified :=
           forEach_hook has_onComponentAdded
             (fun s => onComponentAdded s entityId componentType componentData)
             (systems em) |}
  end.

(** [removeComponent(entityId, componentType)] *)
Definition removeComponent (entityId : Id) (componentType : Variant)
    (em : EntityManager) : Outcome unit :=
  match JSMap.get entityId (entities em) with
  | None => {| returned := inr tt; store := em; notified := [] |}
  | Some entity =>
      {| returned := inr tt;
         store :=
           {| entities :=
                JSMap.set entityId (base.delete componentType entity) (entities em);
              nextEntityId := nextEntityId em;
              componentTypes := componentTypes em;
              systems := systems em |};
         notified :=
           forEach_hook has_onComponentRemoved
             (fun s => onComponentRemoved s entityId componentType)
             (systems em) |}
  end.

(** [getComponent(entityId, componentType)]: [null] and [undefined] are
    both [None]. *)
Definition getComponent (entityId : Id) (componentType : Variant)
    (em : EntityManager) : option Data :=
  match JSMap.get entityId (entities em) with
  | Some entity => entity !! componentType
  | None => None
  end.

(** [components.has(type)] *)
Definition components_has (components : gmap Variant Data) (type : Variant) : bool :=
  match components !! type with Some _ => true | None => false end.

(** [hasComponent(entityId, componentType)] *)
Definition hasComponent (entityId : Id) (componentType : Variant)
    (em : EntityManager) : bool :=
  match JSMap.get entityId (entities em) with
  | Some entity => components_has entity componentType
  | None => false
  end.

(** [getEntitiesWithComponents(...componentTypes)] *)
Definition getEntitiesWithComponents (types : list Variant)
    (em : EntityManager) : list Id :=
  List.map fst
    (List.filter (fun e => forallb (components_has (snd e)) types) (entities em)).

(** [getAllEntities()] and [getEntityCount()] *)
Definition getAllEntities (em : EntityManager) : list Id := JSMap.keys (entities em).
Definition getEntityCount (em : EntityManager) : nat := length (entities em).

(** [addSystem(system)] *)
Definition addSystem (system : System) (em : EntityManager) : EntityManager :=
  {| entities := entities em; nextEntityId := nextEntityId em;
     componentTypes := componentTypes em; systems := systems em ++ [system] |}.

(** [removeSystem(system)]: [indexOf] then [splice(index, 1)]; a system
    object is identified by its name. *)
Fixpoint splice_first (name : string) (ss : list System) : list System :=
  match ss with
  | [] => []
  | s :: ss' =>
      if String.eqb (sys_name s) name then ss' else s :: splice_first name ss'
  end.

Definition removeSystem (system : System) (em : EntityManager) : EntityManager :=
  {| entities := entities em; nextEntityId := nextEntityId em;
     componentTypes := componentTypes em;
     systems := splice_first (sys_name system) (systems em) |}.

(** A system writing a field of a component object it got from
    [getComponent]: the object stored under the tag changes, nothing is
    notified. Absent entities and components are left alone. Every
    entity holds a value of its own under a tag: an object that was
    added to two entities is one object in the code and is written for
    both, and two values here. *)
Definition writeComponent (entityId : Id) (componentType : Variant)
    (componentData : Data) (em : EntityManager) : EntityManager :=
  match JSMap.get entityId (entities em) with
  | Some entity =>
      if components_has entity componentType then
        {| entities :=
             JSMap.set entityId (<[componentType := componentData]> entity)
               (entities em);
           nextEntityId := nextEntityId em;
           componentTypes := componentTypes em;
           systems := systems em |}
      else em
  | None => em
  end.

(** The managers a program can hold: a fresh one, and what the methods
    and the systems' writes make of it. *)
Inductive reachable : EntityManager -> Prop :=
| reach_constructor : reachable constructor
| reach_createEntity id em :
    reachable em -> reachable (store (createEntity id em))
| reach_destroyEntity id em :
    reachable em -> reachable (store (destroyEntity id em))
| reach_addComponent id v d em :
    reachable em -> reachable (store (addComponent id v d em))
| reach_removeComponent id v em :
    reachable em -> reachable (store (removeComponent id v em))
| reach_addSystem s em :
    reachable em -> reachable (addSystem s em)
| reach_removeSystem s em :
    reachable em -> reachable (removeSystem s em)
| reach_writeComponent id v d em :
    reachable em -> reachable (writeComponent id v d em).

(** An entity is live when the manager holds a component set for it. *)
Definition live (entityId : Id) (em : EntityManager) : Prop :=
  JSMap.has entityId (entities em) = true.
End Manager.

Arguments onEntityDestroyed {Data}.
Arguments onComponentAdded {Data}.
Arguments onComponentRemoved {Data}.
Arguments mkEntityManager {Data}.
Arguments entities {Data}.
Arguments nextEntityId {Data}.
Arguments componentTypes {Data}.
Arguments systems {Data}.
Arguments mkOutcome {Data A}.
Arguments returned {Data A}.
Arguments store {Data A}.
Arguments notified {Data A}.
Arguments constructor {Data}.
Arguments forEach_hook {Data}.
Arguments createEntity {Data}.
Arguments destroyEntity {Data}.
Arguments addComponent {Data}.
Arguments removeComponent {Data}.
Arguments getComponent {Data}.
Arguments components_has {Data}.
Arguments hasComponent {Data}.
Arguments getEntitiesWithComponents {Data}.
Arguments getAllEntities {Data}.
Arguments getEntityCount {Data}.
Arguments addSystem {Data}.
Arguments removeSystem {Data}.
Arguments writeComponent {Data}.
Arguments reachable {Data}.
Arguments live {Data}.
End EM.

(** ** JavaScript numbers and the host's [Math] *)
Module JSNum.
Local Open Scope float_scope.

(** [Math.PI], the binary64 value nearest to pi. *)
Definition Math_PI : float := 0x1.921fb54442d18p+1.

(** [a > b], [a < b] and [a <= b]; each is false when an operand is NaN. *)
Definition gt (a b : float) : bool := b <? a.
Definition lt (a b : float) : bool := a <? b.
Definition le (a b : float) : bool := a <=? b.

(** A number is falsy when it is NaN, [+0] or [-0]; [v || d]. *)
Definition falsy (v : float) : bool := is_nan v || is_zero v.
Definition or_else (v d : float) : float := if falsy v then d else v.

(** [Math.min] and [Math.max] of two numbers. *)
Definition Math_min (a b : float) : float :=
  if is_nan a || is_nan b then nan
  else if a <? b then a
  else if b <? a then b
  else if get_sign a then a else b.

Definition Math_max (a b : float) : float :=
  if is_nan a || is_nan b then nan
  else if a <? b then b
  else if b <? a then a
  else if get_sign a then b else a.

(** An integral id read as a number: the nearest binary64 value. *)
Definition of_id (id : Id) : float :=
  SF2Prim (binary_normalize prec emax id 0%Z false).
End JSNum.

(** ** components/components.js *)
Module Components.
Local Open Scope float_scope.

Definition TRANSFORM : Variant := "transform".
Definition MESH : Variant := "mesh".
Definition MOVEMENT : Variant := "movement".
Definition AI_ : Variant := "ai".
Definition HEALTH : Variant := "health".

Record Vec3 := mkVec3 { x : float; y : float; z : float }.

Record Transform := mkTransform {
  position : Vec3;
  rotation : Vec3;
  scale : Vec3
}.

(** The mesh payload belongs to the renderer; its [mesh] handle is not
    part of the simulation state. *)
Record Mesh := mkMesh {
  geometry : string;
  material : float;
  castShadow : bool;
  receiveShadow : bool
}.

Record Movement := mkMovement {
  velocity : Vec3;
  speed : float;
  hoverHeight : float;
  groundY : float
}.

(** [behavior] and [state] are strings in the source; [targetPosition]
    is [null] or a position object. *)
Record AI := mkAI {
  behavior : string;
  targetPosition : option Vec3;
  lastDirectionChange : float;
  directionChangeInterval : float;
  wanderRadius : float;
  seekRange : float;
  state : string
}.

Record Health := mkHealth {
  maxHealth : float;
  currentHealth : float;
  isDead : bool
}.

(** A component object, by the shape its factory gives it. *)
Inductive Component :=
| CTransform (t : Transform)
| CMesh (m : Mesh)
| CMovement (m : Movement)
| CAI (a : AI)
| CHealth (h : Health).

Definition createTransformComponent (x y z : float) (rotation : Vec3) : Transform :=
  {| position := mkVec3 x y z;
     rotation := mkVec3 (Components.x rotation) (Components.y rotation)
                   (Components.z rotation);
     scale := mkVec3 1 1 1 |}.

Definition createMeshComponent (geometry : string) (material : float)
    (castShadow receiveShadow : bool) : Mesh :=
  mkMesh geometry material castShadow receiveShadow.

Definition createMovementComponent (speed hoverHeight : float) : Movement :=
  {| velocity := mkVec3 0 0 0; speed := speed; hoverHeight := hoverHeight;
     groundY := 0 |}.

Definition createAIComponent (behavior : string) (targetPosition : option Vec3) : AI :=
  {| behavior := behavior;
     targetPosition := targetPosition;
     lastDirectionChange := 0;
     directionChangeInterval := 2000;
     wanderRadius := 10;
     seekRange := 15;
     state := "idle" |}.

Definition createHealthComponent (maxHealth : float) (currentHealth : option float)
    : Health :=
  {| maxHealth := maxHealth;
     currentHealth :=
       match currentHealth with
       | Some h => JSNum.or_else h maxHealth
       | None => maxHealth
       end;
     isDead := false |}.

(** The engine's manager stores component objects. *)
Abbreviation Store := (EM.EntityManager Component).

(** [getComponent(entityId, ComponentTypes.X)] read at the shape the
    systems use it at. The engine stores under a tag only what that
    tag's factory built ([createComponentFromData]); another shape under
    the tag reads as absent. *)
Definition getTransform (entityId : Id) (em : Store) : option Transform :=
  match EM.getComponent entityId TRANSFORM em with
  | Some (CTransform t) => Some t
  | _ => None
  end.

Definition getMovement (entityId : Id) (em : Store) : option Movement :=
  match EM.getComponent entityId MOVEMENT em with
  | Some (CMovement m) => Some m
  | _ => None
  end.

Definition getAI (entityId : Id) (em : Store) : option AI :=
  match EM.getComponent entityId AI_ em with
  | Some (CAI a) => Some a
  | _ => None
  end.
End Components.

(** ** systems/movement-system.js *)
Module MovementSystem.
Import Components.
Section Host.
Local Open Scope float_scope.

(** [Math.sin] and [Math.atan2] are the host's. *)
Variable Math_sin : float -> float.
Variable Math_atan2 : float -> float -> float.

(** [while (diff > Math.PI) diff -= 2 * Math.PI;] run for at most
    [fuel] tests of the condition. *)
Fixpoint wrap_above (fuel : nat) (diff : float) : option float :=
  match fuel with
  | O => None
  | S fuel' =>
      if JSNum.gt diff JSNum.Math_PI
      then wrap_above fuel' (diff - 2 * JSNum.Math_PI)
      else Some diff
  end.

(** [while (diff < -Math.PI) diff += 2 * Math.PI;] *)
Fixpoint wrap_below (fuel : nat) (diff : float) : option float :=
  match fuel with
  | O => None
  | S fuel' =>
      if JSNum.lt diff (- JSNum.Math_PI)
      then wrap_below fuel' (diff + 2 * JSNum.Math_PI)
      else Some diff
  end.

(** [lerpAngle(current, target, factor)] *)
Definition lerpAngle (fuel : nat) (current target factor : float) : option float :=
  match wrap_above fuel (target - current) with
  | Some diff =>
      match wrap_below fuel diff with
      | Some diff' => Some (current + diff' * factor)
      | None => None
      end
  | None => None
  end.

(** [applyHoverBehavior(transform, movement, deltaSeconds)] *)
Definition applyHoverBehavior (transform : Transform) (movement : Movement)
    (deltaSeconds : float) : Movement :=
  let targetY := groundY movement + hoverHeight movement in
  let difference := targetY - y (position transform) in
  let springStrength := 5.0 in
  {| velocity := mkVec3 (x (velocity movement)) (difference * springStrength)
                   (z (velocity movement));
     speed := speed movement;
     hoverHeight := hoverHeight movement;
     groundY := groundY movement |}.

(** The body of [updateEntityMovement] on the two component objects;
    [now] is the reading of [Date.now()]. [None] when a loop of
    [lerpAngle] is still running after [fuel] tests. *)
Definition integrate (fuel : nat) (entityId : Id) (deltaTime now : float)
    (transform : Transform) (movement : Movement) : option (Transform * Movement) :=
  let deltaSeconds := deltaTime / 1000 in
  let position1 :=
    mkVec3 (x (position transform) + x (velocity movement) * deltaSeconds)
      (y (position transform))
      (z (position transform) + z (velocity movement) * deltaSeconds) in
  let transform1 := mkTransform position1 (rotation transform) (scale transform) in
  let movement1 := applyHoverBehavior transform1 movement deltaSeconds in
  let damping := 0.95 in
  let velocity2 :=
    mkVec3 (x (velocity movement1) * damping) (y (velocity movement1))
      (z (velocity movement1) * damping) in
  let movement2 :=
    mkMovement velocity2 (speed movement1) (hoverHeight movement1)
      (groundY movement1) in
  let time := now / 1000 in
  let bobFrequency := 2.0 in
  let bobAmplitude := 0.1 in
  let bobOffset := Math_sin (time * bobFrequency + JSNum.of_id entityId) * bobAmplitude in
  let position2 :=
    mkVec3 (x position1) (groundY movement2 + hoverHeight movement2 + bobOffset)
      (z position1) in
  let speed :=
    sqrt (x velocity2 * x velocity2 + z velocity2 * z velocity2) in
  if JSNum.gt speed 0.1 then
    let targetRotationY := Math_atan2 (x velocity2) (z velocity2) in
    match lerpAngle fuel (y (rotation transform)) targetRotationY (deltaSeconds * 3) with
    | Some ry =>
        Some (mkTransform position2
                (mkVec3 (x (rotation transform)) ry (z (rotation transform)))
                (scale transform),
              movement2)
    | None => None
    end
  else Some (mkTransform position2 (rotation transform) (scale transform), movement2).

(** [updateEntityMovement(entityId, deltaTime)] *)
Definition updateEntityMovement (fuel : nat) (entityId : Id) (deltaTime now : float)
    (em : Store) : option Store :=
  match getTransform entityId em, getMovement entityId em with
  | Some transform, Some movement =>
      match integrate fuel entityId deltaTime now transform movement with
      | Some (transform', movement') =>
          Some (EM.writeComponent entityId MOVEMENT (CMovement movement')
                  (EM.writeComponent entityId TRANSFORM (CTransform transform') em))
      | None => None
      end
  | _, _ => Some em
  end.

(** [update(deltaTime)]: the entities are listed first, then visited in
    that order; [now entityId] is the clock reading during the visit. *)
Definition update (fuel : nat) (deltaTime : float) (now : Id -> float)
    (em : Store) : option Store :=
  fold_left
    (fun acc entityId =>
       match acc with
       | Some em' => updateEntityMovement fuel entityId deltaTime (now entityId) em'
       | None => None
       end)
    (EM.getEntitiesWithComponents [TRANSFORM; MOVEMENT] em) (Some em).

(** [applyForce(entityId, force)] *)
Definition applyForce (entityId : Id) (force : Vec3) (em : Store) : Store :=
  match getMovement entityId em with
  | Some movement =>
      EM.writeComponent entityId MOVEMENT
        (CMovement
           (mkMovement
              (mkVec3 (x (velocity movement) + x force)
                 (y (velocity movement) + y force)
                 (z (velocity movement) + z force))
              (speed movement) (hoverHeight movement) (groundY movement)))
        em
  | None => em
  end.

(** [setVelocity(entityId, velocity)] *)
Definition setVelocity (entityId : Id) (v : Vec3) (em : Store) : Store :=
  match getMovement entityId em with
  | Some movement =>
      EM.writeComponent entityId MOVEMENT
        (CMovement
           (mkMovement
              (mkVec3 (JSNum.or_else (x v) 0) (JSNum.or_else (y v) 0)
                 (JSNum.or_else (z v) 0))
              (speed movement) (hoverHeight movement) (groundY movement)))
        em
  | None => em
  end.

(** The planar distance [Math.sqrt(dx * dx + dz * dz)] from [p] to [q]. *)
Definition planar_distance (p q : Vec3) : float :=
  let dx := x q - x p in
  let dz := z q - z p in
  sqrt (dx * dx + dz * dz).

(** [moveTowards(entityId, targetPosition, deltaTime)]; the value is
    [None] for the bare [return] ([undefined]). *)
Definition moveTowards (entityId : Id) (targetPosition : Vec3) (deltaTime : float)
    (em : Store) : option bool * Store :=
  match getTransform entityId em, getMovement entityId em with
  | Some transform, Some movement =>
      let dx := x targetPosition - x (position transform) in
      let dz := z targetPosition - z (position transform) in
      let distance := sqrt (dx * dx + dz * dz) in
      if JSNum.gt distance 0.1 then
        let directionX := dx / distance in
        let directionZ := dz / distance in
        let force :=
          mkVec3 (directionX * speed movement) 0 (directionZ * speed movement) in
        (Some false, applyForce entityId force em)
      else (Some true, em)
  | _, _ => (None, em)
  end.
End Host.
End MovementSystem.

(** ** The host's [Array.prototype.sort]

    ECMAScript leaves the algorithm to the host and fixes its result: the
    sort is stable, and a comparator value that is positive puts the second
    argument first, while a negative value, a zero or a NaN leaves the pair
    in place. The model is the insertion sort with that reading of the
    comparator. *)
Module JSArray.
Section Sort.
Context {A : Type}.
Variable comparefn : A -> A -> float.

Fixpoint insert (a : A) (l : list A) : list A :=
  match l with
  | [] => [a]
  | b :: l' => if JSNum.gt (comparefn a b) 0 then b :: insert a l' else a :: l
  end.

Definition sort (l : list A) : list A := fold_right insert [] l.
End Sort.
End JSArray.

(** ** systems/ai-system.js *)
Module AISystem.
Import Components.
Section Host.
Local Open Scope float_scope.

(** [Math.cos] and [Math.sin] are the host's. *)
Variable Math_cos : float -> float.
Variable Math_sin : float -> float.

(** What one visit of an entity reads from the host: [Date.now()] at
    the start of a handler and again on arrival, and the three draws of
    [Math.random()] (angle, distance, idle interval). *)
Record Readings := mkReadings {
  currentTime : float;
  arrivalTime : float;
  randomAngle : float;
  randomDistance : float;
  randomInterval : float
}.

(** [chooseNewWanderTarget(ai, transform)] *)
Definition chooseNewWanderTarget (r : Readings) (ai : AI) (transform : Transform) : AI :=
  let angle := randomAngle r * JSNum.Math_PI * 2 in
  let distance := randomDistance r * wanderRadius ai in
  let target :=
    mkVec3 (x (position transform) + Math_cos angle * distance)
      (y (position transform))
      (z (position transform) + Math_sin angle * distance) in
  let maxBounds := 25 in
  let clamped :=
    mkVec3 (JSNum.Math_max (- maxBounds) (JSNum.Math_min maxBounds (x target)))
      (y target)
      (JSNum.Math_max (- maxBounds) (JSNum.Math_min maxBounds (z target))) in
  mkAI (behavior ai) (Some clamped) (lastDirectionChange ai)
    (directionChangeInterval ai) (wanderRadius ai) (seekRange ai) (state ai).

(** [if (atDestination)]: [true] only for the value [true]. *)
Definition truthy (v : option bool) : bool :=
  match v with Some b => b | None => false end.

(** [handleWanderBehavior(entityId, ai, transform, deltaTime)]: the
    [ai] object after the call and the manager after [moveTowards]. *)
Definition handleWanderBehavior (r : Readings) (entityId : Id) (ai : AI)
    (transform : Transform) (deltaTime : float) (em : Store) : AI * Store :=
  let ai1 :=
    if JSNum.gt (currentTime r - lastDirectionChange ai) (directionChangeInterval ai)
    then
      let chosen := chooseNewWanderTarget r ai transform in
      mkAI (behavior chosen) (targetPosition chosen) (currentTime r)
        (directionChangeInterval chosen) (wanderRadius chosen) (seekRange chosen)
        "moving"
    else ai in
  match targetPosition ai1 with
  | Some target =>
      if String.eqb (state ai1) "moving" then
        let '(atDestination, em1) :=
          MovementSystem.moveTowards entityId target deltaTime em in
        if truthy atDestination then
          (mkAI (behavior ai1) None (arrivalTime r)
             (1000 + randomInterval r * 3000) (wanderRadius ai1) (seekRange ai1)
             "idle",
           em1)
        else (ai1, em1)
      else (ai1, em)
  | None => (ai1, em)
  end.

(** [handleSeekBehavior(entityId, ai, transform, deltaTime)] *)
Definition handleSeekBehavior (entityId : Id) (ai : AI) (transform : Transform)
    (deltaTime : float) (em : Store) : AI * Store :=
  match targetPosition ai with
  | Some target =>
      let '(atDestination, em1) :=
        MovementSystem.moveTowards entityId target deltaTime em in
      if truthy atDestination then
        (mkAI "wander" None (lastDirectionChange ai) (directionChangeInterval ai)
           (wanderRadius ai) (seekRange ai) (state ai),
         em1)
      else (ai, em1)
  | None =>
      (mkAI "wander" (targetPosition ai) (lastDirectionChange ai)
         (directionChangeInterval ai) (wanderRadius ai) (seekRange ai) (state ai),
       em)
  end.

(** [handleIdleBehavior(entityId, ai, transform, deltaTime)] *)
Definition handleIdleBehavior (r : Readings) (entityId : Id) (ai : AI)
    (transform : Transform) (deltaTime : float) (em : Store) : AI * Store :=
  if JSNum.gt (currentTime r - lastDirectionChange ai) (directionChangeInterval ai)
  then
    (mkAI "wander" (targetPosition ai) (lastDirectionChange ai)
       (directionChangeInterval ai) (wanderRadius ai) (seekRange ai) (state ai),
     em)
  else (ai, em).

(** The [switch (ai.behavior)] of [updateEntityAI]. *)
Definition dispatch (r : Readings) (entityId : Id) (ai : AI) (transform : Transform)
    (deltaTime : float) (em : Store) : AI * Store :=
  if String.eqb (behavior ai) "wander" then
    handleWanderBehavior r entityId ai transform deltaTime em
  else if String.eqb (behavior ai) "seek" then
    handleSeekBehavior entityId ai transform deltaTime em
  else if String.eqb (behavior ai) "idle" then
    handleIdleBehavior r entityId ai transform deltaTime em
  else (ai, em).

(** [updateEntityAI(entityId, deltaTime)]: the handlers write to the
    [ai] object held by the manager. *)
Definition updateEntityAI (r : Readings) (entityId : Id) (deltaTime : float)
    (em : Store) : Store :=
  match getAI entityId em, getTransform entityId em with
  | Some ai, Some transform =>
      let '(ai', em') := dispatch r entityId ai transform deltaTime em in
      EM.writeComponent entityId AI_ (CAI ai') em'
  | _, _ => em
  end.

(** [update(deltaTime)]; [r entityId] is what the visit of the entity
    reads from the host. *)
Definition update (deltaTime : float) (r : Id -> Readings) (em : Store) : Store :=
  fold_left (fun em' entityId => updateEntityAI (r entityId) entityId deltaTime em')
    (EM.getEntitiesWithComponents [TRANSFORM; AI_; MOVEMENT] em) em.

(** [setTarget(entityId, targetPosition)] *)
Definition setTarget (entityId : Id) (target : Vec3) (em : Store) : Store :=
  match getAI entityId em with
  | Some ai =>
      EM.writeComponent entityId AI_
        (CAI (mkAI "seek" (Some target) (lastDirectionChange ai)
                (directionChangeInterval ai) (wanderRadius ai) (seekRange ai)
                "moving"))
        em
  | None => em
  end.

(** [setBehavior(entityId, behavior)]; [now] is the reading of
    [Date.now()]. *)
Definition setBehavior (now : float) (entityId : Id) (newBehavior : string)
    (em : Store) : Store :=
  match getAI entityId em with
  | Some ai =>
      EM.writeComponent entityId AI_
        (CAI (mkAI newBehavior (targetPosition ai) now
                (directionChangeInterval ai) (wanderRadius ai) (seekRange ai)
                "idle"))
        em
  | None => em
  end.

(** An entry of the array [getEntitiesInRange] returns. *)
Record InRange := mkInRange {
  entityId : Id;
  distance : float;
  in_position : Vec3
}.

(** The scan of [getEntitiesInRange] over the listed entities, before
    the sort. *)
Fixpoint scan (position : Vec3) (range : float) (ids : list Id) (em : Store)
    : list InRange :=
  match ids with
  | [] => []
  | id :: ids' =>
      match getTransform id em with
      | Some transform =>
          let dx := x (Components.position transform) - x position in
          let dz := z (Components.position transform) - z position in
          let distance := sqrt (dx * dx + dz * dz) in
          if JSNum.le distance range
          then mkInRange id distance (Components.position transform)
                 :: scan position range ids' em
          else scan position range ids' em
      | None => scan position range ids' em
      end
  end.

(** [getEntitiesInRange(position, range)] *)
Definition getEntitiesInRange (position : Vec3) (range : float) (em : Store)
    : list InRange :=
  JSArray.sort (fun a b => distance a - distance b)
    (scan position range (EM.getEntitiesWithComponents [TRANSFORM] em) em).
End Host.
End AISystem.

(** ** The movement update, step by step

    The five steps by which the specification describes one update of an
    entity, each a change of the pair of its transform and its movement
    component. *)
Module MovementSteps.
Import Components.
Section Host.
Local Open Scope float_scope.
Variable Math_sin : float -> float.

(** 1. [position.x += velocity.x * dtSeconds], and the same for [z]. *)
Definition advance (dtSeconds : float) (s : Transform * Movement)
    : Transform * Movement :=
  let '(t, m) := s in
  (mkTransform
     (mkVec3 (x (position t) + x (velocity m) * dtSeconds) (y (position t))
        (z (position t) + z (velocity m) * dtSeconds))
     (rotation t) (scale t),
   m).

(** 2. [velocity.y = (groundY + hoverHeight - position.y) * 5.0] *)
Definition spring (s : Transform * Movement) : Transform * Movement :=
  let '(t, m) := s in
  (t,
   mkMovement
     (mkVec3 (x (velocity m))
        ((groundY m + hoverHeight m - y (position t)) * 5.0)
        (z (velocity m)))
     (speed m) (hoverHeight m) (groundY m)).

(** 3. [velocity.x] and [velocity.z] are each multiplied by [0.95]. *)
Definition damp (s : Transform * Movement) : Transform * Movement :=
  let '(t, m) := s in
  (t,
   mkMovement
     (mkVec3 (x (velocity m) * 0.95) (y (velocity m)) (z (velocity m) * 0.95))
     (speed m) (hoverHeight m) (groundY m)).

(** 4. [position.y = groundY + hoverHeight + sin(clockSeconds * 2.0 + id) * 0.1] *)
Definition bob (clockSeconds : float) (entityId : Id) (s : Transform * Movement)
    : Transform * Movement :=
  let '(t, m) := s in
  (mkTransform
     (mkVec3 (x (position t))
        (groundY m + hoverHeight m
         + Math_sin (clockSeconds * 2.0 + JSNum.of_id entityId) * 0.1)
        (z (position t)))
     (rotation t) (scale t),
   m).

(** 5. The planar speed that gates the facing step, and the facing step
    itself once the new yaw is known. *)
Definition planar_speed (m : Movement) : float :=
  sqrt (x (velocity m) * x (velocity m) + z (velocity m) * z (velocity m)).

Definition face (yaw : float) (s : Transform * Movement) : Transform * Movement :=
  let '(t, m) := s in
  (mkTransform (position t) (mkVec3 (x (rotation t)) yaw (z (rotation t))) (scale t),
   m).

(** Steps 1 to 4 in order. *)
Definition before_facing (entityId : Id) (dt now : float)
    (s : Transform * Movement) : Transform * Movement :=
  bob (now / 1000) entityId (damp (spring (advance (dt / 1000) s))).

(** The signed difference of two angles brought towards the half-turn
    band: full turns are removed while it exceeds [Math.PI] ... *)
Inductive lowered : float -> float -> Prop :=
| lowered_done d : JSNum.gt d JSNum.Math_PI = false -> lowered d d
| lowered_turn d d' :
    JSNum.gt d JSNum.Math_PI = true ->
    lowered (d - 2 * JSNum.Math_PI) d' -> lowered d d'.

(** ... and then added while it is below [-Math.PI]. *)
Inductive raised : float -> float -> Prop :=
| raised_done d : JSNum.lt d (- JSNum.Math_PI) = false -> raised d d
| raised_turn d d' :
    JSNum.lt d (- JSNum.Math_PI) = true ->
    raised (d + 2 * JSNum.Math_PI) d' -> raised d d'.

(** [yaw] is [current] moved towards [target] by [factor] of the
    wrapped difference. *)
Definition shortest_angle_lerp (current target factor yaw : float) : Prop :=
  exists d1 d2, lowered (target - current) d1 /\ raised d1 d2
                /\ yaw = current + d2 * factor.
End Host.
End MovementSteps.

(** ** The invariant the specification states for AI components *)
Module AIInvariant.
Import Components.

(** [state = Moving] implies that a target is set. *)
Definition moving_has_target (ai : AI) : Prop :=
  state ai = "moving" -> targetPosition ai <> None.

(** The entity is on its way to its target: the next update of a seeking
    entity, or of a wandering one in state [moving], steers it there. *)
Definition pursuing (ai : AI) : Prop :=
  behavior ai = "seek" \/ (behavior ai = "wander" /\ state ai = "moving").

(** A target is set only while the entity pursues it. *)
Definition target_only_pursued (ai : AI) : Prop :=
  targetPosition ai <> None -> pursuing ai.

Definition holds (ai : AI) : Prop :=
  moving_has_target ai /\ target_only_pursued ai.

(** The invariant over every AI component of a manager. *)
Definition everywhere (P : AI -> Prop) (em : Store) : Prop :=
  forall id ai, getAI id em = Some ai -> P ai.
End AIInvariant.

(** ** What the contracts speak of *)
Module Contracts.
Import Components.
Local Open Scope float_scope.

(** Two invariants of every manager a program can hold. *)
Definition keys_unique {Data} (em : EM.EntityManager Data) : Prop :=
  NoDup (EM.getAllEntities em).
Definition allocator_positive {Data} (em : EM.EntityManager Data) : Prop :=
  (1 <= EM.nextEntityId em)%Z.

(** The velocity after [applyForce]. *)
Definition pushed (movement : Movement) (force : Vec3) : Movement :=
  mkMovement
    (mkVec3 (x (velocity movement) + x force) (y (velocity movement) + y force)
       (z (velocity movement) + z force))
    (speed movement) (hoverHeight movement) (groundY movement).

(** The force [moveTowards] applies towards [target]. *)
Definition seek_force (transform : Transform) (movement : Movement) (target : Vec3)
    : Vec3 :=
  let dx := x target - x (position transform) in
  let dz := z target - z (position transform) in
  let distance := MovementSystem.planar_distance (position transform) target in
  mkVec3 (dx / distance * speed movement) 0 (dz / distance * speed movement).

(** A difference of angles outside the half-turn band that a full
    turn does not change: it is too large in magnitude for [2 * Math.PI]
    to count, or it is infinite. *)
Definition absorbed (d : float) : Prop :=
  (JSNum.gt d JSNum.Math_PI = true /\ d - 2 * JSNum.Math_PI = d)
  \/ (JSNum.gt d JSNum.Math_PI = false
      /\ JSNum.lt d (- JSNum.Math_PI) = true /\ d + 2 * JSNum.Math_PI = d).

(** The manager after the two component objects were written. *)
Definition written (id : Id) (s : Transform * Movement) (em : Store) : Store :=
  EM.writeComponent id MOVEMENT (CMovement (snd s))
    (EM.writeComponent id TRANSFORM (CTransform (fst s)) em).

(** The test an entity passes to be reported by [getEntitiesInRange]. *)
Definition within (position : Vec3) (range : float) (em : Store) (id : Id) : bool :=
  match getTransform id em with
  | Some t => JSNum.le (MovementSystem.planar_distance position (Components.position t)) range
  | None => false
  end.

(** The entry reported for an entity that holds the transform [t]. *)
Definition entry (position : Vec3) (id : Id) (t : Transform) : AISystem.InRange :=
  AISystem.mkInRange id (MovementSystem.planar_distance position (Components.position t))
    (Components.position t).

(** A seeking entity that this visit finds at its target. *)
Definition seek_arrives (id : Id) (dt : float) (em : Store) : Prop :=
  exists ai target,
    getAI id em = Some ai /\ behavior ai = "seek"
    /\ targetPosition ai = Some target
    /\ fst (MovementSystem.moveTowards id target dt em) = Some true.

(** *** Sorting by a numeric key *)
Section ByKey.
Context {A : Type}.
Variable key : A -> float.

(** The comparator [(a, b) => a.key - b.key]. *)
Definition by_key (a b : A) : float := key a - key b.

Definition ordered (a b : A) : Prop := JSNum.le (key a) (key b) = true.
Definition numeric (a : A) : Prop := is_nan (key a) = false.
Definition tie (d : float) (a : A) : bool := key a =? d.

End ByKey.

(** *** Binary64 numbers *)

(** A finite or infinite number of sign [s]. *)
Definition signed (s : bool) (x : spec_float) : Prop :=
  match x with
  | S754_finite s' _ _ | S754_infinity s' => s' = s
  | _ => False
  end.

(** The integer a finite number stands for at the exponent [ez]. *)
Definition scaled (s : bool) (m : positive) (e ez : Z) : Z :=
  cond_Zopp s (Zpos (fst (shl_align m e ez))).
End Contracts.

(** ** Sample worlds *)
Module Samples.
Import EM Components.
Local Open Scope float_scope.

(** The systems as [game-engine.js] registers them: only the renderer
    has lifecycle hooks. *)
Definition renderSystem : System := mkSystem "render" true true true true.
Definition movementSystem : System := mkSystem "movement" true false false false.
Definition aiSystem : System := mkSystem "ai" true false false false.

Definition engine : Store :=
  addSystem aiSystem (addSystem movementSystem (addSystem renderSystem constructor)).

Definition origin : Vec3 := mkVec3 0 0 0.

(** A mob as [createEntityFromDefinition] builds it: [createEntity()]
    and one [addComponent] per component. *)
Definition spawn (px pz : float) (em : Store) : Store :=
  let o := createEntity None em in
  let id := match returned o with inr i => i | inl _ => 0%Z end in
  let em1 := store (addComponent id TRANSFORM
                      (CTransform (createTransformComponent px 0 pz origin)) (store o)) in
  let em2 := store (addComponent id MOVEMENT
                      (CMovement (createMovementComponent 2 1.5)) em1) in
  store (addComponent id AI_ (CAI (createAIComponent "wander" None)) em2).

(** One mob, with id 1, at the origin. *)
Definition world1 : Store := spawn 0 0 engine.

(** Three mobs: id 1 at distance 5 from the origin, ids 2 and 3 both
    at distance 3. *)
Definition world3 : Store := spawn 0 3 (spawn 3 0 (spawn 5 0 engine)).

(** The contracts hold for every host. Where a sample needs one it
    takes constant functions. *)
Definition const_sin (a : float) : float := 0.
Definition const_cos (a : float) : float := 1.
Definition const_atan2 (a b : float) : float := 0.

(** [Math.PI / 2], the heading [Math.atan2(vx, 0)] of a velocity along
    [+x]. *)
Definition quarter_turn : float := 0x1.921fb54442d18p+0.

(** A transform whose yaw is [1e300], and a movement along [+x]. *)
Definition spun : Transform :=
  createTransformComponent 0 0 0 (mkVec3 0 1e300 0).
Definition drifting : Movement :=
  mkMovement (mkVec3 1 0 0) 2 1.5 0.

(** [world1] with these two components on its mob. *)
Definition spinning : Store :=
  store (addComponent 1%Z MOVEMENT (CMovement drifting)
           (store (addComponent 1%Z TRANSFORM (CTransform spun) world1))).

Definition huge : float := 1e300.

(** A host whose [Math.atan2] gives the heading of a velocity along
    [+x]. *)
Definition east_atan2 (a b : float) : float := quarter_turn.

(** A target with a NaN coordinate. *)
Definition nowhere : Vec3 := mkVec3 nan 0 0.

Definition readings0 : AISystem.Readings :=
  AISystem.mkReadings 5000 5001 0.25 0.5 0.5.

(** The mob of [world1] sent to the place where it stands, and its AI
    component then, after the next visit, and after
    [setBehavior(1, "idle")] instead. *)
Definition seeking : Store := AISystem.setTarget 1%Z origin world1.
Definition seeker : AI := mkAI "seek" (Some origin) 0 2000 10 15 "moving".
Definition arrived : AI := mkAI "wander" None 0 2000 10 15 "moving".
Definition idled : AI := mkAI "idle" (Some origin) 5000 2000 10 15 "idle".

(** A manager whose first entity was created under the supplied id 1,
    the value the allocator starts at, and given a transform. *)
Definition taken : Store :=
  store (addComponent 1%Z TRANSFORM
           (CTransform (createTransformComponent 0 0 0 origin))
           (store (createEntity (Some 1%Z) constructor))).
End Samples.

(** ** Histories of a manager *)
Module EMSteps.
Section Steps.
Context {Data : Type}.

(** One method call on a manager, or one write of a system to a
    component object. *)
Inductive step : EM.EntityManager Data -> EM.EntityManager Data -> Prop :=
| step_createEntity id em : step em (EM.store (EM.createEntity id em))
| step_destroyEntity id em : step em (EM.store (EM.destroyEntity id em))
| step_addComponent id v d em : step em (EM.store (EM.addComponent id v d em))
| step_removeComponent id v em : step em (EM.store (EM.removeComponent id v em))
| step_addSystem s em : step em (EM.addSystem s em)
| step_removeSystem s em : step em (EM.removeSystem s em)
| step_writeComponent id v d em : step em (EM.writeComponent id v d em).

(** [evolves em em']: [em'] is [em] after any number of steps. *)
Inductive evolves : EM.EntityManager Data -> EM.EntityManager Data -> Prop :=
| evolves_refl em : evolves em em
| evolves_step em1 em2 em3 : evolves em1 em2 -> step em2 em3 -> evolves em1 em3.
End Steps.
End EMSteps.

(** ** core/entity-loader.js

    A definition is a document read from a file. The loader hands each
    of its component entries to [createComponentFromData], which builds
    the component object or throws; the loader itself does not look into
    the entries. The documents, the object spread
    [{...componentData, ...overrides[componentType]}] and the factory are
    taken as they come, and so is what the body of a system's hook does
    when the manager calls it. *)
Module EntityLoader.
Section Loader.
Variables Data Raw Err : Type.

(** [{ ...componentData, ...override }], where [override] is
    [overrides[componentType]] and may be [undefined]. *)
Variable spread : Raw -> option Raw -> Raw.

(** [createComponentFromData(type, data)] *)
Variable createComponentFromData : Variant -> Raw -> Err + Data.

(** The body of a hook at a call: it returns ([None]) or it throws.
    The renderer's [onComponentAdded], for one, throws a [TypeError] at
    a mesh component without material. A hook does not call back into
    the manager; none of the engine's systems does. *)
Variable hook : EM.HookCall Data -> option Err.

(** What the loader can throw: what the factory threw, what a hook
    threw, or what the manager threw. *)
Inductive Exn :=
| FromFactory (e : Err)
| FromHook (e : Err)
| FromManager (e : EM.Exn).

Record Outcome := mkOutcome {
  returned : Exn + Id;
  store : EM.EntityManager Data;
  notified : list (EM.HookCall Data)
}.

(** The manager's [this.systems.forEach(...)] over the calls it is
    about to make: a hook that throws ends it. The value is the calls
    made, the throwing one included, and what was thrown. *)
Fixpoint forEach_until (calls : list (EM.HookCall Data))
    : list (EM.HookCall Data) * option Err :=
  match calls with
  | [] => ([], None)
  | c :: calls' =>
      match hook c with
      | Some e => ([c], Some e)
      | None =>
          let '(made, thrown) := forEach_until calls' in (c :: made, thrown)
      end
  end.

(** The [for (const [componentType, componentData] of Object.entries(..))]
    loop, over the entries in the order [Object.entries] lists them; the
    hook calls made so far are [calls]. [addComponent] stores the
    component before it notifies the systems, so the component stays
    when a hook throws. *)
Fixpoint addComponents (entityId : Id) (overrides : Variant -> option Raw)
    (entries : list (Variant * Raw)) (em : EM.EntityManager Data)
    (calls : list (EM.HookCall Data)) : Outcome :=
  match entries with
  | [] => {| returned := inr entityId; store := em; notified := calls |}
  | (componentType, componentData) :: entries' =>
      let finalData := spread componentData (overrides componentType) in
      match createComponentFromData componentType finalData with
      | inl e => {| returned := inl (FromFactory e); store := em; notified := calls |}
      | inr component =>
          let o := EM.addComponent entityId componentType component em in
          match EM.returned o with
          | inl e =>
              {| returned := inl (FromManager e); store := EM.store o;
                 notified := calls |}
          | inr _ =>
              let '(made, thrown) := forEach_until (EM.notified o) in
              match thrown with
              | Some e =>
                  {| returned := inl (FromHook e); store := EM.store o;
                     notified := calls ++ made |}
              | None =>
                  addComponents entityId overrides entries' (EM.store o)
                    (calls ++ made)
              end
          end
      end
  end.

(** [createEntityFromDefinition(entityDefinition, overrides)];
    [components] is [entityDefinition.components], [None] when the
    definition has none. *)
Definition createEntityFromDefinition (components : option (list (Variant * Raw)))
    (overrides : Variant -> option Raw) (em : EM.EntityManager Data) : Outcome :=
  let o := EM.createEntity None em in
  match EM.returned o with
  | inl e => {| returned := inl (FromManager e); store := EM.store o; notified := [] |}
  | inr entityId =>
      match components with
      | Some entries => addComponents entityId overrides entries (EM.store o) []
      | None => {| returned := inr entityId; store := EM.store o; notified := [] |}
      end
  end.
End Loader.

Arguments FromFactory {Err}.
Arguments FromHook {Err}.
Arguments FromManager {Err}.
Arguments mkOutcome {Data Err}.
Arguments returned {Data Err}.
Arguments store {Data Err}.
Arguments notified {Data Err}.
Arguments forEach_until {Data Err}.
Arguments addComponents {Data Raw Err}.
Arguments createEntityFromDefinition {Data Raw Err}.
End EntityLoader.

(** ** core/game-engine.js *)
Module GameEngine.
Import Components.
Section Host.
Local Open Scope float_scope.

(** [Math.round], [Math.sin], [Math.cos] and [Math.atan2] are the
    host's. *)
Variable Math_round : float -> float.
Variable Math_sin : float -> float.
Variable Math_cos : float -> float.
Variable Math_atan2 : float -> float -> float.

(** The three fields of the frame counter. The two text nodes the
    counter is shown in belong to the page. *)
Record Counter := mkCounter {
  frameCount : float;
  fps : float;
  fpsUpdateTime : float
}.

(** [constructor]: all three start at [0]. *)
Definition fresh : Counter := mkCounter 0 0 0.

(** [updateFPS(deltaTime)] *)
Definition updateFPS (deltaTime : float) (c : Counter) : Counter :=
  let frameCount1 := frameCount c + 1 in
  let fpsUpdateTime1 := fpsUpdateTime c + deltaTime in
  if JSNum.le 1000 fpsUpdateTime1 then
    {| frameCount := 0;
       fps := Math_round (frameCount1 * 1000 / fpsUpdateTime1);
       fpsUpdateTime := 0 |}
  else
    {| frameCount := frameCount1; fps := fps c; fpsUpdateTime := fpsUpdateTime1 |}.

(** The counter after the frames whose durations are [deltas], oldest
    first. *)
Definition frames (deltas : list float) (c : Counter) : Counter :=
  fold_left (fun c' deltaTime => updateFPS deltaTime c') deltas c.

(** [this.entityManager.update(deltaTime)] with the systems of
    [setupSystems], in the order of their registration: the renderer,
    which reads the components and writes to its scene only, then the
    movement system, then the AI system. [now] and [r] are what the
    visits of an entity read from the host. *)
Definition updateSystems (fuel : nat) (deltaTime : float) (now : Id -> float)
    (r : Id -> AISystem.Readings) (em : Store) : option Store :=
  match MovementSystem.update Math_sin Math_atan2 fuel deltaTime now em with
  | Some em1 => Some (AISystem.update Math_cos Math_sin deltaTime r em1)
  | None => None
  end.

(** The fields of [GameEngine] that the loop reads and writes, and
    [scheduled], the number of callbacks [() => this.gameLoop()] handed
    to [requestAnimationFrame] that the host has not called yet. *)
Record Engine := mkEngine {
  isRunning : bool;
  lastTime : float;
  counter : Counter;
  entityManager : Store;
  scheduled : nat
}.

(** What one run of the loop body reads from the host:
    [performance.now()], and what the systems read when they visit an
    entity. *)
Record Frame := mkFrame {
  currentTime : float;
  clock : Id -> float;
  draws : Id -> AISystem.Readings
}.

(** [gameLoop()]; [None] when a system is still running after [fuel]
    tests of a loop condition. *)
Definition gameLoop (fuel : nat) (f : Frame) (g : Engine) : option Engine :=
  if negb (isRunning g) then Some g
  else
    let deltaTime := currentTime f - lastTime g in
    match updateSystems fuel deltaTime (clock f) (draws f) (entityManager g) with
    | Some em =>
        Some {| isRunning := isRunning g;
                lastTime := currentTime f;
                counter := updateFPS deltaTime (counter g);
                entityManager := em;
                scheduled := S (scheduled g) |}
    | None => None
    end.

(** [start()]; [startTime] is the reading of [performance.now()] it
    stores before it calls the loop. *)
Definition start (fuel : nat) (startTime : float) (f : Frame) (g : Engine)
    : option Engine :=
  if isRunning g then Some g
  else
    gameLoop fuel f
      {| isRunning := true; lastTime := startTime; counter := counter g;
         entityManager := entityManager g; scheduled := scheduled g |}.

(** [stop()] *)
Definition stop (g : Engine) : Engine :=
  {| isRunning := false; lastTime := lastTime g; counter := counter g;
     entityManager := entityManager g; scheduled := scheduled g |}.

(** The host calls one of the scheduled callbacks. *)
Definition animationFrame (fuel : nat) (f : Frame) (g : Engine) : option Engine :=
  match scheduled g with
  | O => Some g
  | S n =>
      gameLoop fuel f
        {| isRunning := isRunning g; lastTime := lastTime g; counter := counter g;
           entityManager := entityManager g; scheduled := n |}
  end.

(** [togglePause()] of [main.js] *)
Definition togglePause (fuel : nat) (startTime : float) (f : Frame) (g : Engine)
    : option Engine :=
  if isRunning g then Some (stop g) else start fuel startTime f g.
End Host.
End GameEngine.

(** ** main.js *)
Module Application.
Section Restart.
Context {Data : Type}.

(** The loop of [restartGame] that clears the world:
    [getAllEntities().forEach((entityId) => destroyEntity(entityId))].
    The ids are listed first; the value is the manager after the loop
    and the hook calls made, oldest first. *)
Definition clearEntities (em : EM.EntityManager Data)
    : EM.EntityManager Data * list (EM.HookCall Data) :=
  fold_left
    (fun acc entityId =>
       let o := EM.destroyEntity entityId (fst acc) in
       (EM.store o, snd acc ++ EM.notified o))
    (EM.getAllEntities em) (em, []).
End Restart.
End Application.

(** ** What the contracts of the loader and of the engine speak of *)
Module Outlines.
Import Components.

Section Loader.
Context {Data Raw Err : Type}.
Variable spread : Raw -> option Raw -> Raw.
Variable createComponentFromData : Variant -> Raw -> Err + Data.
Variable hook : EM.HookCall Data -> option Err.

(** The factory builds [snd b] from the entry [e], under the tag of
    the entry. *)
Definition accepted (overrides : Variant -> option Raw) (e : Variant * Raw)
    (b : Variant * Data) : Prop :=
  fst b = fst e
  /\ createComponentFromData (fst e) (spread (snd e) (overrides (fst e)))
     = inr (snd b).

(** The [onComponentAdded] calls for the component [b] of the entity
    [id]: one per system that has the hook, in registration order. *)
Definition announced (ss : list System) (id : Id) (b : Variant * Data)
    : list (EM.HookCall Data) :=
  List.map (fun s => EM.onComponentAdded (sys_name s) id (fst b) (snd b))
    (List.filter has_onComponentAdded ss).

(** No hook throws at one of the calls. *)
Definition quiet (calls : list (EM.HookCall Data)) : Prop :=
  Forall (fun c => hook c = None) calls.

(** How the loop ends at the entries [rest] that are left: there is
    none and the id is returned; or the factory throws at the first
    of them; or the factory builds a component from it, the manager
    stores it, and the hook of a system throws when it is told. The
    indices are the components attached on the way, the hook calls
    made, and what leaves the loader. *)
Inductive ends (overrides : Variant -> option Raw) (ss : list System) (id : Id)
  : list (Variant * Raw) -> list (Variant * Data) -> list (EM.HookCall Data)
    -> EntityLoader.Exn Err + Id -> Prop :=
| ends_finished : ends overrides ss id [] [] [] (inr id)
| ends_rejected v raw rest e :
    createComponentFromData v (spread raw (overrides v)) = inl e ->
    ends overrides ss id ((v, raw) :: rest) [] [] (inl (EntityLoader.FromFactory e))
| ends_hook_threw v raw rest d before s after e :
    createComponentFromData v (spread raw (overrides v)) = inr d ->
    List.filter has_onComponentAdded ss = before ++ s :: after ->
    quiet (List.map (fun s' => EM.onComponentAdded (sys_name s') id v d) before) ->
    hook (EM.onComponentAdded (sys_name s) id v d) = Some e ->
    ends overrides ss id ((v, raw) :: rest) [(v, d)]
      (List.map (fun s' => EM.onComponentAdded (sys_name s') id v d) before
       ++ [EM.onComponentAdded (sys_name s) id v d])
      (inl (EntityLoader.FromHook e)).
End Loader.

(** The component set made by setting the built components in order. *)
Definition assembled {Data} (builds : list (Variant * Data))
    (components : gmap Variant Data) : gmap Variant Data :=
  fold_left (fun c b => <[fst b := snd b]> c) builds components.

(** Two managers with the same entities in the same order, each with
    the same component tags, and the same allocator, registry and
    systems. *)
Definition same_shape {Data} (em em' : EM.EntityManager Data) : Prop :=
  EM.getAllEntities em' = EM.getAllEntities em
  /\ (forall id v, EM.hasComponent id v em' = EM.hasComponent id v em)
  /\ EM.nextEntityId em' = EM.nextEntityId em
  /\ EM.componentTypes em' = EM.componentTypes em
  /\ EM.systems em' = EM.systems em.

(** [em'] is [em] but for the components with a tag of [tags] of the
    entities of [ids]. *)
Definition touches {Data} (ids : list Id) (tags : list Variant)
    (em em' : EM.EntityManager Data) : Prop :=
  same_shape em em'
  /\ forall id v, ~ In id ids \/ ~ In v tags ->
       EM.getComponent id v em' = EM.getComponent id v em.

(** Two movement components that differ in the velocity at most. *)
Definition same_gait (m m' : Movement) : Prop :=
  speed m' = speed m /\ hoverHeight m' = hoverHeight m /\ groundY m' = groundY m.

(** The test [currentTime - ai.lastDirectionChange >
    ai.directionChangeInterval] fails. *)
Definition timer_running (r : AISystem.Readings) (ai : AI) : Prop :=
  JSNum.gt (AISystem.currentTime r - lastDirectionChange ai)%float
    (directionChangeInterval ai) = false.

(** An AI component that a visit has nothing to do for: its behavior
    is none of the three the system knows, or it idles or wanders with
    its timer running and, when wandering, it is not on its way to a
    target. *)
Definition rests (r : AISystem.Readings) (ai : AI) : Prop :=
  (behavior ai <> "wander" /\ behavior ai <> "seek" /\ behavior ai <> "idle")
  \/ (behavior ai = "idle" /\ timer_running r ai)
  \/ (behavior ai = "wander" /\ timer_running r ai
      /\ (targetPosition ai = None \/ state ai <> "moving")).

(** A coordinate within the bounds of the world, or not a number. *)
Definition in_bounds (c : float) : Prop :=
  is_nan c = true
  \/ (JSNum.le (-25)%float c = true /\ JSNum.le c 25%float = true).

(** The running engine after a frame read as [f], [base] being the
    time stamp it had, when the systems left the manager [em] and [n]
    callbacks are scheduled. *)
Definition framed (Math_round : float -> float) (f : GameEngine.Frame) (base : float)
    (g : GameEngine.Engine) (n : nat) (em : Store) : GameEngine.Engine :=
  GameEngine.mkEngine true (GameEngine.currentTime f)
    (GameEngine.updateFPS Math_round (GameEngine.currentTime f - base)%float
       (GameEngine.counter g))
    em n.

(** An entity whose movement update has no turn to wrap: it holds no
    transform or no movement component, or its planar speed after the
    damping fails the test [> 0.1], or its heading differs from
    [rotation.y] by no more than a half turn, so that both loops of
    [lerpAngle] are left at their first test. *)
Definition calm (Math_sin : float -> float) (Math_atan2 : float -> float -> float)
    (deltaTime : float) (now : Id -> float) (em : Store) (id : Id) : Prop :=
  forall t m,
    getTransform id em = Some t -> getMovement id em = Some m ->
    let s := MovementSteps.before_facing Math_sin id deltaTime (now id) (t, m) in
    let d :=
      (Math_atan2 (x (velocity (snd s))) (z (velocity (snd s))) - y (rotation t))%float in
    JSNum.gt (MovementSteps.planar_speed (snd s)) 0.1 = false
    \/ (JSNum.gt d JSNum.Math_PI = false /\ JSNum.lt d (- JSNum.Math_PI)%float = false).
End Outlines.

(** ** More sample worlds *)
Module Scenes.
Import EM Components Samples.
Local Open Scope float_scope.

(** [world1] after a second mob was created and destroyed again. *)
Definition respawned : Store :=
  store (destroyEntity 2%Z (store (createEntity None world1))).

Definition health : Component := CHealth (createHealthComponent 100 None).

(** A definition whose documents are bare speeds. *)
Definition override (data : float) (o : option float) : float :=
  match o with Some d => d | None => data end.
Definition no_overrides (type : Variant) : option float := None.
Definition walker : Component := CMovement (createMovementComponent 2 0.5).

(** A factory that knows the movement tag and builds a box mesh, and
    hooks of which the renderer's throws at a mesh component. *)
Definition box : Component := CMesh (createMeshComponent "box" nan true true).
Definition movement_or_mesh (type : Variant) (data : float) : string + Component :=
  if String.eqb type MOVEMENT
  then inr (CMovement (createMovementComponent data 0.5))
  else if String.eqb type MESH then inr box else inl type.
Definition mesh_throws (c : HookCall Component) : option string :=
  match c with
  | onComponentAdded s _ v _ =>
      if String.eqb s "render" && String.eqb v MESH then Some "TypeError" else None
  | _ => None
  end.

(** A time at which the timer of a fresh mob is still running. *)
Definition early : AISystem.Readings := AISystem.mkReadings 1000 1001 0.25 0.5 0.5.

(** The mob of [world1] made idle at time 0. *)
Definition idling : Store := AISystem.setBehavior 0 1%Z "idle" world1.
Definition idler : AI := mkAI "idle" None 0 2000 10 15 "idle".

(** [world1] after one frame of 16 ms, on a host with constant
    trigonometry and a clock that reads 0. *)
Definition after_frame : Store :=
  match
    GameEngine.updateSystems const_sin const_cos const_atan2 1 16 (fun _ => 0)
      (fun _ => readings0) world1
  with
  | Some em => em
  | None => world1
  end.

(** An engine that runs [world1] with one callback scheduled, and a
    frame read 16 ms later. *)
Definition const_round (a : float) : float := a.
Definition running : GameEngine.Engine :=
  GameEngine.mkEngine true 0 GameEngine.fresh world1 1.
Definition frame16 : GameEngine.Frame :=
  GameEngine.mkFrame 16 (fun _ => 0) (fun _ => readings0).
End Scenes.

(** * Lists *)
Module ListFacts.
Lemma filter_twice {A} (f g : A -> bool) l :
  List.filter f (List.filter g l) = List.filter (fun a => g a && f a) l.
Proof.
  induction l as [|a l IH]; [reflexivity|]. cbn [List.filter].
  destruct (g a); cbn [List.filter andb]; now rewrite IH.
Qed.
End ListFacts.

(** * Facts about insertion-ordered maps *)
Module JSMapFacts.
Import JSMap.
Section Ordered.
Context {V : Type}.
Implicit Types (m : list (Id * V)) (k : Id) (v : V).

Lemma has_In_keys k m : has k m = true <-> In k (keys m).
Proof.
  unfold has. induction m as [|[k' v] m IH]; simpl.
  - split; [discriminate | tauto].
  - destruct (Z.eqb_spec k k') as [->|Hne].
    + split; auto.
    + rewrite IH. split; [auto | intros [H|H]; [congruence | exact H]].
Qed.

Lemma get_None_keys k m : get k m = None <-> ~ In k (keys m).
Proof.
  rewrite <- has_In_keys. unfold has.
  destruct (get k m); split; intros H; congruence.
Qed.

Lemma get_set_eq k v m : get k (set k v m) = Some v.
Proof.
  induction m as [|[k' v'] m IH]; simpl.
  - now rewrite Z.eqb_refl.
  - destruct (Z.eqb_spec k k') as [->|Hne]; simpl.
    + now rewrite Z.eqb_refl.
    + destruct (Z.eqb_spec k k'); [contradiction | exact IH].
Qed.

Lemma get_set_ne k k' v m : k <> k' -> get k' (set k v m) = get k' m.
Proof.
  intros Hne. induction m as [|[k0 v0] m IH]; simpl.
  - destruct (Z.eqb_spec k' k); [congruence | reflexivity].
  - destruct (Z.eqb_spec k k0) as [->|Hk]; simpl.
    + destruct (Z.eqb_spec k' k0); [congruence | reflexivity].
    + now rewrite IH.
Qed.

Lemma keys_set_has k v m : has k m = true -> keys (set k v m) = keys m.
Proof.
  unfold has. induction m as [|[k' v'] m IH]; simpl; [discriminate|].
  destruct (Z.eqb_spec k k') as [->|Hne]; simpl; [reflexivity|].
  intros H. now rewrite IH.
Qed.

Lemma keys_set_fresh k v m : has k m = false -> keys (set k v m) = keys m ++ [k].
Proof.
  unfold has. induction m as [|[k' v'] m IH]; simpl; [reflexivity|].
  destruct (Z.eqb_spec k k') as [->|Hne]; simpl; [discriminate|].
  intros H. now rewrite IH.
Qed.

Lemma keys_delete_notin k m : ~ In k (keys m) -> delete k m = m.
Proof.
  induction m as [|[k' v'] m IH]; simpl; [reflexivity|].
  intros H. destruct (Z.eqb_spec k k') as [->|Hne]; [tauto|].
  rewrite IH; tauto.
Qed.

Lemma In_keys_delete k k' m : In k' (keys (delete k m)) -> In k' (keys m).
Proof.
  induction m as [|[k0 v0] m IH]; simpl; [tauto|].
  destruct (Z.eqb_spec k k0) as [->|Hne]; simpl; tauto.
Qed.

Lemma NoDup_keys_set k v m : NoDup (keys m) -> NoDup (keys (set k v m)).
Proof.
  intros Hnd. destruct (has k m) eqn:Hh.
  - now rewrite keys_set_has.
  - rewrite keys_set_fresh by exact Hh.
    apply NoDup_app; split; [exact Hnd|]. split.
    + intros x Hx Hin. apply list_elem_of_singleton in Hin. subst x.
      apply list_elem_of_In, has_In_keys in Hx. congruence.
    + apply NoDup_singleton.
Qed.

Lemma NoDup_keys_delete k m : NoDup (keys m) -> NoDup (keys (delete k m)).
Proof.
  induction m as [|[k0 v0] m IH]; simpl; [auto|].
  intros Hnd. apply NoDup_cons in Hnd as [Hk0 Hnd].
  destruct (Z.eqb_spec k k0) as [->|Hne]; simpl; [exact Hnd|].
  apply NoDup_cons; split; [|auto].
  intros Hin. apply Hk0. apply list_elem_of_In.
  apply list_elem_of_In in Hin. eapply In_keys_delete, Hin.
Qed.

Lemma get_delete_eq k m : NoDup (keys m) -> get k (delete k m) = None.
Proof.
  induction m as [|[k0 v0] m IH]; simpl; [auto|].
  intros Hnd. apply NoDup_cons in Hnd as [Hk0 Hnd].
  destruct (Z.eqb_spec k k0) as [->|Hne]; simpl.
  - apply get_None_keys. rewrite <- list_elem_of_In. exact Hk0.
  - destruct (Z.eqb_spec k k0); [contradiction | auto].
Qed.

Lemma get_delete_ne k k' m : k <> k' -> get k' (delete k m) = get k' m.
Proof.
  intros Hne. induction m as [|[k0 v0] m IH]; simpl; [reflexivity|].
  destruct (Z.eqb_spec k k0) as [->|Hk]; simpl.
  - destruct (Z.eqb_spec k' k0); [congruence | reflexivity].
  - now rewrite IH.
Qed.

Lemma set_get_same k v m : get k m = Some v -> set k v m = m.
Proof.
  induction m as [|[k0 v0] m IH]; simpl; [discriminate|].
  destruct (Z.eqb_spec k k0) as [->|Hne].
  - now intros [= ->].
  - intros H. now rewrite IH.
Qed.

Lemma In_get k v m : NoDup (keys m) -> In (k, v) m -> get k m = Some v.
Proof.
  induction m as [|[k0 v0] m IH]; simpl; [tauto|].
  intros Hnd. apply NoDup_cons in Hnd as [Hk0 Hnd].
  intros [[= -> ->]|Hin].
  - now rewrite Z.eqb_refl.
  - destruct (Z.eqb_spec k k0) as [->|Hne]; [|auto].
    exfalso. apply Hk0, list_elem_of_In. unfold keys.
    change k0 with (fst (k0, v)). now apply in_map.
Qed.

Lemma keys_delete k m :
  NoDup (keys m) ->
  keys (delete k m) = List.filter (fun k' => negb (Z.eqb k' k)) (keys m).
Proof.
  induction m as [|[k0 v0] m IH]; simpl; [reflexivity|].
  intros Hnd. apply NoDup_cons in Hnd as [Hk0 Hnd].
  destruct (Z.eqb_spec k k0) as [->|Hne]; simpl.
  - rewrite Z.eqb_refl. simpl.
    rewrite <- (keys_delete_notin k0 m) at 1
      by (rewrite <- list_elem_of_In; exact Hk0).
    now apply IH.
  - destruct (Z.eqb_spec k0 k); [congruence|]. simpl. now rewrite IH.
Qed.

Lemma has_set k k' v m : has k' (set k v m) = (Z.eqb k' k || has k' m)%bool.
Proof.
  unfold has. destruct (Z.eqb_spec k' k) as [->|Hne].
  - now rewrite get_set_eq.
  - rewrite get_set_ne by congruence. reflexivity.
Qed.
End Ordered.
End JSMapFacts.

(** * Facts about binary64 arithmetic *)
Module FloatFacts.
Import Contracts.
(** The binary64 format: 53 bits of precision, the least exponent of a
    mantissa is -1074. The lemmas read the specification of the
    operations ([SpecFloat]) that the primitive operations obey. *)
Lemma digits2_pos_lower m : 2 ^ (Zpos (digits2_pos m) - 1) <= Zpos m.
Proof.
  induction m as [m IH|m IH|]; simpl digits2_pos.
  - rewrite Pos2Z.inj_succ.
    replace (Z.succ (Zpos (digits2_pos m)) - 1) with (Z.succ (Zpos (digits2_pos m) - 1)) by lia.
    rewrite Z.pow_succ_r by lia. lia.
  - rewrite Pos2Z.inj_succ.
    replace (Z.succ (Zpos (digits2_pos m)) - 1) with (Z.succ (Zpos (digits2_pos m) - 1)) by lia.
    rewrite Z.pow_succ_r by lia. lia.
  - simpl. lia.
Qed.

Lemma digits2_pos_upper m : Zpos m < 2 ^ Zpos (digits2_pos m).
Proof.
  induction m as [m IH|m IH|]; simpl digits2_pos.
  - rewrite Pos2Z.inj_succ, Z.pow_succ_r by lia. lia.
  - rewrite Pos2Z.inj_succ, Z.pow_succ_r by lia. lia.
  - simpl. lia.
Qed.

Lemma shr_1_m r : 0 <= shr_m r -> shr_m (shr_1 r) = shr_m r / 2.
Proof.
  destruct r as [m r s]. cbn [shr_m shr_1]. destruct m as [|[p|p|]|p]; cbn [shr_m]; intros H; try lia.
  - reflexivity.
  - rewrite (Pos2Z.inj_xI p). apply Z.div_unique with 1; lia.
  - rewrite (Pos2Z.inj_xO p). apply Z.div_unique with 0; lia.
  - reflexivity.
Qed.

Lemma pow2_xO p : 2 ^ Zpos p~0 = 2 ^ Zpos p * 2 ^ Zpos p.
Proof.
  rewrite (Pos2Z.inj_xO p). replace (2 * Zpos p) with (Zpos p + Zpos p) by lia.
  apply Z.pow_add_r; lia.
Qed.

Lemma pow2_xI p : 2 ^ Zpos p~1 = 2 * (2 ^ Zpos p * 2 ^ Zpos p).
Proof.
  rewrite (Pos2Z.inj_xI p).
  replace (2 * Zpos p + 1) with (Z.succ (Zpos p + Zpos p)) by lia.
  rewrite Z.pow_succ_r by lia. rewrite Z.pow_add_r by lia. reflexivity.
Qed.

Lemma iter_shr_1_m p : forall r,
  0 <= shr_m r -> shr_m (SpecFloat.iter_pos shr_1 p r) = shr_m r / 2 ^ Zpos p.
Proof.
  assert (Hdiv : forall a b, 0 <= a -> 0 < b -> 0 <= a / b)
    by (intros; apply Z.div_pos; lia).
  assert (Hpow : forall q, 0 < 2 ^ Zpos q) by (intros; apply Z.pow_pos_nonneg; lia).
  induction p as [p IH|p IH|]; intros r Hr; cbn [SpecFloat.iter_pos].
  - assert (H1 : 0 <= shr_m (shr_1 r)) by (rewrite shr_1_m by exact Hr; apply Hdiv; lia).
    assert (H2 : 0 <= shr_m (SpecFloat.iter_pos shr_1 p (shr_1 r)))
      by (rewrite IH by exact H1; apply Hdiv; auto).
    rewrite IH by exact H2. rewrite IH by exact H1. rewrite shr_1_m by exact Hr.
    pose proof (Hpow p). rewrite pow2_xI, !Z.div_div by lia. reflexivity.
  - assert (H2 : 0 <= shr_m (SpecFloat.iter_pos shr_1 p r))
      by (rewrite IH by exact Hr; apply Hdiv; auto).
    rewrite IH by exact H2. rewrite IH by exact Hr.
    pose proof (Hpow p). rewrite pow2_xO, !Z.div_div by lia. reflexivity.
  - rewrite shr_1_m by exact Hr. reflexivity.
Qed.

Abbreviation emin64 := (-1074).

Lemma shr_record_of_loc_m m l : shr_m (shr_record_of_loc m l) = m.
Proof. destruct l as [|[]]; reflexivity. Qed.

(** Rounding a positive mantissa at an exponent no less than [emin]
    never reaches zero. *)
Lemma shr_fexp_pos m e l :
  emin64 <= e ->
  0 < shr_m (fst (shr_fexp prec emax (Zpos m) e l))
  /\ emin64 <= snd (shr_fexp prec emax (Zpos m) e l).
Proof.
  intros He. unfold shr_fexp, shr, fexp, Zdigits2, prec, emax, SpecFloat.emin.
  pose proof (digits2_pos_lower m) as Hlo.
  set (d := Zpos (digits2_pos m)) in *.
  destruct (Z.max (d + e - 53) (3 - 1024 - 53) - e) as [|p|p] eqn:Hn; cbn [fst snd].
  - rewrite shr_record_of_loc_m. lia.
  - rewrite iter_shr_1_m by (rewrite shr_record_of_loc_m; lia).
    rewrite shr_record_of_loc_m. split; [|lia].
    apply Z.div_str_pos. split; [apply Z.pow_pos_nonneg; lia|].
    apply Z.le_trans with (2 ^ (d - 1)); [|exact Hlo].
    apply Z.pow_le_mono_r; lia.
  - rewrite shr_record_of_loc_m. lia.
Qed.

Lemma round_nearest_even_pos m l : exists m', round_nearest_even (Zpos m) l = Zpos m'.
Proof.
  destruct l as [|[]]; cbn [round_nearest_even]; eauto.
  - destruct (Z.even (Zpos m)); eauto.
Qed.

Lemma binary_round_aux_signed s m e l :
  emin64 <= e -> signed s (binary_round_aux prec emax s (Zpos m) e l).
Proof.
  intros He. unfold binary_round_aux.
  destruct (shr_fexp_pos m e l He) as [Hm He'].
  destruct (shr_fexp prec emax (Zpos m) e l) as [mrs' e']; cbn [fst snd] in *.
  destruct (shr_m mrs') as [|m1|m1] eqn:Hm1; try lia.
  destruct (round_nearest_even_pos m1 (loc_of_shr_record mrs')) as [m2 ->].
  destruct (shr_fexp_pos m2 e' loc_Exact He') as [Hm2 _].
  destruct (shr_fexp prec emax (Zpos m2) e' loc_Exact) as [mrs'' e'']; cbn [fst snd] in *.
  destruct (shr_m mrs'') as [|m3|m3]; try lia.
  destruct (e'' <=? emax - prec); reflexivity.
Qed.

Lemma binary_round_signed s m e :
  emin64 <= e -> signed s (binary_round prec emax s m e).
Proof.
  intros He. unfold binary_round, shl_align.
  set (e' := fexp prec emax (Zpos (digits2_pos m) + e)).
  assert (He' : emin64 <= e') by (unfold e', fexp, SpecFloat.emin, prec, emax; lia).
  destruct (e' - e); now apply binary_round_aux_signed.
Qed.

Lemma pos_iter_xO m d : Zpos (Pos.iter xO m d) = Zpos m * 2 ^ Zpos d.
Proof.
  induction d as [|d IH] using Pos.peano_ind.
  - cbn [Pos.iter]. rewrite (Pos2Z.inj_xO m). change (2 ^ 1) with 2. lia.
  - rewrite Pos.iter_succ, (Pos2Z.inj_xO (Pos.iter xO m d)), IH, Pos2Z.inj_succ,
      Z.pow_succ_r by lia.
    lia.
Qed.

Lemma shl_align_value m e ez :
  ez <= e -> Zpos (fst (shl_align m e ez)) = Zpos m * 2 ^ (e - ez).
Proof.
  intros Hle. unfold shl_align.
  destruct (ez - e) as [|d|d] eqn:Hd; cbn [fst]; try lia.
  - replace (e - ez) with 0 by lia. lia.
  - rewrite pos_iter_xO. f_equal. f_equal. lia.
Qed.

Lemma bounded_facts m e :
  bounded prec emax m e = true ->
  emin64 <= e /\ Zpos (digits2_pos m) <= 53
  /\ (emin64 < e -> Zpos (digits2_pos m) = 53).
Proof.
  unfold bounded, canonical_mantissa, fexp, SpecFloat.emin, prec, emax.
  intros H. apply andb_prop in H as [H _]. apply Z.eqb_eq in H. lia.
Qed.

Lemma scaled_lt m1 e1 m2 e2 :
  bounded prec emax m1 e1 = true -> bounded prec emax m2 e2 = true ->
  e1 < e2 -> Zpos m1 * 2 ^ (e1 - e1) < Zpos m2 * 2 ^ (e2 - e1).
Proof.
  intros H1 H2 Hlt.
  apply bounded_facts in H1 as (He1 & Hd1 & _).
  apply bounded_facts in H2 as (He2 & _ & Hd2). specialize (Hd2 ltac:(lia)).
  pose proof (digits2_pos_upper m1) as Hu. pose proof (digits2_pos_lower m2) as Hl.
  rewrite Hd2 in Hl. rewrite Z.sub_diag, Z.pow_0_r, Z.mul_1_r.
  assert (Hp : 2 ^ Zpos (digits2_pos m1) <= 2 ^ 53) by (apply Z.pow_le_mono_r; lia).
  assert (Hq : 2 ^ 1 <= 2 ^ (e2 - e1)) by (apply Z.pow_le_mono_r; lia).
  change (2 ^ 1) with 2 in Hq. change (53 - 1) with 52 in Hl.
  assert (E : 2 ^ 53 = 2 * 2 ^ 52) by reflexivity.
  nia.
Qed.

Lemma SFcompare_finite s1 m1 e1 s2 m2 e2 :
  bounded prec emax m1 e1 = true -> bounded prec emax m2 e2 = true ->
  SFcompare (S754_finite s1 m1 e1) (S754_finite s2 m2 e2)
  = Some (scaled s1 m1 e1 (Z.min e1 e2) ?= scaled s2 m2 e2 (Z.min e1 e2)).
Proof.
  intros H1 H2. unfold scaled. rewrite !shl_align_value by lia.
  assert (P1 : 0 < Zpos m1 * 2 ^ (e1 - Z.min e1 e2))
    by (apply Z.mul_pos_pos; [lia | apply Z.pow_pos_nonneg; lia]).
  assert (P2 : 0 < Zpos m2 * 2 ^ (e2 - Z.min e1 e2))
    by (apply Z.mul_pos_pos; [lia | apply Z.pow_pos_nonneg; lia]).
  cbn [SFcompare]. destruct (Z.compare_spec e1 e2) as [->|Hlt|Hgt].
  - rewrite Z.min_id, Z.sub_diag, Z.pow_0_r, !Z.mul_1_r.
    destruct s1, s2; reflexivity.
  - pose proof (scaled_lt m1 e1 m2 e2 H1 H2 Hlt) as Hv.
    rewrite Z.min_l in * by lia.
    destruct s1, s2; cbn [cond_Zopp]; f_equal; symmetry;
      first [apply Z.compare_lt_iff | apply Z.compare_gt_iff]; lia.
  - pose proof (scaled_lt m2 e2 m1 e1 H2 H1 Hgt) as Hv.
    rewrite Z.min_r in * by lia.
    destruct s1, s2; cbn [cond_Zopp]; f_equal; symmetry;
      first [apply Z.compare_lt_iff | apply Z.compare_gt_iff]; lia.
Qed.

(** The sign of a difference of two finite numbers is the order of the
    two numbers. *)
Lemma SFsub_finite_pos s1 m1 e1 s2 m2 e2 :
  bounded prec emax m1 e1 = true -> bounded prec emax m2 e2 = true ->
  SFltb (S754_zero false) (SF64sub (S754_finite s1 m1 e1) (S754_finite s2 m2 e2))
  = SFltb (S754_finite s2 m2 e2) (S754_finite s1 m1 e1).
Proof.
  intros H1 H2. unfold SFltb at 2.
  rewrite (SFcompare_finite s2 m2 e2 s1 m1 e1 H2 H1).
  unfold SF64sub, SFsub. fold (scaled s1 m1 e1 (Z.min e1 e2)).
  fold (scaled s2 m2 e2 (Z.min e1 e2)). rewrite (Z.min_comm e2 e1).
  set (v1 := scaled s1 m1 e1 (Z.min e1 e2)).
  set (v2 := scaled s2 m2 e2 (Z.min e1 e2)).
  assert (He : emin64 <= Z.min e1 e2).
  { apply bounded_facts in H1, H2. lia. }
  unfold binary_normalize. destruct (v1 - v2) as [|p|p] eqn:Hd.
  - replace (v2 ?= v1) with Eq by (symmetry; apply Z.compare_eq_iff; lia).
    reflexivity.
  - replace (v2 ?= v1) with Lt by (symmetry; apply Z.compare_lt_iff; lia).
    pose proof (binary_round_signed false p _ He) as Hs.
    destruct (binary_round prec emax false p (Z.min e1 e2)) as [| s | | s m e];
      cbn [signed] in Hs; try contradiction; subst s; reflexivity.
  - replace (v2 ?= v1) with Gt by (symmetry; apply Z.compare_gt_iff; lia).
    pose proof (binary_round_signed true p _ He) as Hs.
    destruct (binary_round prec emax true p (Z.min e1 e2)) as [| s | | s m e];
      cbn [signed] in Hs; try contradiction; subst s; reflexivity.
Qed.

Lemma SFsub_pos x y :
  valid_binary x = true -> valid_binary y = true ->
  x <> S754_nan -> y <> S754_nan ->
  SFltb (S754_zero false) (SF64sub x y) = SFltb y x.
Proof.
  intros Vx Vy Nx Ny.
  destruct x as [sx|sx| |sx mx ex], y as [sy|sy| |sy my ey];
    try contradiction; try (now apply SFsub_finite_pos);
    try (destruct sx); try (destruct sy); reflexivity.
Qed.

Lemma SFcompare_antisym x y :
  SFcompare y x = option_map CompOpp (SFcompare x y).
Proof.
  destruct x as [sx|sx| |sx mx ex], y as [sy|sy| |sy my ey];
    try (destruct sx); try (destruct sy); try reflexivity;
    cbn [SFcompare option_map]; f_equal;
    rewrite (Z.compare_antisym ex ey);
    destruct (ex ?= ey); cbn [CompOpp]; try reflexivity;
    change (Pos.compare_cont Eq my mx) with (Pos.compare my mx);
    change (Pos.compare_cont Eq mx my) with (Pos.compare mx my);
    rewrite (Pos.compare_antisym mx my); try reflexivity.
Qed.

Lemma SFcompare_refl x : x <> S754_nan -> SFcompare x x = Some Eq.
Proof.
  destruct x as [s|s| |s m e]; intros H; try contradiction;
    try (destruct s; reflexivity).
  cbn [SFcompare]. rewrite Z.compare_refl.
  change (Pos.compare_cont Eq m m) with (Pos.compare m m).
  rewrite Pos.compare_refl. now destruct s.
Qed.

Lemma SFleb_trans x y z :
  SFleb x y = true -> SFleb y z = true -> SFleb x z = true.
Proof.
  unfold SFleb.
  destruct x as [sx|sx| |sx mx ex], y as [sy|sy| |sy my ey],
    z as [sz|sz| |sz mz ez];
    try (destruct sx); try (destruct sy); try (destruct sz);
    cbn [SFcompare]; try discriminate; try reflexivity;
    change (Pos.compare_cont Eq mx my) with (Pos.compare mx my);
    change (Pos.compare_cont Eq my mz) with (Pos.compare my mz);
    change (Pos.compare_cont Eq mx mz) with (Pos.compare mx mz);
    destruct (Z.compare_spec ex ey), (Z.compare_spec ey ez),
      (Z.compare_spec ex ez);
    try discriminate; try reflexivity; try lia; subst;
    destruct (Pos.compare_spec mx my), (Pos.compare_spec my mz),
      (Pos.compare_spec mx mz);
    cbn [CompOpp]; try discriminate; try reflexivity; lia.
Qed.

(** *** Primitive floats *)
Local Open Scope float_scope.

Lemma is_nan_false a : is_nan a = false <-> Prim2SF a <> S754_nan.
Proof.
  unfold is_nan. rewrite FloatAxioms.eqb_spec. unfold SFeqb. split.
  - intros H E. rewrite E in H. discriminate.
  - intros H. now rewrite SFcompare_refl.
Qed.

Lemma leb_not_nan a b : (a <=? b) = true -> is_nan a = false /\ is_nan b = false.
Proof.
  rewrite FloatAxioms.leb_spec, !is_nan_false. unfold SFleb. intros H.
  split; intros E; rewrite E in H; [|destruct (Prim2SF a)]; discriminate.
Qed.

Lemma ltb_not_nan a b : (a <? b) = true -> is_nan a = false /\ is_nan b = false.
Proof.
  rewrite FloatAxioms.ltb_spec, !is_nan_false. unfold SFltb. intros H.
  split; intros E; rewrite E in H; [|destruct (Prim2SF a)]; discriminate.
Qed.

Lemma compare_total a b :
  is_nan a = false -> is_nan b = false ->
  exists c, SFcompare (Prim2SF a) (Prim2SF b) = Some c.
Proof.
  rewrite !is_nan_false. intros Ha Hb.
  destruct (Prim2SF a) as [sx|sx| |sx mx ex], (Prim2SF b) as [sy|sy| |sy my ey];
    try contradiction; cbn [SFcompare]; eauto.
Qed.

(** [a <= b] rules out [a > b] ... *)
Lemma leb_not_gt a b : (a <=? b) = true -> (b <? a) = false.
Proof.
  rewrite FloatAxioms.leb_spec, FloatAxioms.ltb_spec. unfold SFleb, SFltb.
  rewrite (SFcompare_antisym (Prim2SF a) (Prim2SF b)).
  now destruct (SFcompare (Prim2SF a) (Prim2SF b)) as [[]|].
Qed.

(** ... and for two numbers (neither is NaN) one of the two holds. *)
Lemma not_gt_leb a b :
  is_nan a = false -> is_nan b = false -> (b <? a) = false -> (a <=? b) = true.
Proof.
  intros Ha Hb. destruct (compare_total a b Ha Hb) as [c Hc].
  rewrite FloatAxioms.leb_spec, FloatAxioms.ltb_spec. unfold SFleb, SFltb.
  rewrite (SFcompare_antisym (Prim2SF a) (Prim2SF b)), Hc.
  now destruct c.
Qed.

Lemma eqb_not_lt a b : (a =? b) = true -> (a <? b) = false /\ (b <? a) = false.
Proof.
  rewrite FloatAxioms.eqb_spec, !FloatAxioms.ltb_spec. unfold SFeqb, SFltb.
  rewrite (SFcompare_antisym (Prim2SF a) (Prim2SF b)).
  now destruct (SFcompare (Prim2SF a) (Prim2SF b)) as [[]|].
Qed.

Lemma leb_trans a b c : (a <=? b) = true -> (b <=? c) = true -> (a <=? c) = true.
Proof. rewrite !FloatAxioms.leb_spec. apply SFleb_trans. Qed.

Lemma ltb_leb a b : (a <? b) = true -> (a <=? b) = true.
Proof.
  rewrite FloatAxioms.ltb_spec, FloatAxioms.leb_spec. unfold SFltb, SFleb.
  now destruct (SFcompare (Prim2SF a) (Prim2SF b)) as [[]|].
Qed.

Lemma eqb_leb a b : (a =? b) = true -> (a <=? b) = true /\ (b <=? a) = true.
Proof.
  rewrite FloatAxioms.eqb_spec, !FloatAxioms.leb_spec. unfold SFeqb, SFleb.
  rewrite (SFcompare_antisym (Prim2SF a) (Prim2SF b)).
  now destruct (SFcompare (Prim2SF a) (Prim2SF b)) as [[]|].
Qed.

Lemma leb_antisym a b : (a <=? b) = true -> (b <=? a) = true -> (a =? b) = true.
Proof.
  rewrite FloatAxioms.eqb_spec, !FloatAxioms.leb_spec. unfold SFeqb, SFleb.
  rewrite (SFcompare_antisym (Prim2SF a) (Prim2SF b)).
  now destruct (SFcompare (Prim2SF a) (Prim2SF b)) as [[]|].
Qed.

Lemma eqb_refl a : is_nan a = false -> (a =? a) = true.
Proof. unfold is_nan. now destruct (a =? a). Qed.

Lemma eqb_same_not_lt a b d :
  (a =? d) = true -> (b =? d) = true -> (b <? a) = false.
Proof.
  intros Ha Hb. apply eqb_leb in Ha as [Ha _]. apply eqb_leb in Hb as [_ Hb].
  apply leb_not_gt. now apply leb_trans with d.
Qed.

(** The sign of [a - b]: for two numbers, [a - b > 0] exactly when
    [a > b]. Gradual underflow keeps a nonzero difference away from
    zero, and an overflow keeps its sign. *)
Lemma sub_pos_gt a b :
  is_nan a = false -> is_nan b = false -> (0 <? a - b) = (b <? a).
Proof.
  rewrite !is_nan_false. intros Ha Hb.
  rewrite !FloatAxioms.ltb_spec, FloatAxioms.sub_spec.
  change (Prim2SF 0) with (S754_zero false).
  apply SFsub_pos; auto using Prim2SF_valid.
Qed.
End FloatFacts.

(** * The entity manager: invariants and method contracts *)
Module EMFacts.
Import EM JSMap JSMapFacts Contracts.
Section Manager.
Context {Data : Type}.
Implicit Types (em : EntityManager Data) (id entityId : Id) (v : Variant).

Lemma writeComponent_keys id v d em :
  getAllEntities (writeComponent id v d em) = getAllEntities em.
Proof.
  unfold writeComponent, getAllEntities.
  destruct (get id (entities em)) as [c|] eqn:Hg; [|reflexivity].
  destruct (components_has c v); [|reflexivity]. simpl.
  apply keys_set_has. unfold has. now rewrite Hg.
Qed.

Lemma reachable_keys_unique em : reachable em -> keys_unique em.
Proof.
  unfold keys_unique, getAllEntities.
  induction 1 as [|id em _ IH|id em _ IH|id v d em _ IH|id v em _ IH
                 |s em _ IH|s em _ IH|id v d em _ IH]; simpl.
  - apply NoDup_nil_2.
  - now apply NoDup_keys_set.
  - now apply NoDup_keys_delete.
  - unfold addComponent. destruct (get id (entities em)); simpl;
      [now apply NoDup_keys_set | exact IH].
  - unfold removeComponent. destruct (get id (entities em)); simpl;
      [now apply NoDup_keys_set | exact IH].
  - exact IH.
  - exact IH.
  - fold (getAllEntities (writeComponent id v d em)).
    rewrite writeComponent_keys. exact IH.
Qed.

Lemma reachable_allocator_positive em : reachable em -> allocator_positive em.
Proof.
  unfold allocator_positive.
  induction 1 as [|id em _ IH|id em _ IH|id v d em _ IH|id v em _ IH
                 |s em _ IH|s em _ IH|id v d em _ IH]; simpl; try lia.
  - destruct id as [i|]; [destruct (Z.eqb i 0)|]; lia.
  - unfold addComponent. destruct (get id (entities em)); simpl; lia.
  - unfold removeComponent. destruct (get id (entities em)); simpl; lia.
  - unfold writeComponent. destruct (get id (entities em)) as [c|]; [|lia].
    destruct (components_has c v); simpl; lia.
Qed.

Lemma forEach_hook_Forall (hook : System -> bool) (call : string -> HookCall Data)
    (P : HookCall Data -> Prop) ss :
  (forall s, P (call s)) -> Forall P (forEach_hook hook call ss).
Proof.
  intros HP. unfold forEach_hook. apply Forall_forall. intros x Hx.
  apply list_elem_of_In, in_map_iff in Hx as (s & <- & _). apply HP.
Qed.

(** C4. [destroyEntity(id)] never throws; afterwards the entity has no
    component set, every other entity is as it was and keeps its place
    in the iteration order; when the id was not live the manager is
    unchanged (so a second call changes nothing); and in every case,
    live id or not, the [onEntityDestroyed] hook of each registered
    system that has one is called with the id, once per registration,
    in registration order. *)
Theorem destroyEntity_spec em id :
  reachable em ->
  let o := destroyEntity id em in
  returned o = inr tt
  /\ has id (entities (store o)) = false
  /\ (forall id', id' <> id ->
        get id' (entities (store o)) = get id' (entities em))
  /\ getAllEntities (store o)
     = List.filter (fun k => negb (Z.eqb k id)) (getAllEntities em)
  /\ (has id (entities em) = false -> store o = em)
  /\ store (destroyEntity id (store o)) = store o
  /\ systems (store o) = systems em
  /\ notified o
     = List.map (fun s => onEntityDestroyed (sys_name s) id)
         (List.filter has_onEntityDestroyed (systems em))
  /\ notified (destroyEntity id (store o)) = notified o.
Proof.
  intros Hr. pose proof (reachable_keys_unique em Hr) as Hnd.
  unfold keys_unique, getAllEntities in Hnd. cbn zeta.
  assert (Hgone : has id (delete id (entities em)) = false).
  { unfold has. now rewrite get_delete_eq. }
  repeat split; simpl.
  - exact Hgone.
  - intros id' Hne. apply get_delete_ne. congruence.
  - unfold getAllEntities. simpl. now apply keys_delete.
  - intros Hh. destruct em as [ents nxt cts sys]; simpl in *. f_equal.
    apply keys_delete_notin. rewrite <- has_In_keys. congruence.
  - f_equal. apply keys_delete_notin. rewrite <- has_In_keys. congruence.
Qed.

(** C5. [addComponent(id, variant, data)] on an id without a component
    set throws [EntityNotFound], changes nothing and calls no hook. On a
    live id it stores [data] under [variant] (whatever was there is
    replaced), leaves every other component and entity alone, and the
    hooks it calls are exactly one [onComponentAdded] per registered
    system that has the hook, in registration order; no
    [onComponentRemoved] is among them. *)
Theorem addComponent_spec em id v (d : Data) :
  let o := addComponent id v d em in
  (has id (entities em) = false ->
     returned o = inl (EntityNotFound id) /\ store o = em /\ notified o = [])
  /\ (has id (entities em) = true ->
        returned o = inr tt
        /\ getComponent id v (store o) = Some d
        /\ hasComponent id v (store o) = true
        /\ (forall v', v' <> v ->
              getComponent id v' (store o) = getComponent id v' em)
        /\ (forall id', id' <> id ->
              get id' (entities (store o)) = get id' (entities em))
        /\ getAllEntities (store o) = getAllEntities em
        /\ notified o
           = List.map (fun s => onComponentAdded (sys_name s) id v d)
               (List.filter has_onComponentAdded (systems em))
        /\ Forall (fun c => c = onComponentAdded
                                 match c with
                                 | onComponentAdded s _ _ _ => s
                                 | onEntityDestroyed s _ => s
                                 | onComponentRemoved s _ _ => s
                                 end id v d) (notified o)).
Proof.
  cbn zeta. unfold addComponent, has, getComponent, hasComponent, getAllEntities.
  destruct (get id (entities em)) as [c|] eqn:Hg; simpl.
  - split; [discriminate|]. intros _.
    rewrite get_set_eq. unfold components_has.
    rewrite lookup_insert_eq. repeat split.
    + intros v' Hne. now rewrite lookup_insert_ne.
    + intros id' Hne. apply get_set_ne. congruence.
    + apply keys_set_has. unfold has. now rewrite Hg.
    + apply forEach_hook_Forall. reflexivity.
  - split; [auto | discriminate].
Qed.

(** C1, as the code has it. [removeComponent(id, variant)] never throws.
    On an id without a component set it changes nothing and calls no
    hook. On a live id it deletes the component if there is one, leaves
    everything else alone, and calls the [onComponentRemoved] hook of
    each registered system that has one with [(id, variant)], in
    registration order; this happens whether or not a component of that
    variant was there, and when none was the manager itself is
    unchanged. *)
Theorem removeComponent_spec em id v :
  let o := removeComponent id v em in
  returned o = inr tt
  /\ (has id (entities em) = false -> store o = em /\ notified o = [])
  /\ (has id (entities em) = true ->
        getComponent id v (store o) = None
        /\ (forall v', v' <> v ->
              getComponent id v' (store o) = getComponent id v' em)
        /\ (forall id', id' <> id ->
              get id' (entities (store o)) = get id' (entities em))
        /\ getAllEntities (store o) = getAllEntities em
        /\ (hasComponent id v em = false -> store o = em)
        /\ notified o
           = List.map (fun s => onComponentRemoved (sys_name s) id v)
               (List.filter has_onComponentRemoved (systems em))).
Proof.
  cbn zeta.
  unfold removeComponent, has, getComponent, hasComponent, getAllEntities.
  destruct (get id (entities em)) as [c|] eqn:Hg; simpl.
  - split; [reflexivity|]. split; [discriminate|]. intros _.
    rewrite get_set_eq. rewrite lookup_delete_eq. repeat split.
    + intros v' Hne. now rewrite lookup_delete_ne.
    + intros id' Hne. apply get_set_ne. congruence.
    + apply keys_set_has. unfold has. now rewrite Hg.
    + unfold components_has. destruct (c !! v) eqn:Hc; [discriminate|].
      intros _. rewrite delete_id by exact Hc.
      rewrite set_get_same by exact Hg. now destruct em.
  - split; [reflexivity|]. split; [auto | discriminate].
Qed.

(** C10, as the code has it. A call [createEntity(0)] takes the
    allocator's branch of [id || this.nextEntityId++]: it behaves as a
    call without argument and returns the current [nextEntityId], which
    is at least 1 and so differs from 0; the allocator advances by one
    (the increment is exact while it is below [2^53]), and no entity
    with id 0 is created or touched. The id returned owns an empty
    component set afterwards and every other entity is as it was. It
    is an id that was not live whenever no live id is at or above the
    allocator, as is the case while ids are only handed out by the
    allocator; a live id at the allocator's value is returned all the
    same, keeps its place and loses its components. *)
Theorem createEntity_falsy_id em :
  reachable em ->
  let o := createEntity (Some 0) em in
  o = createEntity None em
  /\ returned o = inr (nextEntityId em)
  /\ 1 <= nextEntityId em
  /\ returned o <> inr 0
  /\ (nextEntityId em < 2 ^ 53 -> nextEntityId (store o) = nextEntityId em + 1)
  /\ get (nextEntityId em) (entities (store o)) = Some ∅
  /\ get 0 (entities (store o)) = get 0 (entities em)
  /\ (forall id', id' <> nextEntityId em ->
        get id' (entities (store o)) = get id' (entities em))
  /\ (Forall (fun k => k < nextEntityId em) (getAllEntities em) ->
        has (nextEntityId em) (entities em) = false
        /\ getAllEntities (store o) = getAllEntities em ++ [nextEntityId em])
  /\ (has (nextEntityId em) (entities em) = true ->
        getAllEntities (store o) = getAllEntities em
        /\ forall v, hasComponent (nextEntityId em) v (store o) = false).
Proof.
  intros Hr. pose proof (reachable_allocator_positive em Hr) as Hpos.
  unfold allocator_positive in Hpos. cbn zeta. unfold createEntity. simpl.
  split; [reflexivity|]. split; [reflexivity|]. split; [exact Hpos|].
  split; [intros [= H]; lia|]. split; [reflexivity|].
  split; [apply get_set_eq|]. split; [apply get_set_ne; lia|].
  split; [intros id' Hne; apply get_set_ne; congruence|]. split.
  - intros Hall.
    assert (Hfree : has (nextEntityId em) (entities em) = false).
    { destruct (has (nextEntityId em) (entities em)) eqn:Hh; [|reflexivity].
      apply has_In_keys in Hh. rewrite Forall_forall in Hall.
      apply list_elem_of_In in Hh. specialize (Hall _ Hh). cbv beta in Hall. lia. }
    split; [exact Hfree|]. unfold getAllEntities. simpl.
    now apply keys_set_fresh.
  - intros Hlive. split.
    + unfold getAllEntities. simpl. now apply keys_set_has.
    + intros v. unfold hasComponent. simpl. now rewrite get_set_eq.
Qed.


(** *** Writes of the systems *)

Lemma writeComponent_absent em id v (d : Data) :
  hasComponent id v em = false -> writeComponent id v d em = em.
Proof.
  unfold hasComponent, writeComponent.
  destruct (get id (entities em)) as [c|]; [|reflexivity]. now intros ->.
Qed.

Lemma getComponent_writeComponent_same em id v (d : Data) :
  hasComponent id v em = true ->
  getComponent id v (writeComponent id v d em) = Some d.
Proof.
  unfold hasComponent, writeComponent, getComponent.
  destruct (get id (entities em)) as [c|]; [|discriminate]. intros ->. simpl.
  rewrite get_set_eq. apply lookup_insert_eq.
Qed.

Lemma getComponent_writeComponent_other em id v (d : Data) id' v' :
  id' <> id \/ v' <> v ->
  getComponent id' v' (writeComponent id v d em) = getComponent id' v' em.
Proof.
  intros Hne. unfold writeComponent, getComponent.
  destruct (get id (entities em)) as [c|] eqn:Hg; [|reflexivity].
  destruct (components_has c v); [|reflexivity]. simpl.
  destruct (Z.eq_dec id' id) as [->|Hid].
  - rewrite get_set_eq, Hg. destruct Hne as [|Hv]; [contradiction|].
    now rewrite lookup_insert_ne.
  - now rewrite get_set_ne by congruence.
Qed.

Lemma hasComponent_getComponent em id v :
  hasComponent id v em = true <-> exists d : Data, getComponent id v em = Some d.
Proof.
  unfold hasComponent, getComponent, components_has.
  destruct (get id (entities em)) as [c|].
  - destruct (c !! v); split; eauto; try discriminate. now intros [d [=]].
  - split; [discriminate | now intros [d [=]]].
Qed.

(** *** Queries *)

Lemma hasComponent_live em id v : hasComponent id v em = true -> live id em.
Proof.
  unfold hasComponent, live, has. now destruct (get id (entities em)).
Qed.

Lemma live_addComponent em id v (d : Data) id' :
  live id' (store (addComponent id v d em)) <-> live id' em.
Proof.
  unfold live, addComponent.
  destruct (get id (entities em)) as [c|] eqn:Hg; simpl; [|tauto].
  rewrite has_set. destruct (Z.eqb_spec id' id) as [->|]; simpl; [|tauto].
  unfold has. rewrite Hg. tauto.
Qed.

Lemma live_removeComponent em id v id' :
  live id' (store (removeComponent id v em)) <-> live id' em.
Proof.
  unfold live, removeComponent.
  destruct (get id (entities em)) as [c|] eqn:Hg; simpl; [|tauto].
  rewrite has_set. destruct (Z.eqb_spec id' id) as [->|]; simpl; [|tauto].
  unfold has. rewrite Hg. tauto.
Qed.

Lemma hasComponent_addComponent em id v (d : Data) id' v' :
  live id em ->
  hasComponent id' v' (store (addComponent id v d em)) = true
  <-> (id' = id /\ v' = v) \/ hasComponent id' v' em = true.
Proof.
  unfold live, has, addComponent, hasComponent.
  destruct (get id (entities em)) as [c|] eqn:Hg; [|discriminate]. intros _. simpl.
  destruct (Z.eq_dec id' id) as [->|Hne].
  - rewrite get_set_eq, Hg. unfold components_has.
    destruct (decide (v' = v)) as [->|Hv].
    + rewrite lookup_insert_eq. tauto.
    + rewrite lookup_insert_ne by congruence. tauto.
  - rewrite get_set_ne by congruence. tauto.
Qed.

Lemma hasComponent_removeComponent em id v id' v' :
  hasComponent id' v' (store (removeComponent id v em)) = true
  <-> ~ (id' = id /\ v' = v) /\ hasComponent id' v' em = true.
Proof.
  unfold removeComponent, hasComponent.
  destruct (get id (entities em)) as [c|] eqn:Hg; simpl.
  - destruct (Z.eq_dec id' id) as [->|Hne].
    + rewrite get_set_eq, Hg. unfold components_has.
      destruct (decide (v' = v)) as [->|Hv].
      * rewrite lookup_delete_eq. split; [discriminate | tauto].
      * rewrite lookup_delete_ne by congruence. tauto.
    + rewrite get_set_ne by congruence. tauto.
  - destruct (Z.eq_dec id' id) as [->|Hne]; [rewrite Hg|]; [|tauto].
    split; [discriminate | tauto].
Qed.

Lemma query_as_filter_of_keys em types :
  keys_unique em ->
  getEntitiesWithComponents types em
  = List.filter (fun id => forallb (fun v => hasComponent id v em) types)
      (getAllEntities em).
Proof.
  unfold keys_unique, getAllEntities, getEntitiesWithComponents. intros Hnd.
  assert (Hall : forall k c, In (k, c) (entities em) ->
                             get k (entities em) = Some c)
    by (intros k c; now apply In_get).
  revert Hall. generalize (entities em) at 1 3 4. intros l.
  induction l as [|[k c] l IH]; intros Hall; simpl; [reflexivity|].
  assert (Hsame : forallb (fun v => hasComponent k v em) types
                  = forallb (components_has c) types).
  { unfold hasComponent. rewrite (Hall k c) by (left; reflexivity).
    reflexivity. }
  rewrite Hsame. unfold keys in IH.
  destruct (forallb (components_has c) types); simpl;
    rewrite IH by (intros; apply Hall; now right); reflexivity.
Qed.

Lemma In_query em types id :
  keys_unique em ->
  In id (getEntitiesWithComponents types em)
  <-> live id em /\ (forall v, In v types -> hasComponent id v em = true).
Proof.
  intros Hnd. rewrite query_as_filter_of_keys by exact Hnd.
  rewrite filter_In, forallb_forall. unfold live, getAllEntities.
  now rewrite has_In_keys.
Qed.

(** C8. A query returns the keys of the entity map, in the map's
    iteration order, that pass the test "has every listed variant": an id
    is in the result exactly when it is live and [hasComponent] holds
    for each listed variant, and no id is listed twice. A newly created
    id goes last in the iteration order. The result is computed from the
    manager at hand: after [addComponent] the entity is listed as soon as
    it has every listed variant, after [removeComponent] of a listed
    variant or [destroyEntity] it is no longer listed, and the
    membership of the other entities does not change. *)
Theorem getEntitiesWithComponents_spec em (types : list Variant) :
  reachable em ->
  getEntitiesWithComponents types em
    = List.filter (fun id => forallb (fun v => hasComponent id v em) types)
        (getAllEntities em)
  /\ (forall id, In id (getEntitiesWithComponents types em)
        <-> live id em /\ forall v, In v types -> hasComponent id v em = true)
  /\ NoDup (getEntitiesWithComponents types em)
  /\ (forall id, id <> 0 -> ~ live id em ->
        getAllEntities (store (createEntity (Some id) em))
        = getAllEntities em ++ [id])
  /\ (forall id v (d : Data), live id em ->
        (In id (getEntitiesWithComponents types (store (addComponent id v d em)))
         <-> forall v', In v' types -> v' = v \/ hasComponent id v' em = true)
        /\ forall id', id' <> id ->
             (In id' (getEntitiesWithComponents types (store (addComponent id v d em)))
              <-> In id' (getEntitiesWithComponents types em)))
  /\ (forall id v,
        (In id (getEntitiesWithComponents types (store (removeComponent id v em)))
         <-> In id (getEntitiesWithComponents types em) /\ ~ In v types)
        /\ forall id', id' <> id ->
             (In id' (getEntitiesWithComponents types (store (removeComponent id v em)))
              <-> In id' (getEntitiesWithComponents types em)))
  /\ (forall id id',
        In id' (getEntitiesWithComponents types (store (destroyEntity id em)))
        <-> id' <> id /\ In id' (getEntitiesWithComponents types em)).
Proof.
  intros Hr. pose proof (reachable_keys_unique em Hr) as Hnd.
  split; [now apply query_as_filter_of_keys|].
  split; [intros id; now apply In_query|].
  split.
  { rewrite query_as_filter_of_keys by exact Hnd.
    apply NoDup_ListNoDup, List.NoDup_filter, NoDup_ListNoDup, Hnd. }
  split.
  { intros id Hne Hnl. unfold live in Hnl.
    unfold getAllEntities, createEntity. simpl.
    destruct (Z.eqb_spec id 0) as [->|_]; [contradiction|].
    apply keys_set_fresh. now destruct (has id (entities em)). }
  split.
  { intros id v d Hlive.
    assert (Hnd' : keys_unique (store (addComponent id v d em)))
      by (apply reachable_keys_unique; now constructor).
    split.
    - rewrite In_query by exact Hnd'. rewrite live_addComponent.
      split.
      + intros [_ H] v' Hv'. specialize (H v' Hv').
        apply hasComponent_addComponent in H; tauto.
      + intros H. split; [exact Hlive|]. intros v' Hv'.
        apply hasComponent_addComponent; [exact Hlive|].
        destruct (H v' Hv'); auto.
    - intros id' Hne. rewrite !In_query by assumption.
      rewrite live_addComponent.
      split; intros [Hl H]; (split; [exact Hl|]); intros v' Hv';
        specialize (H v' Hv').
      + apply hasComponent_addComponent in H; tauto.
      + apply hasComponent_addComponent; auto. }
  split.
  { intros id v.
    assert (Hnd' : keys_unique (store (removeComponent id v em)))
      by (apply reachable_keys_unique; now constructor).
    split.
    - rewrite !In_query by assumption. rewrite live_removeComponent.
      split.
      + intros [Hl H]. split; [split; [exact Hl|]|].
        * intros v' Hv'. specialize (H v' Hv').
          now apply hasComponent_removeComponent in H.
        * intros Hv. specialize (H v Hv).
          apply hasComponent_removeComponent in H. tauto.
      + intros [[Hl H] Hv]. split; [exact Hl|]. intros v' Hv'.
        apply hasComponent_removeComponent. split; [|auto].
        intros [_ ->]. contradiction.
    - intros id' Hne. rewrite !In_query by assumption.
      rewrite live_removeComponent.
      split; intros [Hl H]; (split; [exact Hl|]); intros v' Hv';
        specialize (H v' Hv').
      + now apply hasComponent_removeComponent in H.
      + apply hasComponent_removeComponent. tauto. }
  intros id id'.
  assert (Hnd' : keys_unique (store (destroyEntity id em)))
    by (apply reachable_keys_unique; now constructor).
  rewrite !In_query by assumption. unfold live, hasComponent. simpl.
  destruct (Z.eq_dec id' id) as [->|Hne].
  - unfold has. rewrite get_delete_eq by exact Hnd.
    split; [intros [[=] _] | tauto].
  - unfold has. rewrite get_delete_ne by congruence. tauto.
Qed.
End Manager.
End EMFacts.

(** * Component reads after a write *)
Module ComponentFacts.
Import EM EMFacts Components.

Lemma has_of_getTransform id (em : Store) t :
  getTransform id em = Some t -> hasComponent id TRANSFORM em = true.
Proof.
  unfold getTransform. intros H. apply hasComponent_getComponent.
  destruct (getComponent id TRANSFORM em) as [c|]; [eauto | discriminate].
Qed.

Lemma has_of_getMovement id (em : Store) m :
  getMovement id em = Some m -> hasComponent id MOVEMENT em = true.
Proof.
  unfold getMovement. intros H. apply hasComponent_getComponent.
  destruct (getComponent id MOVEMENT em) as [c|]; [eauto | discriminate].
Qed.

Lemma has_of_getAI id (em : Store) a :
  getAI id em = Some a -> hasComponent id AI_ em = true.
Proof.
  unfold getAI. intros H. apply hasComponent_getComponent.
  destruct (getComponent id AI_ em) as [c|]; [eauto | discriminate].
Qed.

Lemma getMovement_write_same id (em : Store) m0 m :
  getMovement id em = Some m0 ->
  getMovement id (writeComponent id MOVEMENT (CMovement m) em) = Some m.
Proof.
  intros H. unfold getMovement.
  now rewrite getComponent_writeComponent_same by (eapply has_of_getMovement, H).
Qed.

Lemma getTransform_write_same id (em : Store) t0 t :
  getTransform id em = Some t0 ->
  getTransform id (writeComponent id TRANSFORM (CTransform t) em) = Some t.
Proof.
  intros H. unfold getTransform.
  now rewrite getComponent_writeComponent_same by (eapply has_of_getTransform, H).
Qed.

Lemma getAI_write_same id (em : Store) a0 a :
  getAI id em = Some a0 ->
  getAI id (writeComponent id AI_ (CAI a) em) = Some a.
Proof.
  intros H. unfold getAI.
  now rewrite getComponent_writeComponent_same by (eapply has_of_getAI, H).
Qed.

Lemma getTransform_write_other id v c (em : Store) id' :
  id' <> id \/ v <> TRANSFORM ->
  getTransform id' (writeComponent id v c em) = getTransform id' em.
Proof.
  intros H. unfold getTransform.
  rewrite getComponent_writeComponent_other; [reflexivity|].
  destruct H; [left | right]; congruence.
Qed.

Lemma getMovement_write_other id v c (em : Store) id' :
  id' <> id \/ v <> MOVEMENT ->
  getMovement id' (writeComponent id v c em) = getMovement id' em.
Proof.
  intros H. unfold getMovement.
  rewrite getComponent_writeComponent_other; [reflexivity|].
  destruct H; [left | right]; congruence.
Qed.

Lemma getAI_write_other id v c (em : Store) id' :
  id' <> id \/ v <> AI_ ->
  getAI id' (writeComponent id v c em) = getAI id' em.
Proof.
  intros H. unfold getAI.
  rewrite getComponent_writeComponent_other; [reflexivity|].
  destruct H; [left | right]; congruence.
Qed.
End ComponentFacts.

(** * The movement system *)
Module MovementFacts.
Import EM EMFacts Components ComponentFacts MovementSystem FloatFacts Contracts.
Local Open Scope float_scope.

Lemma applyForce_movement id force (em : Store) movement :
  getMovement id em = Some movement ->
  getMovement id (applyForce id force em) = Some (pushed movement force).
Proof.
  intros H. unfold applyForce. rewrite H. now apply getMovement_write_same with movement.
Qed.

Lemma applyForce_frame id force (em : Store) id' v :
  id' <> id \/ v <> MOVEMENT ->
  getComponent id' v (applyForce id force em) = getComponent id' v em.
Proof.
  intros H. unfold applyForce. destruct (getMovement id em); [|reflexivity].
  now apply getComponent_writeComponent_other.
Qed.

Lemma applyForce_transform id force (em : Store) id' :
  getTransform id' (applyForce id force em) = getTransform id' em.
Proof.
  unfold getTransform. rewrite applyForce_frame; [reflexivity|].
  right. discriminate.
Qed.

(** C6, as the code has it. For an entity that holds a transform and a
    movement component, [moveTowards] returns [true] and leaves the
    manager as it is when the planar distance to the target is at most
    [0.1]; it returns [false] after [applyForce] has added
    [(dx / distance * speed, 0, dz / distance * speed)] to the velocity
    when the distance exceeds [0.1]; the transform, and with it the
    position and the distance, is the same before and after. The value
    returned is [true] exactly when the distance fails the test
    [distance > 0.1]: for a distance that is a number this is
    [distance <= 0.1], and it is also the case when the distance is
    NaN. *)
Theorem moveTowards_spec (em : Store) id target dt transform movement :
  getTransform id em = Some transform ->
  getMovement id em = Some movement ->
  let d := planar_distance (position transform) target in
  let r := moveTowards id target dt em in
  (JSNum.le d 0.1 = true -> fst r = Some true /\ snd r = em)
  /\ (JSNum.gt d 0.1 = true ->
        fst r = Some false
        /\ snd r = applyForce id (seek_force transform movement target) em
        /\ getMovement id (snd r)
           = Some (pushed movement (seek_force transform movement target)))
  /\ getTransform id (snd r) = Some transform
  /\ (forall id' v, id' <> id \/ v <> MOVEMENT ->
        getComponent id' v (snd r) = getComponent id' v em)
  /\ (fst r = Some true <-> JSNum.gt d 0.1 = false)
  /\ (is_nan d = false -> (fst r = Some true <-> JSNum.le d 0.1 = true))
  /\ (is_nan d = true -> fst r = Some true /\ snd r = em /\ JSNum.le d 0.1 = false).
Proof.
  intros Ht Hm. cbn zeta. unfold moveTowards. rewrite Ht, Hm.
  fold (planar_distance (position transform) target).
  fold (seek_force transform movement target).
  set (d := planar_distance (position transform) target).
  unfold JSNum.gt, JSNum.le.
  destruct (0.1 <? d) eqn:Hgt; cbn [fst snd].
  - split. { intros Hle. apply leb_not_gt in Hle. congruence. }
    split. { intros _. split; [reflexivity|]. split; [reflexivity|].
             now apply applyForce_movement. }
    split. { now rewrite applyForce_transform. }
    split. { intros id' v Hne. now apply applyForce_frame. }
    split. { split; discriminate. }
    split.
    + intros _. split; [discriminate|]. intros Hle.
      apply leb_not_gt in Hle. congruence.
    + intros Hnan. apply ltb_not_nan in Hgt as [_ Hd]. congruence.
  - split. { auto. }
    split. { discriminate. }
    split. { exact Ht. }
    split. { reflexivity. }
    split. { tauto. }
    split.
    + intros Hnan. split; [intros _ | reflexivity].
      apply not_gt_leb; [exact Hnan | reflexivity | exact Hgt].
    + intros Hnan. split; [reflexivity|]. split; [reflexivity|].
      destruct (d <=? 0.1) eqn:Hle; [|reflexivity].
      apply leb_not_nan in Hle as [Hd _]. congruence.
Qed.

(** *** [lerpAngle] *)

Lemma wrap_above_lowered fuel d d' :
  wrap_above fuel d = Some d' -> MovementSteps.lowered d d'.
Proof.
  revert d. induction fuel as [|fuel IH]; intros d; cbn [wrap_above]; [discriminate|].
  destruct (JSNum.gt d JSNum.Math_PI) eqn:Hgt.
  - intros H. apply MovementSteps.lowered_turn; auto.
  - intros [= <-]. now apply MovementSteps.lowered_done.
Qed.

Lemma lowered_wrap_above d d' :
  MovementSteps.lowered d d' -> exists fuel, wrap_above fuel d = Some d'.
Proof.
  induction 1 as [d Hd|d d' Hd _ [fuel IH]].
  - exists 1%nat. cbn [wrap_above]. now rewrite Hd.
  - exists (S fuel). cbn [wrap_above]. now rewrite Hd.
Qed.

Lemma wrap_below_raised fuel d d' :
  wrap_below fuel d = Some d' -> MovementSteps.raised d d'.
Proof.
  revert d. induction fuel as [|fuel IH]; intros d; cbn [wrap_below]; [discriminate|].
  destruct (JSNum.lt d (- JSNum.Math_PI)) eqn:Hlt.
  - intros H. apply MovementSteps.raised_turn; auto.
  - intros [= <-]. now apply MovementSteps.raised_done.
Qed.

Lemma raised_wrap_below d d' :
  MovementSteps.raised d d' -> exists fuel, wrap_below fuel d = Some d'.
Proof.
  induction 1 as [d Hd|d d' Hd _ [fuel IH]].
  - exists 1%nat. cbn [wrap_below]. now rewrite Hd.
  - exists (S fuel). cbn [wrap_below]. now rewrite Hd.
Qed.

Lemma wrap_above_more fuel fuel' d d' :
  (fuel <= fuel')%nat -> wrap_above fuel d = Some d' -> wrap_above fuel' d = Some d'.
Proof.
  revert fuel' d. induction fuel as [|fuel IH]; intros fuel' d Hle;
    cbn [wrap_above]; [discriminate|].
  destruct fuel' as [|fuel']; [lia|]. cbn [wrap_above].
  destruct (JSNum.gt d JSNum.Math_PI); [|auto]. apply IH. lia.
Qed.

Lemma wrap_below_more fuel fuel' d d' :
  (fuel <= fuel')%nat -> wrap_below fuel d = Some d' -> wrap_below fuel' d = Some d'.
Proof.
  revert fuel' d. induction fuel as [|fuel IH]; intros fuel' d Hle;
    cbn [wrap_below]; [discriminate|].
  destruct fuel' as [|fuel']; [lia|]. cbn [wrap_below].
  destruct (JSNum.lt d (- JSNum.Math_PI)); [|auto]. apply IH. lia.
Qed.

Lemma lerpAngle_more fuel fuel' current target factor yaw :
  (fuel <= fuel')%nat ->
  lerpAngle fuel current target factor = Some yaw ->
  lerpAngle fuel' current target factor = Some yaw.
Proof.
  intros Hle. unfold lerpAngle.
  destruct (wrap_above fuel (target - current)) as [d1|] eqn:H1; [|discriminate].
  rewrite (wrap_above_more fuel fuel' _ _ Hle H1).
  destruct (wrap_below fuel d1) as [d2|] eqn:H2; [|discriminate].
  now rewrite (wrap_below_more fuel fuel' _ _ Hle H2).
Qed.

(** The loops of [lerpAngle] finish with [yaw] exactly when [yaw] is
    the interpolation along the wrapped difference. *)
Lemma lerpAngle_shortest current target factor yaw :
  (exists fuel, lerpAngle fuel current target factor = Some yaw)
  <-> MovementSteps.shortest_angle_lerp current target factor yaw.
Proof.
  unfold MovementSteps.shortest_angle_lerp, lerpAngle. split.
  - intros [fuel H].
    destruct (wrap_above fuel (target - current)) as [d1|] eqn:H1; [|discriminate].
    destruct (wrap_below fuel d1) as [d2|] eqn:H2; [|discriminate].
    injection H as <-. exists d1, d2.
    eauto using wrap_above_lowered, wrap_below_raised.
  - intros (d1 & d2 & H1 & H2 & ->).
    apply lowered_wrap_above in H1 as [f1 H1].
    apply raised_wrap_below in H2 as [f2 H2].
    exists (Nat.max f1 f2).
    rewrite (wrap_above_more f1 _ _ _ (Nat.le_max_l f1 f2) H1).
    now rewrite (wrap_below_more f2 _ _ _ (Nat.le_max_r f1 f2) H2).
Qed.

(** A difference inside the band is used as it is. *)
Lemma lerpAngle_in_band fuel current target factor :
  JSNum.gt (target - current) JSNum.Math_PI = false ->
  JSNum.lt (target - current) (- JSNum.Math_PI) = false ->
  lerpAngle (S fuel) current target factor
  = Some (current + (target - current) * factor).
Proof.
  intros Hg Hl. unfold lerpAngle. cbn [wrap_above wrap_below]. now rewrite Hg, Hl.
Qed.

(** What the second loop leaves is not below [-Math.PI]; it is what the
    first loop left, hence not above [Math.PI] either, unless a turn was
    added. *)
Lemma raised_band d1 d2 :
  MovementSteps.raised d1 d2 ->
  JSNum.lt d2 (- JSNum.Math_PI) = false
  /\ (JSNum.lt d1 (- JSNum.Math_PI) = false -> d2 = d1).
Proof.
  induction 1 as [d Hd|d d' Hd _ [IH _]]; [auto|].
  split; [exact IH | congruence].
Qed.

Lemma lowered_band d d1 :
  MovementSteps.lowered d d1 -> JSNum.gt d1 JSNum.Math_PI = false.
Proof. induction 1; auto. Qed.

(** A loop whose step does not change the difference never exits. *)
Lemma wrap_above_absorbed fuel d :
  JSNum.gt d JSNum.Math_PI = true -> d - 2 * JSNum.Math_PI = d ->
  wrap_above fuel d = None.
Proof.
  intros Hg Hd. induction fuel as [|fuel IH]; cbn [wrap_above]; [reflexivity|].
  now rewrite Hg, Hd.
Qed.

Lemma wrap_below_absorbed fuel d :
  JSNum.lt d (- JSNum.Math_PI) = true -> d + 2 * JSNum.Math_PI = d ->
  wrap_below fuel d = None.
Proof.
  intros Hl Hd. induction fuel as [|fuel IH]; cbn [wrap_below]; [reflexivity|].
  now rewrite Hl, Hd.
Qed.

Lemma lerpAngle_absorbed fuel current target factor :
  absorbed (target - current) -> lerpAngle fuel current target factor = None.
Proof.
  unfold lerpAngle. intros [[Hg Hd] | (Hg & Hl & Hd)].
  - now rewrite wrap_above_absorbed.
  - destruct fuel as [|fuel]; [reflexivity|]. cbn [wrap_above]. rewrite Hg.
    now rewrite wrap_below_absorbed.
Qed.

(** *** One update of an entity *)
Section Update.
Variable Math_sin : float -> float.
Variable Math_atan2 : float -> float -> float.

Local Abbreviation steps := (MovementSteps.before_facing Math_sin).

(** The code of [updateEntityMovement] is the five steps in order. *)
Lemma integrate_steps fuel id dt now t m :
  integrate Math_sin Math_atan2 fuel id dt now t m
  = let s := steps id dt now (t, m) in
    if JSNum.gt (MovementSteps.planar_speed (snd s)) 0.1
    then option_map (fun yaw => MovementSteps.face yaw s)
           (lerpAngle fuel (y (rotation t))
              (Math_atan2 (x (velocity (snd s))) (z (velocity (snd s))))
              (dt / 1000 * 3))
    else Some s.
Proof.
  unfold integrate, MovementSteps.before_facing, MovementSteps.bob,
    MovementSteps.damp, MovementSteps.spring, MovementSteps.advance,
    MovementSteps.planar_speed, MovementSteps.face, applyHoverBehavior.
  cbn [fst snd velocity position rotation scale x y z speed hoverHeight groundY].
  destruct (JSNum.gt _ 0.1); [|reflexivity].
  destruct (lerpAngle _ _ _ _); reflexivity.
Qed.

Lemma written_reads id s (em : Store) t m :
  getTransform id em = Some t -> getMovement id em = Some m ->
  getTransform id (written id s em) = Some (fst s)
  /\ getMovement id (written id s em) = Some (snd s)
  /\ (forall id' v, id' <> id \/ (v <> TRANSFORM /\ v <> MOVEMENT) ->
        getComponent id' v (written id s em) = getComponent id' v em)
  /\ getAllEntities (written id s em) = getAllEntities em.
Proof.
  intros Ht Hm. unfold written. repeat split.
  - rewrite getTransform_write_other by (right; discriminate).
    now apply getTransform_write_same with t.
  - apply getMovement_write_same with m.
    now rewrite getMovement_write_other by (right; discriminate).
  - intros id' v Hne.
    rewrite !getComponent_writeComponent_other; [reflexivity| |]; tauto.
  - now rewrite !writeComponent_keys.
Qed.

Lemma updateEntityMovement_integrate fuel id dt now (em : Store) t m :
  getTransform id em = Some t -> getMovement id em = Some m ->
  updateEntityMovement Math_sin Math_atan2 fuel id dt now em
  = option_map (fun s => written id s em)
      (integrate Math_sin Math_atan2 fuel id dt now t m).
Proof.
  intros Ht Hm. unfold updateEntityMovement. rewrite Ht, Hm.
  now destruct (integrate _ _ _ _ _ _ _ _) as [[t' m']|].
Qed.

(** C7. The update is meant to turn [rotation.y] towards the heading
    by the shortest way, and the code misses it where a full turn is
    lost in rounding. For an entity that holds a transform and a
    movement component and whose planar speed after damping passes
    the test [> 0.1], let the difference between the heading
    [atan2(velocity.x, velocity.z)] and [rotation.y] lie outside the
    band [[-pi, pi]] and be so large that subtracting or adding
    [2 * Math.PI] gives the same number back. Then a wrapping loop of
    [lerpAngle] never exits and [updateEntityMovement] does not
    return, however many times the loop condition is tested. *)
Theorem updateEntityMovement_hangs fuel id dt now (em : Store) t m :
  getTransform id em = Some t ->
  getMovement id em = Some m ->
  let s := steps id dt now (t, m) in
  let heading := Math_atan2 (x (velocity (snd s))) (z (velocity (snd s))) in
  JSNum.gt (MovementSteps.planar_speed (snd s)) 0.1 = true ->
  absorbed (heading - y (rotation t)) ->
  updateEntityMovement Math_sin Math_atan2 fuel id dt now em = None
  /\ integrate Math_sin Math_atan2 fuel id dt now t m = None
  /\ lerpAngle fuel (y (rotation t)) heading (dt / 1000 * 3) = None.
Proof.
  intros Ht Hm s heading Hfast Habs.
  pose proof (lerpAngle_absorbed fuel (y (rotation t)) heading (dt / 1000 * 3) Habs)
    as Hl.
  assert (Hi : integrate Math_sin Math_atan2 fuel id dt now t m = None).
  { rewrite integrate_steps. cbv zeta. fold s. rewrite Hfast. fold heading.
    now rewrite Hl. }
  split; [|split; [exact Hi | exact Hl]].
  rewrite (updateEntityMovement_integrate fuel id dt now em t m Ht Hm).
  now rewrite Hi.
Qed.

(** The update where it returns. For an entity that holds a
    transform and a movement component, let [s] be the two components
    after the
    first four steps: positions advanced along [x] and [z], the spring
    value stored in [velocity.y], [velocity.x] and [velocity.z]
    damped, [position.y] overwritten by the bobbing height. When the
    planar speed fails the test [> 0.1] the update writes [s] and
    returns, whatever the fuel. When it passes, the update returns
    exactly when the wrapping loops of [lerpAngle] finish, and then it
    writes [s] with [rotation.y] replaced by the interpolated yaw; the
    loops finish at once for a difference inside the band. The update
    writes to the transform and the movement object of the entity
    only, and within them only to the fields named above. *)
Theorem updateEntityMovement_spec fuel id dt now (em : Store) t m :
  getTransform id em = Some t ->
  getMovement id em = Some m ->
  let s := steps id dt now (t, m) in
  let heading := Math_atan2 (x (velocity (snd s))) (z (velocity (snd s))) in
  let run := updateEntityMovement Math_sin Math_atan2 in
  (JSNum.gt (MovementSteps.planar_speed (snd s)) 0.1 = false ->
     run fuel id dt now em = Some (written id s em))
  /\ (JSNum.gt (MovementSteps.planar_speed (snd s)) 0.1 = true ->
        (forall em',
           (exists fuel', run fuel' id dt now em = Some em')
           <-> exists yaw,
                 MovementSteps.shortest_angle_lerp (y (rotation t)) heading
                   (dt / 1000 * 3) yaw
                 /\ em' = written id (MovementSteps.face yaw s) em)
        /\ (JSNum.gt (heading - y (rotation t)) JSNum.Math_PI = false ->
            JSNum.lt (heading - y (rotation t)) (- JSNum.Math_PI) = false ->
            run (S fuel) id dt now em
            = Some (written id
                      (MovementSteps.face
                         (y (rotation t)
                          + (heading - y (rotation t)) * (dt / 1000 * 3)) s)
                      em)))
  /\ (forall em', run fuel id dt now em = Some em' ->
        (exists s', em' = written id s' em
                    /\ getTransform id em' = Some (fst s')
                    /\ getMovement id em' = Some (snd s')
                    /\ position (fst s') = position (fst s)
                    /\ x (rotation (fst s')) = x (rotation t)
                    /\ z (rotation (fst s')) = z (rotation t)
                    /\ scale (fst s') = scale t
                    /\ snd s' = snd s
                    /\ speed (snd s') = speed m
                    /\ hoverHeight (snd s') = hoverHeight m
                    /\ groundY (snd s') = groundY m)
        /\ (forall id' v, id' <> id \/ (v <> TRANSFORM /\ v <> MOVEMENT) ->
              getComponent id' v em' = getComponent id' v em)
        /\ getAllEntities em' = getAllEntities em
        /\ forall fuel', (fuel <= fuel')%nat -> run fuel' id dt now em = Some em').
Proof.
  intros Ht Hm. cbn zeta.
  pose proof (fun f => updateEntityMovement_integrate f id dt now em t m Ht Hm) as Hrun.
  pose proof (fun f => integrate_steps f id dt now t m) as Hsteps. cbn zeta in Hsteps.
  set (s := steps id dt now (t, m)) in *.
  set (heading := Math_atan2 (x (velocity (snd s))) (z (velocity (snd s)))) in *.
  split; [|split].
  - intros Hslow. rewrite Hrun, Hsteps, Hslow. reflexivity.
  - intros Hfast. split.
    + intros em'. split.
      * intros [fuel' H]. rewrite Hrun, Hsteps, Hfast in H.
        destruct (lerpAngle fuel' _ _ _) as [yaw|] eqn:Hl; [|discriminate].
        injection H as <-. exists yaw. split; [|reflexivity].
        apply lerpAngle_shortest. eauto.
      * intros (yaw & Hl & ->). apply lerpAngle_shortest in Hl as [fuel' Hl].
        exists fuel'. rewrite Hrun, Hsteps, Hfast, Hl. reflexivity.
    + intros Hg Hl. rewrite Hrun, Hsteps, Hfast.
      now rewrite lerpAngle_in_band.
  - intros em' H. rewrite Hrun, Hsteps in H.
    assert (Hs' : exists s', em' = written id s' em
              /\ position (fst s') = position (fst s)
              /\ x (rotation (fst s')) = x (rotation t)
              /\ z (rotation (fst s')) = z (rotation t)
              /\ scale (fst s') = scale t /\ snd s' = snd s).
    { destruct (JSNum.gt _ 0.1).
      - destruct (lerpAngle fuel _ _ _) as [yaw|]; [|discriminate].
        injection H as <-. exists (MovementSteps.face yaw s).
        subst s. unfold MovementSteps.before_facing. now cbn.
      - injection H as <-. exists s. subst s.
        unfold MovementSteps.before_facing. now cbn. }
    destruct Hs' as (s' & -> & Hp & Hx & Hz & Hsc & Hsnd).
    destruct (written_reads id s' em t m Ht Hm) as (Rt & Rm & Rf & Rk).
    split; [|split; [exact Rf|split; [exact Rk|]]].
    + exists s'.
      assert (Hm' : speed (snd s) = speed m /\ hoverHeight (snd s) = hoverHeight m
                    /\ groundY (snd s) = groundY m).
      { subst s. unfold MovementSteps.before_facing. now cbn. }
      rewrite Hsnd. repeat split; try assumption; try apply Hm'.
      now rewrite <- Hsnd.
    + intros fuel' Hle. rewrite Hrun, Hsteps in *.
      destruct (JSNum.gt _ 0.1); [|exact H].
      destruct (lerpAngle fuel _ _ _) as [yaw|] eqn:Hl; [|discriminate].
      now rewrite (lerpAngle_more fuel fuel' _ _ _ yaw Hle Hl).
Qed.
End Update.
End MovementFacts.

(** * Sorting by a numeric key *)
Module SortFacts.
Import FloatFacts Contracts.
Section ByKey.
Local Open Scope float_scope.
Context {A : Type}.
Variable key : A -> float.

Local Abbreviation by_key := (Contracts.by_key key).
Local Abbreviation ordered := (Contracts.ordered key).
Local Abbreviation numeric := (Contracts.numeric key).
Local Abbreviation tie := (Contracts.tie key).

Lemma insert_Permutation a l : Permutation (JSArray.insert by_key a l) (a :: l).
Proof.
  induction l as [|b l IH]; cbn [JSArray.insert]; [reflexivity|].
  destruct (JSNum.gt (by_key a b) 0); [|reflexivity].
  rewrite IH. apply perm_swap.
Qed.

Lemma sort_Permutation l : Permutation (JSArray.sort by_key l) l.
Proof.
  induction l as [|a l IH]; cbn [JSArray.sort fold_right]; [reflexivity|].
  fold (JSArray.sort by_key l). rewrite insert_Permutation. now rewrite IH.
Qed.

(** On numbers the comparator is positive exactly when the first key
    is the greater one. *)
Lemma by_key_positive a b :
  numeric a -> numeric b -> JSNum.gt (by_key a b) 0 = (key b <? key a).
Proof. intros Ha Hb. unfold JSNum.gt, Contracts.by_key. now apply sub_pos_gt. Qed.

Lemma insert_sorted a l :
  numeric a -> Forall numeric l ->
  StronglySorted ordered l -> StronglySorted ordered (JSArray.insert by_key a l).
Proof.
  intros Ha Hnum Hs. induction l as [|b l IH]; cbn [JSArray.insert].
  - constructor; constructor.
  - apply Forall_cons in Hnum as [Hb Hnum].
    apply StronglySorted_inv in Hs as [Hs Hall].
    rewrite by_key_positive by assumption.
    destruct (key b <? key a) eqn:Hlt.
    + constructor; [now apply IH|].
      apply Forall_forall. intros c Hc.
      apply list_elem_of_In in Hc.
      apply (Permutation_in _ (insert_Permutation a l)) in Hc as [<-|Hc].
      * now apply ltb_leb.
      * rewrite List.Forall_forall in Hall. now apply Hall.
    + assert (Hab : ordered a b) by (now apply not_gt_leb).
      constructor; [now constructor|]. constructor; [exact Hab|].
      rewrite List.Forall_forall in Hall. apply Forall_forall. intros c Hc.
      apply list_elem_of_In in Hc. unfold Contracts.ordered, JSNum.le in *.
      apply leb_trans with (key b); auto.
Qed.

Lemma sort_numeric l : Forall numeric l -> Forall numeric (JSArray.sort by_key l).
Proof.
  intros H. apply Forall_forall. intros a Ha. apply list_elem_of_In in Ha.
  apply (Permutation_in _ (sort_Permutation l)) in Ha.
  rewrite Forall_forall in H. now apply H, list_elem_of_In.
Qed.

(** The result is in non-decreasing order of the key. *)
Lemma sort_sorted l :
  Forall numeric l -> StronglySorted ordered (JSArray.sort by_key l).
Proof.
  induction l as [|a l IH]; intros H; cbn [JSArray.sort fold_right]; [constructor|].
  fold (JSArray.sort by_key l). apply Forall_cons in H as [Ha H].
  apply insert_sorted; auto using sort_numeric.
Qed.

Lemma insert_stable d a l :
  numeric a -> Forall numeric l ->
  List.filter (tie d) (JSArray.insert by_key a l) = List.filter (tie d) (a :: l).
Proof.
  intros Ha Hnum. induction l as [|b l IH]; cbn [JSArray.insert]; [reflexivity|].
  apply Forall_cons in Hnum as [Hb Hnum]. specialize (IH Hnum).
  rewrite by_key_positive by assumption.
  destruct (key b <? key a) eqn:Hlt; [|reflexivity].
  cbn [List.filter] in *. rewrite IH. unfold Contracts.tie in *.
  destruct (key a =? d) eqn:Had, (key b =? d) eqn:Hbd; try reflexivity.
  rewrite (eqb_same_not_lt _ _ _ Had Hbd) in Hlt. discriminate.
Qed.

(** The sort is stable: the entries whose key equals [d] come in the
    order they had. *)
Lemma sort_stable d l :
  Forall numeric l ->
  List.filter (tie d) (JSArray.sort by_key l) = List.filter (tie d) l.
Proof.
  induction l as [|a l IH]; intros H; cbn [JSArray.sort fold_right]; [reflexivity|].
  fold (JSArray.sort by_key l). apply Forall_cons in H as [Ha H].
  rewrite insert_stable by auto using sort_numeric.
  cbn [List.filter]. now rewrite IH.
Qed.

(** Whatever the algorithm: a list has one arrangement only that is in
    order of the key and keeps the entries of equal key in the order they
    had. *)
Lemma stable_sorted_unique l1 : forall l2,
  Forall numeric l1 -> Permutation l1 l2 ->
  StronglySorted ordered l1 -> StronglySorted ordered l2 ->
  (forall d, List.filter (tie d) l1 = List.filter (tie d) l2) ->
  l1 = l2.
Proof.
  induction l1 as [|a t1 IH]; intros l2 Hnum Hperm Hs1 Hs2 Hties.
  - now apply Permutation_nil in Hperm.
  - destruct l2 as [|b t2];
      [now apply Permutation_sym, Permutation_nil in Hperm|].
    apply Forall_cons in Hnum as [Ha Hnum].
    apply StronglySorted_inv in Hs1 as [Hs1 Hall1].
    apply StronglySorted_inv in Hs2 as [Hs2 Hall2].
    rewrite List.Forall_forall in Hall1, Hall2.
    assert (Hab : a = b).
    { assert (Hin1 : In b (a :: t1))
        by (apply (Permutation_in _ (Permutation_sym Hperm)); now left).
      assert (Hin2 : In a (b :: t2))
        by (apply (Permutation_in _ Hperm); now left).
      destruct Hin1 as [E|Hin1]; [exact E|].
      destruct Hin2 as [E|Hin2]; [now symmetry|].
      pose proof (Hall1 b Hin1) as H1. pose proof (Hall2 a Hin2) as H2.
      unfold Contracts.ordered, JSNum.le in H1, H2.
      pose proof (leb_antisym _ _ H2 H1) as Heq.
      specialize (Hties (key a)). cbn [List.filter] in Hties. unfold Contracts.tie in Hties.
      rewrite Heq, (eqb_refl (key a) Ha) in Hties. now injection Hties. }
    subst b. f_equal. apply IH; auto.
    + now apply Permutation_cons_inv in Hperm.
    + intros d. specialize (Hties d). cbn [List.filter] in Hties.
      destruct (tie d a); [now injection Hties | exact Hties].
Qed.
End ByKey.
End SortFacts.

(** * The AI system *)
Module AIFacts.
Import EM EMFacts Components ComponentFacts MovementSystem MovementFacts
  AISystem AIInvariant FloatFacts Contracts.
Local Open Scope float_scope.

Lemma moveTowards_getAI id target dt (em : Store) id' :
  getAI id' (snd (moveTowards id target dt em)) = getAI id' em.
Proof.
  unfold moveTowards.
  destruct (getTransform id em), (getMovement id em) as [m|]; try reflexivity.
  destruct (JSNum.gt _ 0.1); [|reflexivity]. cbn [snd].
  unfold applyForce. destruct (getMovement id em); [|reflexivity].
  apply getAI_write_other. right. discriminate.
Qed.

(** *** Range queries *)

Lemma In_scan position range ids (em : Store) e :
  In e (scan position range ids em)
  <-> exists t, In (entityId e) ids /\ getTransform (entityId e) em = Some t
                /\ e = entry position (entityId e) t
                /\ JSNum.le (distance e) range = true.
Proof.
  induction ids as [|id ids IH]; cbn [scan].
  - split; [intros [] | intros (t & [] & _)].
  - destruct (getTransform id em) as [t|] eqn:Ht.
    + fold (planar_distance position (Components.position t)).
      fold (entry position id t).
      destruct (JSNum.le (planar_distance position (Components.position t)) range)
        eqn:Hle.
      * cbn [In]. rewrite IH. split.
        -- intros [<-|(t' & Hin & Ht' & He & Hr)].
           ++ exists t. cbn. auto.
           ++ exists t'. cbn [In]. auto.
        -- intros (t' & [<-|Hin] & Ht' & He & Hr).
           ++ left. rewrite He. congruence.
           ++ right. exists t'. auto.
      * rewrite IH. split.
        -- intros (t' & Hin & Ht' & He & Hr). exists t'. cbn [In]. auto.
        -- intros (t' & [<-|Hin] & Ht' & He & Hr); [|exists t'; auto].
           rewrite He in Hr. cbn [distance entry] in Hr. congruence.
    + rewrite IH. split.
      * intros (t' & Hin & Ht' & He & Hr). exists t'. cbn [In]. auto.
      * intros (t' & [<-|Hin] & Ht' & He & Hr); [congruence | exists t'; auto].
Qed.

Lemma scan_ids position range ids (em : Store) :
  List.map entityId (scan position range ids em)
  = List.filter (within position range em) ids.
Proof.
  induction ids as [|id ids IH]; cbn [scan List.filter]; [reflexivity|].
  unfold within at 1. destruct (getTransform id em) as [t|]; [|exact IH].
  fold (planar_distance position (Components.position t)).
  destruct (JSNum.le _ range); [|exact IH]. cbn [List.map entityId]. now rewrite IH.
Qed.

Lemma scan_numeric position range ids (em : Store) :
  Forall (Contracts.numeric distance) (scan position range ids em).
Proof.
  apply Forall_forall. intros e He.
  apply list_elem_of_In, In_scan in He as (t & _ & _ & _ & Hle).
  unfold Contracts.numeric. now apply leb_not_nan in Hle as [H _].
Qed.


Section Host.
Variable Math_cos : float -> float.
Variable Math_sin : float -> float.

Local Abbreviation visit := (updateEntityAI Math_cos Math_sin).
Local Abbreviation handle := (dispatch Math_cos Math_sin).

Lemma dispatch_getAI r id ai t dt (em : Store) id' :
  getAI id' (snd (handle r id ai t dt em)) = getAI id' em.
Proof.
  unfold dispatch, handleWanderBehavior, handleSeekBehavior,
    handleIdleBehavior.
  repeat match goal with
         | |- context [if ?b then _ else _] => destruct b
         | |- context [match targetPosition ?a with _ => _ end] =>
             destruct (targetPosition a)
         | |- context [moveTowards ?i ?p ?d ?e] =>
             let H := fresh in
             pose proof (moveTowards_getAI i p d e id') as H;
             destruct (moveTowards i p d e)
         end; cbn [snd fst] in *; auto.
Qed.

(** The AI components after a visit: the visited entity holds what
    the handler made of its [ai] object, the others are untouched. *)
Lemma updateEntityAI_getAI r id dt (em : Store) ai t :
  getAI id em = Some ai -> getTransform id em = Some t ->
  getAI id (visit r id dt em) = Some (fst (handle r id ai t dt em))
  /\ forall id', id' <> id -> getAI id' (visit r id dt em) = getAI id' em.
Proof.
  intros Ha Ht. unfold updateEntityAI. rewrite Ha, Ht.
  pose proof (dispatch_getAI r id ai t dt em) as Hd.
  destruct (dispatch Math_cos Math_sin r id ai t dt em) as [ai' em'].
  cbn [fst snd] in *. split.
  - apply getAI_write_same with ai. now rewrite Hd.
  - intros id' Hne. rewrite getAI_write_other by (left; exact Hne). apply Hd.
Qed.

Lemma updateEntityAI_skips r id dt (em : Store) :
  getAI id em = None \/ getTransform id em = None -> visit r id dt em = em.
Proof.
  unfold updateEntityAI. intros [-> | ->]; [reflexivity|].
  now destruct (getAI id em).
Qed.

Lemma handleWander_holds r id ai t dt (em : Store) :
  behavior ai = "wander" -> holds ai ->
  holds (fst (handleWanderBehavior Math_cos Math_sin r id ai t dt em)).
Proof.
  intros Hb [H1 H2]. unfold handleWanderBehavior, chooseNewWanderTarget.
  destruct (JSNum.gt _ (directionChangeInterval ai));
    cbn [targetPosition state behavior].
  - rewrite String.eqb_refl. destruct (moveTowards id _ dt em) as [[[|]|] em1]; cbn [truthy fst];
      split; unfold moving_has_target, target_only_pursued, pursuing;
      cbn [targetPosition state behavior]; try congruence; auto.
  - destruct (targetPosition ai) as [target|] eqn:Ht.
    + destruct (String.eqb_spec (state ai) "moving") as [Hs|Hs]; [|now split].
      destruct (moveTowards id target dt em) as [[[|]|] em1]; cbn [truthy fst];
        first [ now split
              | split; unfold moving_has_target, target_only_pursued, pursuing;
                cbn [targetPosition state behavior]; congruence ].
    + now split.
Qed.

Lemma handleIdle_holds r id ai t dt (em : Store) :
  behavior ai = "idle" -> holds ai ->
  holds (fst (handleIdleBehavior r id ai t dt em)).
Proof.
  intros Hb [H1 H2]. unfold handleIdleBehavior.
  destruct (JSNum.gt _ (directionChangeInterval ai)); cbn [fst]; [|now split].
  assert (Hnone : targetPosition ai = None).
  { destruct (targetPosition ai) eqn:Ht; [|reflexivity].
    destruct H2 as [Hs|[Hw _]]; congruence. }
  split; unfold moving_has_target, target_only_pursued, pursuing;
    cbn [targetPosition state behavior]; [exact H1 | congruence].
Qed.

Lemma handleSeek_pursued id ai t dt (em : Store) :
  target_only_pursued ai ->
  behavior ai = "seek" ->
  target_only_pursued (fst (handleSeekBehavior id ai t dt em)).
Proof.
  intros H2 Hb. unfold handleSeekBehavior.
  destruct (targetPosition ai) as [target|] eqn:Ht.
  - destruct (moveTowards id target dt em) as [[[|]|] em1]; cbn [truthy fst];
      auto; unfold target_only_pursued; cbn [targetPosition]; congruence.
  - unfold target_only_pursued; cbn [targetPosition fst]. congruence.
Qed.

Lemma handleSeek_holds id ai t dt (em : Store) :
  holds ai -> behavior ai = "seek" ->
  (forall target, targetPosition ai = Some target ->
     fst (moveTowards id target dt em) <> Some true) ->
  holds (fst (handleSeekBehavior id ai t dt em)).
Proof.
  intros [H1 H2] Hb Hna. split; [|now apply handleSeek_pursued].
  unfold handleSeekBehavior.
  destruct (targetPosition ai) as [target|] eqn:Ht.
  - specialize (Hna target eq_refl).
    destruct (moveTowards id target dt em) as [[[|]|] em1]; cbn [truthy fst] in *;
      auto; congruence.
  - unfold moving_has_target in *; cbn [targetPosition state fst] in *.
    intros Hs. specialize (H1 Hs). congruence.
Qed.

Lemma dispatch_holds r id ai t dt (em : Store) :
  holds ai ->
  (behavior ai = "seek" -> forall target, targetPosition ai = Some target ->
     fst (moveTowards id target dt em) <> Some true) ->
  holds (fst (handle r id ai t dt em)).
Proof.
  intros Hh Hna. unfold handle, dispatch.
  destruct (String.eqb_spec (behavior ai) "wander") as [Hw|_];
    [now apply handleWander_holds|].
  destruct (String.eqb_spec (behavior ai) "seek") as [Hs|_];
    [apply handleSeek_holds; auto|].
  destruct (String.eqb_spec (behavior ai) "idle") as [Hi|_];
    [now apply handleIdle_holds | exact Hh].
Qed.

Lemma dispatch_pursued r id ai t dt (em : Store) :
  holds ai -> target_only_pursued (fst (handle r id ai t dt em)).
Proof.
  intros Hh. unfold handle, dispatch.
  destruct (String.eqb_spec (behavior ai) "wander") as [Hw|_];
    [now apply handleWander_holds|].
  destruct (String.eqb_spec (behavior ai) "seek") as [Hs|_];
    [apply handleSeek_pursued; [apply Hh | exact Hs]|].
  destruct (String.eqb_spec (behavior ai) "idle") as [Hi|_];
    [now apply handleIdle_holds | apply Hh].
Qed.

Lemma setTarget_getAI id pos (em : Store) :
  (forall ai, getAI id em = Some ai ->
     getAI id (setTarget id pos em)
     = Some (mkAI "seek" (Some pos) (lastDirectionChange ai)
               (directionChangeInterval ai) (wanderRadius ai) (seekRange ai)
               "moving"))
  /\ (forall id', id' <> id -> getAI id' (setTarget id pos em) = getAI id' em)
  /\ (getAI id em = None -> setTarget id pos em = em).
Proof.
  unfold setTarget. destruct (getAI id em) as [ai|] eqn:Ha.
  - split; [|split; [|discriminate]].
    + intros ? [= <-]. now apply getAI_write_same with ai.
    + intros id' Hne. apply getAI_write_other. now left.
  - split; [discriminate | split; reflexivity].
Qed.

Lemma setBehavior_getAI now id b (em : Store) :
  (forall ai, getAI id em = Some ai ->
     getAI id (setBehavior now id b em)
     = Some (mkAI b (targetPosition ai) now (directionChangeInterval ai)
               (wanderRadius ai) (seekRange ai) "idle"))
  /\ (forall id', id' <> id -> getAI id' (setBehavior now id b em) = getAI id' em)
  /\ (getAI id em = None -> setBehavior now id b em = em).
Proof.
  unfold setBehavior. destruct (getAI id em) as [ai|] eqn:Ha.
  - split; [|split; [|discriminate]].
    + intros ? [= <-]. now apply getAI_write_same with ai.
    + intros id' Hne. apply getAI_write_other. now left.
  - split; [discriminate | split; reflexivity].
Qed.

(** C3, as the code has it. Let every AI component of the manager
    satisfy the two clauses: [state = moving] implies a target, and a
    target is set only on an entity that pursues it. Then:
    - a visit of an entity by [updateEntityAI] keeps both clauses
      everywhere, unless the visit finds a seeking entity at its
      target; whatever the visit, the second clause is kept, and a
      seeker found at its target ends as a wanderer without target;
    - [setTarget] keeps both clauses; the entity then seeks the given
      position in state [moving];
    - [setBehavior] keeps the first clause, puts the entity in state
      [idle] with the given behavior and leaves [targetPosition] as it
      was, so it keeps the second clause when no target was set. *)
Theorem ai_invariant_spec (em : Store) :
  everywhere holds em ->
  (forall r id dt,
     (~ seek_arrives id dt em -> everywhere holds (visit r id dt em))
     /\ everywhere target_only_pursued (visit r id dt em)
     /\ (forall ai t target,
           getAI id em = Some ai -> getTransform id em = Some t ->
           behavior ai = "seek" -> targetPosition ai = Some target ->
           fst (moveTowards id target dt em) = Some true ->
           exists ai', getAI id (visit r id dt em) = Some ai'
                       /\ behavior ai' = "wander"
                       /\ targetPosition ai' = None))
  /\ (forall id pos,
        everywhere holds (setTarget id pos em)
        /\ forall ai, getAI id em = Some ai ->
             exists ai', getAI id (setTarget id pos em) = Some ai'
                         /\ behavior ai' = "seek" /\ state ai' = "moving"
                         /\ targetPosition ai' = Some pos /\ pursuing ai')
  /\ (forall now id b,
        everywhere moving_has_target (setBehavior now id b em)
        /\ (forall ai, getAI id em = Some ai ->
              exists ai', getAI id (setBehavior now id b em) = Some ai'
                          /\ behavior ai' = b /\ state ai' = "idle"
                          /\ targetPosition ai' = targetPosition ai)
        /\ ((forall ai, getAI id em = Some ai -> targetPosition ai = None) ->
            everywhere holds (setBehavior now id b em))).
Proof.
  intros Hinv. split; [|split].
  - intros r id dt.
    assert (Hcases : forall id' ai', getAI id' (visit r id dt em) = Some ai' ->
              getAI id' em = Some ai'
              \/ exists ai t, id' = id /\ getAI id em = Some ai
                              /\ getTransform id em = Some t
                              /\ ai' = fst (handle r id ai t dt em)).
    { intros id' ai' Hget.
      destruct (getAI id em) as [ai|] eqn:Ha;
        [|rewrite updateEntityAI_skips in Hget by auto; now left].
      destruct (getTransform id em) as [t|] eqn:Ht;
        [|rewrite updateEntityAI_skips in Hget by auto; now left].
      destruct (updateEntityAI_getAI r id dt em ai t Ha Ht) as [Hsame Hother].
      destruct (Z.eq_dec id' id) as [->|Hne].
      - right. exists ai, t. rewrite Hsame in Hget. injection Hget as <-. auto.
      - left. now rewrite <- Hother. }
    split; [|split].
    + intros Hna id' ai' Hget.
      destruct (Hcases id' ai' Hget) as [H|(ai & t & -> & Ha & Ht & ->)];
        [now apply (Hinv id')|].
      apply dispatch_holds; [now apply (Hinv id)|].
      intros Hs target Htg Harr. apply Hna. exists ai, target. auto.
    + intros id' ai' Hget.
      destruct (Hcases id' ai' Hget) as [H|(ai & t & -> & Ha & Ht & ->)];
        [now apply (Hinv id')|].
      apply dispatch_pursued. now apply (Hinv id).
    + intros ai t target Ha Ht Hs Htg Harr.
      destruct (updateEntityAI_getAI r id dt em ai t Ha Ht) as [Hsame _].
      eexists. split; [exact Hsame|].
      unfold dispatch, handleSeekBehavior. rewrite Hs, Htg. cbn [String.eqb].
      change (String.eqb "seek" "wander") with false.
      change (String.eqb "seek" "seek") with true. cbn iota.
      destruct (moveTowards id target dt em) as [res em1]. cbn [fst] in Harr.
      subst res. cbn [truthy fst behavior targetPosition]. auto.
  - intros id pos. destruct (setTarget_getAI id pos em) as (Hsame & Hother & Hnone).
    split.
    + intros id' ai' Hget. destruct (Z.eq_dec id' id) as [->|Hne].
      * destruct (getAI id em) as [ai|] eqn:Ha.
        -- rewrite (Hsame ai eq_refl) in Hget. injection Hget as <-.
           split; unfold moving_has_target, target_only_pursued, pursuing;
             cbn [targetPosition state behavior]; [congruence | auto].
        -- rewrite Hnone in Hget by reflexivity. now apply (Hinv id).
      * rewrite Hother in Hget by exact Hne. now apply (Hinv id').
    + intros ai Ha. eexists. split; [exact (Hsame ai Ha)|].
      unfold pursuing. cbn [targetPosition state behavior]. auto.
  - intros now id b.
    destruct (setBehavior_getAI now id b em) as (Hsame & Hother & Hnone).
    split; [|split].
    + intros id' ai' Hget. destruct (Z.eq_dec id' id) as [->|Hne].
      * destruct (getAI id em) as [ai|] eqn:Ha.
        -- rewrite (Hsame ai eq_refl) in Hget. injection Hget as <-.
           unfold moving_has_target. cbn [targetPosition state]. discriminate.
        -- rewrite Hnone in Hget by reflexivity. now apply (Hinv id).
      * rewrite Hother in Hget by exact Hne. now apply (Hinv id').
    + intros ai Ha. eexists. split; [exact (Hsame ai Ha)|]. auto.
    + intros Hfree id' ai' Hget. destruct (Z.eq_dec id' id) as [->|Hne].
      * destruct (getAI id em) as [ai|] eqn:Ha.
        -- rewrite (Hsame ai eq_refl) in Hget. injection Hget as <-.
           split; unfold moving_has_target, target_only_pursued;
             cbn [targetPosition state]; [discriminate|].
           rewrite (Hfree ai eq_refl). congruence.
        -- rewrite Hnone in Hget by reflexivity. now apply (Hinv id).
      * rewrite Hother in Hget by exact Hne. now apply (Hinv id').
Qed.
End Host.
End AIFacts.

(** * The entity manager over a history of calls *)
Module LifecycleFacts.
Import EM JSMap JSMapFacts Contracts EMFacts EMSteps.
Section Manager.
Context {Data : Type}.
Implicit Types (em : EntityManager Data) (id entityId : Id) (v : Variant).

Lemma set_set {V} k (v1 v2 : V) (m : list (Id * V)) :
  set k v2 (set k v1 m) = set k v2 m.
Proof.
  induction m as [|[k0 v0] m IH]; simpl.
  - now rewrite Z.eqb_refl.
  - destruct (Z.eqb_spec k k0) as [->|Hne]; simpl.
    + now rewrite Z.eqb_refl.
    + destruct (Z.eqb_spec k k0); [contradiction|]. now rewrite IH.
Qed.

Lemma length_set {V} k (v : V) (m : list (Id * V)) :
  length (set k v m) = if has k m then length m else S (length m).
Proof.
  unfold has. induction m as [|[k0 v0] m IH]; simpl; [reflexivity|].
  destruct (Z.eqb_spec k k0) as [->|Hne]; simpl; [reflexivity|].
  rewrite IH. now destruct (get k m).
Qed.

Lemma length_delete {V} k (m : list (Id * V)) :
  length m = if has k m then S (length (delete k m)) else length (delete k m).
Proof.
  unfold has. induction m as [|[k0 v0] m IH]; simpl; [reflexivity|].
  destruct (Z.eqb_spec k k0) as [->|Hne]; simpl; [reflexivity|].
  rewrite IH. now destruct (get k m).
Qed.

Lemma evolves_reachable em em' : reachable em -> evolves em em' -> reachable em'.
Proof.
  intros Hr. induction 1 as [|em1 em2 em3 _ IH Hs]; [exact Hr|].
  specialize (IH Hr). destruct Hs; now constructor.
Qed.

Lemma hasComponent_writeComponent em id v (d : Data) id' v' :
  hasComponent id' v' (writeComponent id v d em) = hasComponent id' v' em.
Proof.
  unfold writeComponent, hasComponent.
  destruct (get id (entities em)) as [c|] eqn:Hg; [|reflexivity].
  destruct (components_has c v) eqn:Hc; [|reflexivity]. simpl.
  destruct (Z.eq_dec id' id) as [->|Hid].
  - rewrite get_set_eq, Hg. unfold components_has in *.
    destruct (decide (v' = v)) as [->|Hv].
    + now rewrite lookup_insert_eq.
    + now rewrite lookup_insert_ne by congruence.
  - now rewrite get_set_ne by congruence.
Qed.

Lemma step_componentTypes em em' :
  step em em' -> componentTypes em ⊆ componentTypes em'.
Proof.
  destruct 1 as [id em|id em|id v d em|id v em|s em|s em|id v d em]; simpl;
    try reflexivity.
  - unfold addComponent. destruct (get id (entities em)); simpl; set_solver.
  - unfold removeComponent. now destruct (get id (entities em)).
  - unfold writeComponent. destruct (get id (entities em)) as [c|]; [|reflexivity].
    now destruct (components_has c v).
Qed.

Lemma evolves_componentTypes em em' :
  evolves em em' -> componentTypes em ⊆ componentTypes em'.
Proof.
  induction 1 as [|em1 em2 em3 _ IH Hs]; [reflexivity|].
  etransitivity; [exact IH | now apply step_componentTypes].
Qed.

Lemma reachable_registered em :
  reachable em -> forall id v, hasComponent id v em = true -> v ∈ componentTypes em.
Proof.
  induction 1 as [|id em Hr IH|id em Hr IH|id v d em Hr IH|id v em Hr IH
                 |s em _ IH|s em _ IH|id v d em _ IH]; intros id' v'.
  - discriminate.
  - unfold hasComponent. simpl.
    match goal with |- context [set ?k _ _] => set (eid := k) end.
    destruct (Z.eq_dec id' eid) as [->|Hne].
    + rewrite get_set_eq. discriminate.
    + rewrite get_set_ne by congruence. apply IH.
  - unfold hasComponent. simpl.
    destruct (Z.eq_dec id' id) as [->|Hne].
    + rewrite get_delete_eq by now apply reachable_keys_unique. discriminate.
    + rewrite get_delete_ne by congruence. apply IH.
  - destruct (has id (entities em)) eqn:Hl.
    + rewrite hasComponent_addComponent by exact Hl.
      unfold addComponent. unfold has in Hl.
      destruct (get id (entities em)); [|discriminate]. simpl.
      intros [[_ ->]|H]; [set_solver|]. apply IH in H. set_solver.
    + unfold addComponent. unfold has in Hl.
      destruct (get id (entities em)); [discriminate|]. simpl. apply IH.
  - rewrite hasComponent_removeComponent. intros [_ H].
    unfold removeComponent. destruct (get id (entities em)); simpl; now apply IH in H.
  - apply IH.
  - apply IH.
  - rewrite hasComponent_writeComponent. intros H. apply IH in H.
    unfold writeComponent. destruct (get id (entities em)) as [c|]; [|exact H].
    now destruct (components_has c v).
Qed.

(** X1. The registry of component types records every variant that was
    ever attached: a variant some entity holds, now or at any earlier
    point of the manager's history, is in [componentTypes], also after
    the component was removed or its entity destroyed. No method takes
    a variant out of the registry. *)
Theorem componentTypes_spec em em' :
  reachable em -> evolves em em' ->
  componentTypes em ⊆ componentTypes em'
  /\ forall id v,
       hasComponent id v em = true \/ hasComponent id v em' = true ->
       v ∈ componentTypes em'.
Proof.
  intros Hr He. pose proof (evolves_componentTypes em em' He) as Hsub.
  split; [exact Hsub|]. intros id v [H|H].
  - apply Hsub. now apply (reachable_registered em Hr id).
  - apply (reachable_registered em' (evolves_reachable em em' Hr He) id), H.
Qed.

Lemma step_nextEntityId em em' : step em em' -> (nextEntityId em <= nextEntityId em')%Z.
Proof.
  destruct 1 as [id em|id em|id v d em|id v em|s em|s em|id v d em]; simpl; try lia.
  - destruct id as [i|]; [destruct (Z.eqb i 0)|]; lia.
  - unfold addComponent. destruct (get id (entities em)); simpl; lia.
  - unfold removeComponent. destruct (get id (entities em)); simpl; lia.
  - unfold writeComponent. destruct (get id (entities em)) as [c|]; [|lia].
    destruct (components_has c v); simpl; lia.
Qed.

Lemma evolves_nextEntityId em em' :
  evolves em em' -> (nextEntityId em <= nextEntityId em')%Z.
Proof.
  induction 1 as [|em1 em2 em3 _ IH Hs]; [lia|].
  apply step_nextEntityId in Hs. lia.
Qed.

(** X2. While the allocator is below [2^53], where [nextEntityId++]
    is exact, it never runs backwards and [createEntity()] never
    returns the same id twice: whatever is called between two automatic
    allocations, the second returns a strictly larger id than the
    first, and the allocator ends above both. The bound is needed: in
    binary64 [2^53 + 1] is [2^53] again. *)
Theorem createEntity_auto_increasing em em' first second :
  returned (createEntity None em) = inr first ->
  evolves (store (createEntity None em)) em' ->
  (nextEntityId em' < 2 ^ 53)%Z ->
  returned (createEntity None em') = inr second ->
  (first < second)%Z
  /\ (second < nextEntityId (store (createEntity None em')))%Z
  /\ (nextEntityId (store (createEntity None em')) <= 2 ^ 53)%Z
  /\ (JSNum.of_id (2 ^ 53) + 1 = JSNum.of_id (2 ^ 53))%float.
Proof.
  simpl. intros [= <-] He Hb [= <-]. apply evolves_nextEntityId in He.
  simpl in He. split; [lia|]. split; [lia|]. split; [lia|]. vm_compute. reflexivity.
Qed.

(** X3. [getEntityCount()] is the length of [getAllEntities()].
    [createEntity] raises it by one when the id it returns was not
    live and leaves it unchanged when it was; [destroyEntity] lowers it
    by one for a live id and leaves it unchanged otherwise; adding,
    removing or writing a component never changes it. *)
Theorem getEntityCount_spec em :
  getEntityCount em = length (getAllEntities em)
  /\ (forall (supplied : option Id) eid,
        returned (createEntity supplied em) = inr eid ->
        getEntityCount (store (createEntity supplied em))
        = if has eid (entities em) then getEntityCount em
          else S (getEntityCount em))
  /\ (forall id,
        getEntityCount em
        = if has id (entities em)
          then S (getEntityCount (store (destroyEntity id em)))
          else getEntityCount (store (destroyEntity id em)))
  /\ (forall id v d,
        getEntityCount (store (addComponent id v d em)) = getEntityCount em)
  /\ (forall id v,
        getEntityCount (store (removeComponent id v em)) = getEntityCount em)
  /\ (forall id v d,
        getEntityCount (writeComponent id v d em) = getEntityCount em).
Proof.
  unfold getEntityCount, getAllEntities, keys.
  split; [now rewrite length_map|].
  split; [intros supplied eid; simpl; intros [= <-]; apply length_set|].
  split; [intros id; simpl; apply length_delete|].
  split; [|split].
  - intros id v d. unfold addComponent.
    destruct (get id (entities em)) as [c|] eqn:Hg; simpl; [|reflexivity].
    rewrite length_set. unfold has. now rewrite Hg.
  - intros id v. unfold removeComponent.
    destruct (get id (entities em)) as [c|] eqn:Hg; simpl; [|reflexivity].
    rewrite length_set. unfold has. now rewrite Hg.
  - intros id v d. unfold writeComponent.
    destruct (get id (entities em)) as [c|] eqn:Hg; simpl; [|reflexivity].
    destruct (components_has c v); simpl; [|reflexivity].
    rewrite length_set. unfold has. now rewrite Hg.
Qed.


Lemma forEach_hook_app (hook : System -> bool) (call : string -> HookCall Data) ss ss' :
  forEach_hook hook call (ss ++ ss')
  = forEach_hook hook call ss ++ forEach_hook hook call ss'.
Proof. unfold forEach_hook. now rewrite List.filter_app, List.map_app. Qed.

(** X5. A system registered with [addSystem] is notified after every
    system registered before it: each hook call list of the manager is
    the one before the registration, followed by the call of the new
    system when it has the hook (and, for the component hooks, when the
    entity is live). Registering the same system a second time makes
    it receive each notification twice. *)
Theorem addSystem_notified_last em (s : System) id v (d : Data) :
  notified (destroyEntity id (addSystem s em))
  = notified (destroyEntity id em)
    ++ (if has_onEntityDestroyed s then [onEntityDestroyed (sys_name s) id] else [])
  /\ notified (addComponent id v d (addSystem s em))
     = notified (addComponent id v d em)
       ++ (if has id (entities em) && has_onComponentAdded s
           then [onComponentAdded (sys_name s) id v d] else [])
  /\ notified (removeComponent id v (addSystem s em))
     = notified (removeComponent id v em)
       ++ (if has id (entities em) && has_onComponentRemoved s
           then [onComponentRemoved (sys_name s) id v] else [])
  /\ entities (addSystem s em) = entities em
  /\ notified (destroyEntity id (addSystem s (addSystem s em)))
     = notified (destroyEntity id em)
       ++ (if has_onEntityDestroyed s
           then [onEntityDestroyed (sys_name s) id; onEntityDestroyed (sys_name s) id]
           else []).
Proof.
  unfold destroyEntity, addComponent, removeComponent, has. simpl.
  repeat split.
  - rewrite forEach_hook_app. unfold forEach_hook at 2. simpl.
    now destruct (has_onEntityDestroyed s).
  - destruct (get id (entities em)); simpl; [|reflexivity].
    rewrite forEach_hook_app. unfold forEach_hook at 2. simpl.
    now destruct (has_onComponentAdded s).
  - destruct (get id (entities em)); simpl; [|reflexivity].
    rewrite forEach_hook_app. unfold forEach_hook at 2. simpl.
    now destruct (has_onComponentRemoved s).
  - rewrite !forEach_hook_app, <- app_assoc. unfold forEach_hook at 2 3. simpl.
    now destruct (has_onEntityDestroyed s).
Qed.

Lemma splice_first_fresh name ss :
  Forall (fun s => sys_name s <> name) ss -> splice_first name ss = ss.
Proof.
  induction 1 as [|s ss Hs _ IH]; simpl; [reflexivity|].
  destruct (String.eqb_spec (sys_name s) name); [contradiction|]. now rewrite IH.
Qed.

Lemma splice_first_app name before s after :
  Forall (fun s' => sys_name s' <> name) before -> sys_name s = name ->
  splice_first name (before ++ s :: after) = before ++ after.
Proof.
  intros Hb Hs. induction Hb as [|s0 ss H0 _ IH]; simpl.
  - destruct (String.eqb_spec (sys_name s) name); [reflexivity | contradiction].
  - destruct (String.eqb_spec (sys_name s0) name); [contradiction|]. now rewrite IH.
Qed.

(** X6. [removeSystem] takes out the earliest registration of the
    system and nothing else: the systems before and after it keep their
    order and a later registration of the same system stays. A system
    that is not registered leaves the manager as it was, and removing
    a system right after registering it for the first time gives back
    the manager. The entities are never touched. *)
Theorem removeSystem_spec em (s : System) before :
  Forall (fun s' => sys_name s' <> sys_name s) before ->
  (forall s' after,
     sys_name s' = sys_name s -> systems em = before ++ s' :: after ->
     systems (removeSystem s em) = before ++ after)
  /\ (systems em = before ->
        removeSystem s em = em /\ removeSystem s (addSystem s em) = em)
  /\ entities (removeSystem s em) = entities em
  /\ nextEntityId (removeSystem s em) = nextEntityId em
  /\ componentTypes (removeSystem s em) = componentTypes em.
Proof.
  intros Hb. destruct em as [es next types ss]. simpl.
  split; [|split; [|tauto]].
  - intros s' after Hs' ->. now apply splice_first_app.
  - intros ->. unfold removeSystem, addSystem. simpl. split; f_equal.
    + now apply splice_first_fresh.
    + rewrite splice_first_app; [apply app_nil_r | exact Hb | reflexivity].
Qed.

(** X7. Narrowing a query is filtering its result: the entities that
    hold the variants [types ++ more] are those of the query for
    [types] that also hold every variant of [more], in the same order.
    With no variant listed the query returns every entity, and a query
    never returns more entities than there are. *)
Theorem getEntitiesWithComponents_narrow em (types more : list Variant) :
  reachable em ->
  getEntitiesWithComponents (types ++ more) em
  = List.filter (fun id => forallb (fun v => hasComponent id v em) more)
      (getEntitiesWithComponents types em)
  /\ getEntitiesWithComponents [] em = getAllEntities em
  /\ (length (getEntitiesWithComponents types em) <= getEntityCount em)%nat.
Proof.
  intros Hr. apply reachable_keys_unique in Hr.
  rewrite !query_as_filter_of_keys by exact Hr.
  rewrite ListFacts.filter_twice. repeat split.
  - apply List.filter_ext. intros id. apply List.forallb_app.
  - simpl. induction (getAllEntities em) as [|k l IH]; simpl; now f_equal.
  - unfold getEntityCount, getAllEntities, keys.
    rewrite <- (length_map fst (entities em)). apply List.filter_length_le.
Qed.

Lemma clear_fold (l : list (Id * gmap Variant Data)) next types ss calls :
  fold_left
    (fun acc entityId =>
       let o := destroyEntity entityId (fst acc) in (store o, snd acc ++ notified o))
    (keys l) (mkEntityManager l next types ss, calls)
  = (mkEntityManager [] next types ss,
     calls ++ flat_map
                (fun entityId =>
                   forEach_hook has_onEntityDestroyed
                     (fun s => onEntityDestroyed s entityId) ss)
                (keys l)).
Proof.
  revert calls. induction l as [|[k c] l IH]; intros calls; simpl.
  - now rewrite app_nil_r.
  - rewrite Z.eqb_refl. unfold destroyEntity in IH. simpl in IH.
    rewrite IH. now rewrite <- app_assoc.
Qed.

(** X8. The loop of [restartGame] that destroys every listed entity
    leaves no entity behind. Each system with an [onEntityDestroyed]
    hook is told of every entity, entity by entity in iteration order
    and, for one entity, in registration order. The allocator is not
    reset: the next automatic id is the one that was due before. *)
Theorem clearEntities_spec em :
  let cleared := Application.clearEntities em in
  getAllEntities (fst cleared) = []
  /\ getEntityCount (fst cleared) = 0%nat
  /\ (forall id v, getComponent id v (fst cleared) = None)
  /\ snd cleared
     = flat_map
         (fun entityId =>
            List.map (fun s => onEntityDestroyed (sys_name s) entityId)
              (List.filter has_onEntityDestroyed (systems em)))
         (getAllEntities em)
  /\ systems (fst cleared) = systems em
  /\ componentTypes (fst cleared) = componentTypes em
  /\ returned (createEntity None (fst cleared)) = returned (createEntity None em).
Proof.
  intros cleared. destruct em as [es next types ss].
  assert (Hc : cleared
               = (mkEntityManager [] next types ss,
                  flat_map
                    (fun entityId =>
                       forEach_hook has_onEntityDestroyed
                         (fun s => onEntityDestroyed s entityId) ss)
                    (keys es)))
    by apply (clear_fold es next types ss []).
  rewrite Hc. simpl. tauto.
Qed.
End Manager.
End LifecycleFacts.

(** * The entity loader *)
Module LoaderFacts.
Import EM JSMap JSMapFacts Contracts EMFacts Outlines.
Section Loader.
Context {Data Raw Err : Type}.
Variable spread : Raw -> option Raw -> Raw.
Variable createComponentFromData : Variant -> Raw -> Err + Data.
Variable hook : HookCall Data -> option Err.

Local Abbreviation load :=
  (EntityLoader.createEntityFromDefinition spread createComponentFromData hook).
Local Abbreviation attach :=
  (EntityLoader.addComponents spread createComponentFromData hook).
Local Abbreviation run := (EntityLoader.forEach_until hook).
Local Abbreviation added id builds ss := (flat_map (announced ss id) builds).

(** The manager once the components [builds] are attached to [id]. *)
Local Abbreviation attached id builds c em :=
  (mkEntityManager (set id (assembled builds c) (entities em)) (nextEntityId em)
     (list_to_set (List.map fst builds) ∪ componentTypes em) (systems em)).

Lemma union_shuffle (A B C : gset string) : A ∪ (B ∪ C) = B ∪ A ∪ C.
Proof. now rewrite (assoc_L (∪)), (comm_L (∪) A B). Qed.

Lemma forEach_until_quiet calls : quiet hook calls -> run calls = (calls, None).
Proof.
  induction 1 as [|c calls Hc _ IH]; cbn [EntityLoader.forEach_until]; [reflexivity|].
  now rewrite Hc, IH.
Qed.

Lemma forEach_until_throws before c after e :
  quiet hook before -> hook c = Some e ->
  run (before ++ c :: after) = (before ++ [c], Some e).
Proof.
  intros Hq Hc. induction Hq as [|c0 calls H0 _ IH];
    cbn [app EntityLoader.forEach_until].
  - now rewrite Hc.
  - now rewrite H0, IH.
Qed.

Lemma addComponent_live id v (d : Data) (em : EntityManager Data) c :
  get id (entities em) = Some c ->
  addComponent id v d em
  = mkOutcome (inr tt)
      (mkEntityManager (set id (<[v:=d]> c) (entities em))
         (nextEntityId em) ({[v]} ∪ componentTypes em) (systems em))
      (announced (systems em) id (v, d)).
Proof. intros Hg. unfold addComponent. now rewrite Hg. Qed.

Lemma addComponents_prefix id overrides done builds rest :
  Forall2 (accepted spread createComponentFromData overrides) done builds ->
  forall (em : EntityManager Data) c calls,
    get id (entities em) = Some c ->
    quiet hook (added id builds (systems em)) ->
    attach id overrides (done ++ rest) em calls
    = attach id overrides rest (attached id builds c em)
        (calls ++ added id builds (systems em)).
Proof.
  induction 1 as [|[v raw] [v' d] done builds [Hv Hb] _ IH];
    intros em c calls Hg Hq.
  - simpl. rewrite app_nil_r, (set_get_same id c) by exact Hg.
    rewrite (left_id_L ∅ (∪)). now destruct em.
  - simpl in Hv, Hb. subst v'. cbn [app EntityLoader.addComponents].
    rewrite Hb, (addComponent_live id v d em c Hg). cbn [returned store notified].
    cbn [flat_map] in Hq. apply Forall_app in Hq as [Hq1 Hq2].
    rewrite (forEach_until_quiet _ Hq1).
    rewrite (IH _ (<[v:=d]> c)) by first [exact Hq2 | simpl; apply get_set_eq].
    cbn [entities nextEntityId componentTypes systems flat_map List.map fst snd
         assembled fold_left list_to_set].
    rewrite LifecycleFacts.set_set, <- app_assoc. do 2 f_equal.
    apply union_shuffle.
Qed.

Lemma addComponents_ends id overrides rest extra made result
    (em : EntityManager Data) c calls :
  get id (entities em) = Some c ->
  ends spread createComponentFromData hook overrides (systems em) id rest extra made
    result ->
  attach id overrides rest em calls
  = EntityLoader.mkOutcome result (attached id extra c em) (calls ++ made).
Proof.
  intros Hg He.
  assert (Hsame : attached id (@nil (Variant * Data)) c em = em).
  { simpl. rewrite (set_get_same id c) by exact Hg.
    rewrite (left_id_L ∅ (∪)). now destruct em. }
  destruct He as [|v raw rest e Hf|v raw rest d before s after e Hf Hs Hq Ht];
    cbn [EntityLoader.addComponents].
  - now rewrite Hsame, app_nil_r.
  - now rewrite Hf, Hsame, app_nil_r.
  - rewrite Hf, (addComponent_live id v d em c Hg). cbn [returned store notified].
    unfold announced. cbn [fst snd]. rewrite Hs, List.map_app. cbn [List.map].
    rewrite (forEach_until_throws _ _ _ e Hq Ht).
    cbn [assembled fold_left List.map fst snd list_to_set].
    now rewrite (right_id_L ∅ (∪)).
Qed.

(** X9. [createEntityFromDefinition] attaches the components in the
    order of the definition's entries and undoes nothing when it
    stops. Let the factory accept the entries [done] and no hook throw
    at their [onComponentAdded] calls. The loop then ends in one of
    three ways: the entries are used up and the id is returned; the
    factory throws at the next entry, and that leaves the loader; or
    the factory accepts the next entry, the manager stores the
    component, and a system's hook throws when it is told, which leaves
    the loader after the component is stored and before the later
    systems and entries are reached. In each case the manager holds the
    new entity with exactly the components attached on the way (of two
    with the same tag the later one), their tags are registered, the
    allocator has moved on by one (below [2^53], where the increment
    is exact), the other entities are as before, and the calls made
    are those of the attached components in order, the throwing call
    last. *)
Theorem createEntityFromDefinition_spec (em : EntityManager Data) overrides
    done builds rest extra made result :
  Forall2 (accepted spread createComponentFromData overrides) done builds ->
  quiet hook (added (nextEntityId em) builds (systems em)) ->
  ends spread createComponentFromData hook overrides (systems em) (nextEntityId em)
    rest extra made result ->
  let o := load (Some (done ++ rest)) overrides em in
  let id := nextEntityId em in
  EntityLoader.returned o = result
  /\ entities (EntityLoader.store o)
     = set id (assembled (builds ++ extra) ∅) (entities em)
  /\ (id < 2 ^ 53 -> nextEntityId (EntityLoader.store o) = id + 1)
  /\ componentTypes (EntityLoader.store o)
     = list_to_set (List.map fst (builds ++ extra)) ∪ componentTypes em
  /\ systems (EntityLoader.store o) = systems em
  /\ EntityLoader.notified o
     = flat_map
         (fun b =>
            List.map (fun s => onComponentAdded (sys_name s) id (fst b) (snd b))
              (List.filter has_onComponentAdded (systems em)))
         builds
       ++ made
  /\ (forall v,
        getComponent id v (EntityLoader.store o) = assembled (builds ++ extra) ∅ !! v)
  /\ (forall id' v, id' <> id ->
        getComponent id' v (EntityLoader.store o) = getComponent id' v em).
Proof.
  intros Hdone Hquiet Hends o id. subst o.
  unfold EntityLoader.createEntityFromDefinition. cbn [returned createEntity].
  rewrite (addComponents_prefix _ _ _ _ _ Hdone _ ∅)
    by first [exact Hquiet | simpl; apply get_set_eq].
  rewrite (addComponents_ends _ _ _ extra made result _ (assembled builds ∅))
    by first [exact Hends | simpl; apply get_set_eq].
  cbn [EntityLoader.returned EntityLoader.store EntityLoader.notified entities
       nextEntityId componentTypes systems store app createEntity].
  fold id. rewrite !LifecycleFacts.set_set.
  assert (Hasm : assembled extra (assembled builds ∅) = assembled (builds ++ extra) ∅)
    by (unfold assembled; now rewrite fold_left_app).
  assert (Htypes : list_to_set (List.map fst extra)
                     ∪ (list_to_set (List.map fst builds) ∪ componentTypes em)
                   = list_to_set (List.map fst (builds ++ extra)) ∪ componentTypes em).
  { rewrite List.map_app, list_to_set_app_L, (assoc_L (∪)). f_equal.
    apply (comm_L (∪)). }
  rewrite Hasm, Htypes.
  repeat match goal with |- _ /\ _ => split end; try reflexivity.
  - intros v. unfold getComponent. cbn [entities]. now rewrite get_set_eq.
  - intros id' v Hne. unfold getComponent. cbn [entities].
    now rewrite get_set_ne by congruence.
Qed.

Lemma addComponents_outcome id overrides entries :
  forall (em : EntityManager Data) calls,
    live id em ->
    let o := attach id overrides entries em calls in
    live id (EntityLoader.store o)
    /\ nextEntityId (EntityLoader.store o) = nextEntityId em
    /\ getAllEntities (EntityLoader.store o) = getAllEntities em
    /\ systems (EntityLoader.store o) = systems em
    /\ (forall id', id' <> id ->
          get id' (entities (EntityLoader.store o)) = get id' (entities em))
    /\ match EntityLoader.returned o with
       | inr id' => id' = id
       | inl (EntityLoader.FromFactory _) => True
       | inl (EntityLoader.FromHook _) => True
       | inl (EntityLoader.FromManager _) => False
       end.
Proof.
  induction entries as [|[v raw] entries IH]; intros em calls Hl; simpl.
  - tauto.
  - destruct (createComponentFromData v (spread raw (overrides v))) as [e|d]; simpl;
      [tauto|].
    pose proof Hl as Hl'. unfold live, has in Hl'.
    destruct (get id (entities em)) as [c|] eqn:Hg; [|discriminate].
    rewrite (addComponent_live id v d em c Hg). cbn [returned store notified].
    assert (Hl1 : live id (mkEntityManager (set id (<[v:=d]> c) (entities em))
                             (nextEntityId em) ({[v]} ∪ componentTypes em)
                             (systems em)))
      by (unfold live; simpl; now rewrite has_set, Z.eqb_refl).
    assert (Hk1 : keys (set id (<[v:=d]> c) (entities em)) = keys (entities em))
      by (apply keys_set_has; exact Hl).
    destruct (run (announced (systems em) id (v, d))) as [made [e|]].
    + cbn [EntityLoader.store EntityLoader.returned]. unfold getAllEntities.
      cbn [entities nextEntityId systems].
      repeat split; try assumption; try reflexivity.
      intros id' Hne. apply get_set_ne. congruence.
    + specialize (IH _ (calls ++ made) Hl1). cbn zeta in IH.
      destruct IH as (H1 & H2 & H3 & H4 & H5 & H6).
      cbn [nextEntityId systems entities] in *. unfold getAllEntities in *.
      cbn [entities] in H3. rewrite Hk1 in H3.
      repeat split; try assumption.
      intros id' Hne. rewrite (H5 id' Hne). apply get_set_ne. congruence.
Qed.

(** X10. Whatever the definition holds and whether the hooks return or
    throw, [createEntityFromDefinition] either returns the id the
    allocator was at, or throws what the factory threw, or throws what
    a hook threw; it never throws the manager's "does not exist" error,
    since it only adds to the entity it has just created. In every
    case, a throw included, the allocator has moved on (by one below
    [2^53], where the increment is exact) and the entity is live: a
    definition that is rejected halfway leaves its entity in the
    world. *)
Theorem createEntityFromDefinition_outcome (em : EntityManager Data) components
    overrides :
  let o := load components overrides em in
  match EntityLoader.returned o with
  | inr id => id = nextEntityId em
  | inl (EntityLoader.FromFactory _) => True
  | inl (EntityLoader.FromHook _) => True
  | inl (EntityLoader.FromManager _) => False
  end
  /\ (nextEntityId em < 2 ^ 53 ->
        nextEntityId (EntityLoader.store o) = nextEntityId em + 1)
  /\ live (nextEntityId em) (EntityLoader.store o)
  /\ getAllEntities (EntityLoader.store o)
     = getAllEntities (store (createEntity None em))
  /\ systems (EntityLoader.store o) = systems em.
Proof.
  intros o. subst o. unfold EntityLoader.createEntityFromDefinition.
  cbn [returned createEntity].
  assert (Hl : live (nextEntityId em) (store (createEntity (Data := Data) None em))).
  { unfold live. simpl. rewrite has_set, Z.eqb_refl. reflexivity. }
  destruct components as [entries|].
  - pose proof (addComponents_outcome (nextEntityId em) overrides entries _ [] Hl)
      as H.
    cbn zeta in H. destruct H as (H1 & H2 & H3 & H4 & H5 & H6).
    cbn [store createEntity nextEntityId systems entities] in *.
    repeat match goal with |- _ /\ _ => split end; try assumption.
    intros _. exact H2.
  - cbn [EntityLoader.returned EntityLoader.store store createEntity nextEntityId
         systems entities].
    repeat match goal with |- _ /\ _ => split end; try reflexivity.
    exact Hl.
Qed.
End Loader.
End LoaderFacts.

(** * NaN, differences and clamping *)
Module NumberFacts.
Import FloatFacts Outlines.
Local Open Scope float_scope.

Lemma is_nan_true a : is_nan a = true <-> Prim2SF a = S754_nan.
Proof.
  split; intros H.
  - destruct (Prim2SF a) eqn:E; try reflexivity;
      (assert (N : is_nan a = false) by (apply is_nan_false; rewrite E; discriminate);
       congruence).
  - destruct (is_nan a) eqn:N; [reflexivity|]. apply is_nan_false in N. contradiction.
Qed.

Lemma of_spec a s : Prim2SF a = s -> a = SF2Prim s.
Proof. intros <-. symmetry. apply SF2Prim_Prim2SF. Qed.

(** There is one NaN. *)
Lemma nan_unique a : is_nan a = true -> a = nan.
Proof. intros H. apply is_nan_true in H. now apply of_spec in H. Qed.

Lemma add_nan_l a b : is_nan a = true -> is_nan (a + b) = true.
Proof.
  rewrite !is_nan_true, FloatAxioms.add_spec. intros ->.
  now destruct (Prim2SF b).
Qed.

Lemma add_nan_r a b : is_nan b = true -> is_nan (a + b) = true.
Proof.
  rewrite !is_nan_true, FloatAxioms.add_spec. intros ->.
  now destruct (Prim2SF a).
Qed.

Lemma sub_nan_l a b : is_nan a = true -> is_nan (a - b) = true.
Proof.
  rewrite !is_nan_true, FloatAxioms.sub_spec. intros ->.
  now destruct (Prim2SF b).
Qed.

Lemma sub_nan_r a b : is_nan b = true -> is_nan (a - b) = true.
Proof.
  rewrite !is_nan_true, FloatAxioms.sub_spec. intros ->.
  now destruct (Prim2SF a).
Qed.

Lemma mul_nan_l a b : is_nan a = true -> is_nan (a * b) = true.
Proof.
  rewrite !is_nan_true, FloatAxioms.mul_spec. intros ->.
  now destruct (Prim2SF b).
Qed.

Lemma sqrt_nan a : is_nan a = true -> is_nan (sqrt a) = true.
Proof. rewrite !is_nan_true, FloatAxioms.sqrt_spec. now intros ->. Qed.

Lemma le_nan_l a b : is_nan a = true -> JSNum.le a b = false.
Proof.
  intros H. unfold JSNum.le. destruct (a <=? b) eqn:E; [|reflexivity].
  apply leb_not_nan in E. destruct E. congruence.
Qed.

Lemma gt_nan_l a b : is_nan a = true -> JSNum.gt a b = false.
Proof.
  intros H. unfold JSNum.gt. destruct (b <? a) eqn:E; [|reflexivity].
  apply ltb_not_nan in E. destruct E. congruence.
Qed.

Lemma lt_nan_l a b : is_nan a = true -> JSNum.lt a b = false.
Proof.
  intros H. unfold JSNum.lt. destruct (a <? b) eqn:E; [|reflexivity].
  apply ltb_not_nan in E. destruct E. congruence.
Qed.

Lemma le_nan_r a b : is_nan b = true -> JSNum.le a b = false.
Proof.
  intros H. unfold JSNum.le. destruct (a <=? b) eqn:E; [|reflexivity].
  apply leb_not_nan in E. destruct E. congruence.
Qed.

(** [a - a] is [+0] for a finite [a] and NaN otherwise. *)
Lemma sub_self a : a - a = 0 \/ a - a = nan.
Proof.
  assert (H : Prim2SF (a - a) = S754_zero false \/ Prim2SF (a - a) = S754_nan).
  { rewrite FloatAxioms.sub_spec.
    destruct (Prim2SF a) as [s|s| |s m e].
    - left. now destruct s.
    - right. now destruct s.
    - now right.
    - left. unfold SF64sub, SFsub. now rewrite Z.sub_diag. }
  destruct H as [H|H]; apply of_spec in H; [left | right]; exact H.
Qed.

(** The test [distance > 0.1] of a point against itself. *)
Lemma planar_self_close a b :
  JSNum.gt (sqrt ((a - a) * (a - a) + (b - b) * (b - b))) 0.1 = false.
Proof.
  destruct (sub_self a) as [-> | ->], (sub_self b) as [-> | ->];
    vm_compute; reflexivity.
Qed.

(** [v || 0] is a number. *)
Lemma or_else_number v : is_nan (JSNum.or_else v 0) = false.
Proof.
  unfold JSNum.or_else, JSNum.falsy.
  destruct (is_nan v) eqn:N; [reflexivity|].
  destruct (is_zero v); [reflexivity | exact N].
Qed.

(** [Math.max(-25, Math.min(25, t))] is NaN for a NaN and within the
    bounds for a number. *)
Lemma clamp_in_bounds t :
  let c := JSNum.Math_max (-25) (JSNum.Math_min 25 t) in
  is_nan c = is_nan t /\ in_bounds c.
Proof.
  intros c. subst c. unfold in_bounds, JSNum.le.
  destruct (is_nan t) eqn:N.
  - unfold JSNum.Math_min. rewrite N.
    change (is_nan 25 || true) with true. cbn iota.
    split; [|left]; vm_compute; reflexivity.
  - assert (Hm : is_nan (JSNum.Math_min 25 t) = false
                 /\ (JSNum.Math_min 25 t <=? 25) = true).
    { unfold JSNum.Math_min. rewrite N.
      change (is_nan 25 || false) with false. cbn iota.
      destruct (25 <? t) eqn:E1; [split; vm_compute; reflexivity|].
      destruct (t <? 25) eqn:E2; [split; [exact N | now apply ltb_leb]|].
      change (get_sign 25) with false. cbn iota.
      split; [exact N|]. apply not_gt_leb; [exact N | reflexivity | exact E1]. }
    destruct Hm as [Nm Hm]. set (m := JSNum.Math_min 25 t) in *.
    unfold JSNum.Math_max. rewrite Nm.
    change (is_nan (-25) || false) with false. cbn iota.
    destruct (-25 <? m) eqn:E1; [split; [exact Nm | right; split;
                                           [now apply ltb_leb | exact Hm]]|].
    destruct (m <? -25) eqn:E2;
      [split; [|right; split]; vm_compute; reflexivity|].
    change (get_sign (-25)) with true. cbn iota.
    split; [exact Nm|]. right. split; [|exact Hm].
    apply not_gt_leb; [reflexivity | exact Nm | exact E2].
Qed.
End NumberFacts.

(** * Filtering and sorting *)
Module FilterFacts.
Import FloatFacts Contracts.
Section ByKey.
Context {A : Type}.
Variable key : A -> float.

Lemma Permutation_filter (f : A -> bool) l l' :
  Permutation l l' -> Permutation (List.filter f l) (List.filter f l').
Proof.
  induction 1 as [|a l l' _ IH|a b l|l1 l2 l3 _ IH1 _ IH2]; cbn [List.filter].
  - constructor.
  - destruct (f a); [now constructor | exact IH].
  - destruct (f a), (f b); try reflexivity. apply perm_swap.
  - now transitivity (List.filter f l2).
Qed.

Lemma StronglySorted_filter (R : A -> A -> Prop) (f : A -> bool) l :
  StronglySorted R l -> StronglySorted R (List.filter f l).
Proof.
  induction 1 as [|a l _ IH Hall]; cbn [List.filter]; [constructor|].
  destruct (f a); [|exact IH]. constructor; [exact IH|].
  rewrite List.Forall_forall in *. intros b Hb. apply List.filter_In in Hb as [Hb _].
  now apply Hall.
Qed.

Lemma filter_comm (f g : A -> bool) l :
  List.filter f (List.filter g l) = List.filter g (List.filter f l).
Proof.
  rewrite !ListFacts.filter_twice. apply List.filter_ext. intros a. apply andb_comm.
Qed.

(** Sorting what a filter keeps is filtering what the sort returns. *)
Lemma sort_filter (f : A -> bool) l :
  Forall (Contracts.numeric key) l ->
  JSArray.sort (Contracts.by_key key) (List.filter f l)
  = List.filter f (JSArray.sort (Contracts.by_key key) l).
Proof.
  intros Hnum.
  assert (Hnumf : Forall (Contracts.numeric key) (List.filter f l)).
  { rewrite List.Forall_forall in *. intros a Ha.
    apply List.filter_In in Ha as [Ha _]. now apply Hnum. }
  symmetry. apply (SortFacts.stable_sorted_unique key).
  - pose proof (SortFacts.sort_numeric key l Hnum) as Hs.
    rewrite List.Forall_forall in *. intros a Ha.
    apply List.filter_In in Ha as [Ha _]. now apply Hs.
  - transitivity (List.filter f l).
    + apply Permutation_filter, SortFacts.sort_Permutation.
    + symmetry. apply SortFacts.sort_Permutation.
  - apply StronglySorted_filter. now apply SortFacts.sort_sorted.
  - now apply SortFacts.sort_sorted.
  - intros d. rewrite filter_comm, (SortFacts.sort_stable key d l Hnum).
    rewrite (SortFacts.sort_stable key d _ Hnumf). apply filter_comm.
Qed.
End ByKey.
End FilterFacts.

(** * Writes that keep the shape of a manager *)
Module ShapeFacts.
Import EM JSMap JSMapFacts Contracts EMFacts Outlines.
Section Manager.
Context {Data : Type}.
Implicit Types (em : EntityManager Data) (id : Id) (v : Variant).

Lemma writeComponent_twice em id v (d1 d2 : Data) :
  writeComponent id v d2 (writeComponent id v d1 em) = writeComponent id v d2 em.
Proof.
  unfold writeComponent at 2.
  destruct (get id (entities em)) as [c|] eqn:Hg; [|reflexivity].
  destruct (components_has c v) eqn:Hc; [|reflexivity].
  unfold writeComponent. cbn [entities nextEntityId componentTypes systems].
  rewrite get_set_eq, Hg, Hc. unfold components_has. rewrite lookup_insert_eq.
  now rewrite LifecycleFacts.set_set, insert_insert_eq.
Qed.

Lemma writeComponent_same em id v (d : Data) :
  getComponent id v em = Some d -> writeComponent id v d em = em.
Proof.
  unfold getComponent, writeComponent, components_has.
  destruct (get id (entities em)) as [c|] eqn:Hg; [|discriminate].
  intros Hc. rewrite Hc, insert_id by exact Hc.
  rewrite (set_get_same id c) by exact Hg. now destruct em.
Qed.

Lemma same_shape_refl em : same_shape em em.
Proof. unfold same_shape. tauto. Qed.

Lemma same_shape_trans em1 em2 em3 :
  same_shape em1 em2 -> same_shape em2 em3 -> same_shape em1 em3.
Proof.
  unfold same_shape. intros (A1 & B1 & C1 & D1 & E1) (A2 & B2 & C2 & D2 & E2).
  repeat split; try congruence; intros id v; now rewrite B2.
Qed.

Lemma same_shape_write em id v (d : Data) : same_shape em (writeComponent id v d em).
Proof.
  unfold same_shape. split; [apply writeComponent_keys|].
  split; [intros; apply LifecycleFacts.hasComponent_writeComponent|].
  unfold writeComponent. destruct (get id (entities em)) as [c|]; [|tauto].
  destruct (components_has c v); simpl; tauto.
Qed.
End Manager.
End ShapeFacts.

(** * The movement system: forces and velocities *)
Module SteeringFacts.
Import EM EMFacts Components ComponentFacts MovementSystem MovementFacts
  FloatFacts NumberFacts Contracts Outlines ShapeFacts.
Local Open Scope float_scope.

Lemma getComponent_of_getMovement id (em : Store) m :
  getMovement id em = Some m -> getComponent id MOVEMENT em = Some (CMovement m).
Proof.
  unfold getMovement. destruct (getComponent id MOVEMENT em) as [[]|]; congruence.
Qed.

Lemma touches_refl {Data} ids tags (em : EntityManager Data) : touches ids tags em em.
Proof. split; [apply same_shape_refl | reflexivity]. Qed.

Lemma touches_trans {Data} ids tags (em1 em2 em3 : EntityManager Data) :
  touches ids tags em1 em2 -> touches ids tags em2 em3 -> touches ids tags em1 em3.
Proof.
  intros [S1 F1] [S2 F2]. split; [now apply same_shape_trans with em2|].
  intros id v H. now rewrite F2, F1.
Qed.

Lemma touches_more {Data} ids ids' tags tags' (em em' : EntityManager Data) :
  incl ids ids' -> incl tags tags' -> touches ids tags em em' -> touches ids' tags' em em'.
Proof.
  intros Hi Ht [S F]. split; [exact S|]. intros id v [H|H]; apply F; [left|right];
    intros Hin; apply H; auto.
Qed.

Lemma touches_write {Data} id v (d : Data) (em : EntityManager Data) :
  touches [id] [v] em (writeComponent id v d em).
Proof.
  split; [apply same_shape_write|]. intros id' v' H.
  apply getComponent_writeComponent_other.
  destruct (Z.eq_dec id' id) as [->|]; [|now left]. right. intros ->.
  destruct H as [H|H]; apply H; now left.
Qed.

Lemma touches_applyForce id force (em : Store) :
  touches [id] [MOVEMENT] em (applyForce id force em).
Proof.
  unfold applyForce. destruct (getMovement id em); [|apply touches_refl].
  apply touches_write.
Qed.

(** X11. [setVelocity] writes to the movement object of its entity
    and to nothing else: it stores [velocity.c || 0] for each
    coordinate, so the stored velocity never holds a NaN, whatever is
    passed, and it leaves [speed], [hoverHeight] and [groundY] of that
    object alone. It overwrites what was there, so forces applied or
    velocities set before it leave no trace. The manager keeps its
    entities, their order and their component tags, no object stored
    under another tag is written, and an entity without a movement
    component is left alone. *)
Theorem setVelocity_spec id v (em : Store) :
  (forall movement,
     getMovement id em = Some movement ->
     exists movement',
       setVelocity id v em = writeComponent id MOVEMENT (CMovement movement') em
       /\ getMovement id (setVelocity id v em) = Some movement'
       /\ velocity movement'
          = mkVec3 (JSNum.or_else (x v) 0) (JSNum.or_else (y v) 0)
              (JSNum.or_else (z v) 0)
       /\ is_nan (x (velocity movement')) = false
       /\ is_nan (y (velocity movement')) = false
       /\ is_nan (z (velocity movement')) = false
       /\ same_gait movement movement')
  /\ (getMovement id em = None -> setVelocity id v em = em)
  /\ same_shape em (setVelocity id v em)
  /\ (forall id' v', v' <> MOVEMENT ->
        getComponent id' v' (setVelocity id v em) = getComponent id' v' em)
  /\ (forall force, setVelocity id v (applyForce id force em) = setVelocity id v em)
  /\ (forall w, setVelocity id v (setVelocity id w em) = setVelocity id v em).
Proof.
  assert (T : touches [id] [MOVEMENT] em (setVelocity id v em)).
  { unfold setVelocity. destruct (getMovement id em); [|apply touches_refl].
    apply touches_write. }
  split; [|split; [|split; [|split; [|split]]]].
  - intros movement Hm. unfold setVelocity. rewrite Hm.
    eexists. split; [reflexivity|].
    split; [now apply getMovement_write_same with movement|].
    cbn [velocity x y z]. unfold same_gait. cbn [speed hoverHeight groundY].
    repeat split; apply or_else_number.
  - unfold setVelocity. now intros ->.
  - exact (proj1 T).
  - intros id' v' Hne. apply (proj2 T). right. intros [<-|[]]. now apply Hne.
  - intros force. unfold applyForce.
    destruct (getMovement id em) as [m|] eqn:Hm; [|reflexivity].
    unfold setVelocity. rewrite Hm.
    rewrite (getMovement_write_same id em m _ Hm). cbn [speed hoverHeight groundY].
    apply writeComponent_twice.
  - intros w. unfold setVelocity at 2.
    destruct (getMovement id em) as [m|] eqn:Hm; [|reflexivity].
    unfold setVelocity. rewrite Hm.
    rewrite (getMovement_write_same id em m _ Hm). cbn [speed hoverHeight groundY].
    apply writeComponent_twice.
Qed.

(** X12. A target at the planar position of the entity itself is
    always reported as reached: [moveTowards] returns [true] and
    applies no force, for every position the transform may hold,
    infinite or NaN coordinates included. The direction [dx /
    distance], which would be [0 / 0] there, is never computed. *)
Theorem moveTowards_own_position id dt (em : Store) transform movement target :
  getTransform id em = Some transform ->
  getMovement id em = Some movement ->
  x target = x (position transform) ->
  z target = z (position transform) ->
  moveTowards id target dt em = (Some true, em).
Proof.
  intros Ht Hm Hx Hz. unfold moveTowards. rewrite Ht, Hm, Hx, Hz.
  now rewrite planar_self_close.
Qed.

(** X21. A NaN heading does not hang [lerpAngle]: when the current or
    the target angle is NaN, both wrapping loops are left at their
    first test and the value returned is NaN. *)
Theorem lerpAngle_nan fuel current target factor :
  is_nan current = true \/ is_nan target = true ->
  exists yaw,
    lerpAngle (S fuel) current target factor = Some yaw /\ is_nan yaw = true.
Proof.
  intros H.
  assert (N : is_nan (target - current) = true)
    by (destruct H; [now apply sub_nan_r | now apply sub_nan_l]).
  eexists. split.
  - apply lerpAngle_in_band; [now apply gt_nan_l | now apply lt_nan_l].
  - now apply add_nan_r, mul_nan_l.
Qed.

Section Update.
Variable Math_sin : float -> float.
Variable Math_atan2 : float -> float -> float.

Lemma updateEntityMovement_touches fuel id dt now (em em' : Store) :
  updateEntityMovement Math_sin Math_atan2 fuel id dt now em = Some em' ->
  touches [id] [TRANSFORM; MOVEMENT] em em'
  /\ forall id', getAI id' em' = getAI id' em.
Proof.
  unfold updateEntityMovement.
  destruct (getTransform id em) as [t|]; [|intros [= <-]; split;
                                             [apply touches_refl | reflexivity]].
  destruct (getMovement id em) as [m|]; [|intros [= <-]; split;
                                            [apply touches_refl | reflexivity]].
  destruct (integrate Math_sin Math_atan2 fuel id dt now t m) as [[t' m']|];
    [|discriminate].
  intros [= <-]. split.
  - apply touches_trans with (writeComponent id TRANSFORM (CTransform t') em).
    + apply touches_more with [id] [TRANSFORM]; [apply incl_refl | | apply touches_write].
      intros a [<-|[]]. now left.
    + apply touches_more with [id] [MOVEMENT]; [apply incl_refl | | apply touches_write].
      intros a [<-|[]]. right. now left.
  - intros id'. rewrite !getAI_write_other; [reflexivity | |]; right; discriminate.
Qed.

Lemma movement_fold_touches fuel dt now ids :
  forall em em' : Store,
    fold_left
      (fun acc entityId =>
         match acc with
         | Some em1 =>
             updateEntityMovement Math_sin Math_atan2 fuel entityId dt
               (now entityId) em1
         | None => None
         end) ids (Some em) = Some em' ->
    touches ids [TRANSFORM; MOVEMENT] em em'
    /\ forall id', getAI id' em' = getAI id' em.
Proof.
  induction ids as [|id ids IH]; intros em em'; cbn [fold_left].
  - intros [= <-]. split; [apply touches_refl | reflexivity].
  - destruct (updateEntityMovement Math_sin Math_atan2 fuel id dt (now id) em)
      as [em1|] eqn:H1.
    + intros H. apply IH in H as [T A].
      apply updateEntityMovement_touches in H1 as [T1 A1]. split.
      * apply touches_trans with em1.
        -- apply touches_more with [id] [TRANSFORM; MOVEMENT];
             [|apply incl_refl | exact T1]. intros a [<-|[]]. now left.
        -- apply touches_more with ids [TRANSFORM; MOVEMENT];
             [|apply incl_refl | exact T]. intros a Ha. now right.
      * intros id'. now rewrite A, A1.
    + intros H. exfalso. clear -H. induction ids; cbn [fold_left] in H; auto.
      discriminate.
Qed.
End Update.
End SteeringFacts.

(** * The AI system: what a visit leaves alone *)
Module BehaviorFacts.
Import EM EMFacts Components ComponentFacts MovementSystem MovementFacts
  AISystem AIFacts FloatFacts NumberFacts Contracts Outlines ShapeFacts SteeringFacts.
Local Open Scope float_scope.

Lemma getComponent_of_getAI id (em : Store) ai :
  getAI id em = Some ai -> getComponent id AI_ em = Some (CAI ai).
Proof.
  unfold getAI. destruct (getComponent id AI_ em) as [[]|]; congruence.
Qed.

Lemma applyForce_gait id force (em : Store) id' m :
  getMovement id' em = Some m ->
  exists m', getMovement id' (applyForce id force em) = Some m' /\ same_gait m m'.
Proof.
  intros Hm. destruct (Z.eq_dec id' id) as [->|Hne].
  - rewrite (applyForce_movement id force em m Hm). eexists. split; [reflexivity|].
    unfold same_gait, pushed. cbn. tauto.
  - exists m. split; [|unfold same_gait; tauto].
    unfold getMovement. rewrite applyForce_frame by (left; exact Hne). exact Hm.
Qed.

Lemma moveTowards_store id target dt (em : Store) :
  snd (moveTowards id target dt em) = em
  \/ exists force, snd (moveTowards id target dt em) = applyForce id force em.
Proof.
  unfold moveTowards.
  destruct (getTransform id em), (getMovement id em); try (now left).
  destruct (JSNum.gt _ 0.1); [right; eexists; reflexivity | now left].
Qed.

(** ** Range queries *)

Lemma scan_narrow position range range' ids (em : Store) :
  JSNum.le range range' = true ->
  scan position range ids em
  = List.filter (fun e => JSNum.le (distance e) range) (scan position range' ids em).
Proof.
  intros Hle. induction ids as [|id ids IH]; cbn [scan]; [reflexivity|].
  destruct (getTransform id em) as [t|]; [|exact IH].
  match goal with |- context [JSNum.le ?d range] => set (dist := d) end.
  destruct (JSNum.le dist range) eqn:E1.
  - assert (E2 : JSNum.le dist range' = true)
      by (unfold JSNum.le in *; now apply leb_trans with range).
    rewrite E2. cbn [List.filter distance]. rewrite E1. now f_equal.
  - destruct (JSNum.le dist range'); [|exact IH].
    cbn [List.filter distance]. now rewrite E1.
Qed.

(** X18. Narrowing the range of [getEntitiesInRange] is filtering its
    result: for [range <= range'], the entries reported within
    [range] are those of the report for [range'] whose distance passes
    [distance <= range], in the same order. So a wider range reports
    at least the same entries, and never fewer. *)
Theorem getEntitiesInRange_narrow position range range' (em : Store) :
  JSNum.le range range' = true ->
  getEntitiesInRange position range em
  = List.filter (fun e => JSNum.le (distance e) range)
      (getEntitiesInRange position range' em)
  /\ (forall e,
        In e (getEntitiesInRange position range em) ->
        In e (getEntitiesInRange position range' em))
  /\ (length (getEntitiesInRange position range em)
      <= length (getEntitiesInRange position range' em))%nat.
Proof.
  intros Hle.
  assert (H : getEntitiesInRange position range em
              = List.filter (fun e => JSNum.le (distance e) range)
                  (getEntitiesInRange position range' em)).
  { unfold getEntitiesInRange. rewrite (scan_narrow position range range' _ em Hle).
    apply (FilterFacts.sort_filter distance). apply scan_numeric. }
  split; [exact H|]. rewrite H. split.
  - intros e He. now apply List.filter_In in He as [He _].
  - apply List.filter_length_le.
Qed.

(** X22. A NaN in the query makes [getEntitiesInRange] report nothing:
    when the range or a planar coordinate of the position is NaN, no
    distance passes [distance <= range] and the result is empty,
    whatever the world holds. *)
Theorem getEntitiesInRange_nan position range (em : Store) :
  is_nan range = true \/ is_nan (x position) = true \/ is_nan (z position) = true ->
  getEntitiesInRange position range em = [].
Proof.
  intros N. unfold getEntitiesInRange.
  assert (H : scan position range (getEntitiesWithComponents [TRANSFORM] em) em = []).
  { induction (getEntitiesWithComponents [TRANSFORM] em) as [|id ids IH];
      cbn [scan]; [reflexivity|].
    destruct (getTransform id em) as [t|]; [|exact IH].
    match goal with |- context [JSNum.le ?d range] => set (dist := d) end.
    assert (E : JSNum.le dist range = false).
    { destruct N as [N|[N|N]]; [now apply le_nan_r | |]; apply le_nan_l, sqrt_nan.
      - now apply add_nan_l, mul_nan_l, sub_nan_r.
      - now apply add_nan_r, mul_nan_l, sub_nan_r. }
    now rewrite E. }
  now rewrite H.
Qed.

(** X23. [setTarget] and [setBehavior] overwrite: of two calls of the
    same method on an entity the later one alone decides the outcome,
    so the manager is the one the later call alone would have made.
    Each writes to the AI component of its entity and to nothing else,
    and leaves the manager untouched when the entity has no AI
    component. *)
Theorem setTarget_setBehavior_overwrite id (em : Store) :
  (forall p q, setTarget id q (setTarget id p em) = setTarget id q em)
  /\ (forall now now' b b',
        setBehavior now id b (setBehavior now' id b' em) = setBehavior now id b em)
  /\ (forall p, touches [id] [AI_] em (setTarget id p em))
  /\ (forall now b, touches [id] [AI_] em (setBehavior now id b em))
  /\ (getAI id em = None ->
        forall p now b, setTarget id p em = em /\ setBehavior now id b em = em).
Proof.
  split; [|split; [|split; [|split]]].
  - intros p q. unfold setTarget at 2.
    destruct (getAI id em) as [ai|] eqn:Ha; [|reflexivity].
    unfold setTarget. rewrite Ha, (getAI_write_same id em ai _ Ha).
    cbn [lastDirectionChange directionChangeInterval wanderRadius seekRange].
    apply writeComponent_twice.
  - intros now now' b b'. unfold setBehavior at 2.
    destruct (getAI id em) as [ai|] eqn:Ha; [|reflexivity].
    unfold setBehavior. rewrite Ha, (getAI_write_same id em ai _ Ha).
    cbn [targetPosition directionChangeInterval wanderRadius seekRange].
    apply writeComponent_twice.
  - intros p. unfold setTarget. destruct (getAI id em); [|apply touches_refl].
    apply touches_write.
  - intros now b. unfold setBehavior. destruct (getAI id em); [|apply touches_refl].
    apply touches_write.
  - intros Ha p now b. unfold setTarget, setBehavior. now rewrite Ha.
Qed.

Section Host.
Variable Math_cos : float -> float.
Variable Math_sin : float -> float.

Local Abbreviation visit := (updateEntityAI Math_cos Math_sin).
Local Abbreviation handle := (dispatch Math_cos Math_sin).

(** X15. The wander target [chooseNewWanderTarget] stores is clamped:
    its [x] and [z] are within [-25, 25] whenever they are numbers,
    wherever the entity stands and whatever the host draws, and its
    [y] is that of the entity. Clamping does not repair a NaN: a
    coordinate is NaN exactly when the unclamped one is. The other
    fields of the AI component are not touched. *)
Theorem chooseNewWanderTarget_spec r ai transform :
  let ai' := chooseNewWanderTarget Math_cos Math_sin r ai transform in
  let angle := randomAngle r * JSNum.Math_PI * 2 in
  let reach := randomDistance r * wanderRadius ai in
  exists p,
    targetPosition ai' = Some p
    /\ in_bounds (x p) /\ in_bounds (z p)
    /\ y p = y (position transform)
    /\ is_nan (x p) = is_nan (x (position transform) + Math_cos angle * reach)
    /\ is_nan (z p) = is_nan (z (position transform) + Math_sin angle * reach)
    /\ behavior ai' = behavior ai
    /\ state ai' = state ai
    /\ lastDirectionChange ai' = lastDirectionChange ai
    /\ directionChangeInterval ai' = directionChangeInterval ai
    /\ wanderRadius ai' = wanderRadius ai
    /\ seekRange ai' = seekRange ai.
Proof.
  intros ai' angle reach. subst ai'. unfold chooseNewWanderTarget.
  cbn [targetPosition behavior state lastDirectionChange directionChangeInterval
       wanderRadius seekRange x y z].
  fold angle reach. eexists. split; [reflexivity|]. cbn [x y z].
  pose proof (clamp_in_bounds (x (position transform) + Math_cos angle * reach))
    as [Nx Bx].
  pose proof (clamp_in_bounds (z (position transform) + Math_sin angle * reach))
    as [Nz Bz].
  repeat split; assumption.
Qed.

(** The handler of a wanderer whose timer has run out: the [ai]
    object after the call. *)
Lemma handleWander_expired r id ai transform dt (em : Store) :
  JSNum.gt (currentTime r - lastDirectionChange ai) (directionChangeInterval ai)
  = true ->
  let ai' := fst (handleWanderBehavior Math_cos Math_sin r id ai transform dt em) in
  exists p,
    targetPosition (chooseNewWanderTarget Math_cos Math_sin r ai transform) = Some p
    /\ in_bounds (x p) /\ in_bounds (z p)
    /\ behavior ai' = behavior ai
    /\ wanderRadius ai' = wanderRadius ai
    /\ seekRange ai' = seekRange ai
    /\ ((fst (moveTowards id p dt em) <> Some true
         /\ state ai' = "moving"
         /\ targetPosition ai' = Some p
         /\ lastDirectionChange ai' = currentTime r
         /\ directionChangeInterval ai' = directionChangeInterval ai)
        \/ (fst (moveTowards id p dt em) = Some true
            /\ state ai' = "idle"
            /\ targetPosition ai' = None
            /\ lastDirectionChange ai' = arrivalTime r
            /\ directionChangeInterval ai' = 1000 + randomInterval r * 3000)).
Proof.
  intros Hexp ai'. subst ai'. unfold handleWanderBehavior. rewrite Hexp.
  unfold chooseNewWanderTarget.
  cbn [targetPosition state behavior lastDirectionChange directionChangeInterval
       wanderRadius seekRange].
  change (String.eqb "moving" "moving") with true. cbn iota.
  match goal with |- context [Some ?q = Some _] => set (p := q) end.
  exists p. split; [reflexivity|].
  split; [apply (clamp_in_bounds _)|]. split; [apply (clamp_in_bounds _)|].
  destruct (moveTowards id p dt em) as [[[|]|] em1];
    cbn [truthy fst behavior state targetPosition lastDirectionChange
         directionChangeInterval wanderRadius seekRange];
    repeat match goal with |- _ /\ _ => split end; try reflexivity.
  - right. repeat split.
  - left. repeat split. discriminate.
  - left. repeat split. discriminate.
Qed.

(** X14. A wanderer whose timer has run out picks a new target in
    the same visit and sets out for it. After the visit it is still
    a wanderer, and either it is in state [moving], stamped with the
    time read at the start of the visit, with a target whose planar
    coordinates are within the bounds of the world (or NaN) and at
    which [moveTowards] did not find it; or [moveTowards] found it at
    the new target already, and it is in state [idle] with no target,
    stamped with the time read on arrival and due to wait
    [1000 + random * 3000] ms. *)
Theorem updateEntityAI_wander_expired r id dt (em : Store) ai transform :
  getAI id em = Some ai ->
  getTransform id em = Some transform ->
  behavior ai = "wander" ->
  JSNum.gt (currentTime r - lastDirectionChange ai) (directionChangeInterval ai)
  = true ->
  exists ai' p,
    getAI id (visit r id dt em) = Some ai'
    /\ targetPosition (chooseNewWanderTarget Math_cos Math_sin r ai transform)
       = Some p
    /\ in_bounds (x p) /\ in_bounds (z p)
    /\ behavior ai' = "wander"
    /\ wanderRadius ai' = wanderRadius ai
    /\ seekRange ai' = seekRange ai
    /\ ((fst (moveTowards id p dt em) <> Some true
         /\ state ai' = "moving"
         /\ targetPosition ai' = Some p
         /\ lastDirectionChange ai' = currentTime r
         /\ directionChangeInterval ai' = directionChangeInterval ai)
        \/ (fst (moveTowards id p dt em) = Some true
            /\ state ai' = "idle"
            /\ targetPosition ai' = None
            /\ lastDirectionChange ai' = arrivalTime r
            /\ directionChangeInterval ai' = 1000 + randomInterval r * 3000)).
Proof.
  intros Ha Ht Hb Hexp.
  destruct (updateEntityAI_getAI Math_cos Math_sin r id dt em ai transform Ha Ht)
    as [Hv _].
  assert (Hd : handle r id ai transform dt em
               = handleWanderBehavior Math_cos Math_sin r id ai transform dt em)
    by (unfold dispatch; now rewrite Hb).
  rewrite Hd in Hv.
  destruct (handleWander_expired r id ai transform dt em Hexp)
    as (p & Hp & Bx & Bz & Hb' & Hw & Hs & Hcase).
  eexists. exists p. split; [exact Hv|].
  rewrite Hb in Hb'. tauto.
Qed.

Lemma dispatch_store r id ai t dt (em : Store) :
  snd (handle r id ai t dt em) = em
  \/ exists force, snd (handle r id ai t dt em) = applyForce id force em.
Proof.
  unfold dispatch, handleWanderBehavior, handleSeekBehavior, handleIdleBehavior.
  repeat match goal with
         | |- context [if ?b then _ else _] => destruct b
         | |- context [match targetPosition ?a with _ => _ end] =>
             destruct (targetPosition a)
         | |- context [moveTowards ?i ?p ?d ?e] =>
             let H := fresh in
             pose proof (moveTowards_store i p d e) as H;
             destruct (moveTowards i p d e)
         end; cbn [snd fst] in *; auto.
Qed.

Lemma dispatch_rests r id ai t dt (em : Store) :
  rests r ai -> handle r id ai t dt em = (ai, em).
Proof.
  unfold rests, timer_running, dispatch.
  intros [(Hw & Hs & Hi) | [(Hi & Ht) | (Hw & Ht & Hp)]].
  - destruct (String.eqb_spec (behavior ai) "wander"); [contradiction|].
    destruct (String.eqb_spec (behavior ai) "seek"); [contradiction|].
    destruct (String.eqb_spec (behavior ai) "idle"); [contradiction|].
    reflexivity.
  - rewrite Hi. cbn. unfold handleIdleBehavior. now rewrite Ht.
  - rewrite Hw. cbn. unfold handleWanderBehavior. rewrite Ht.
    destruct Hp as [-> | Hp]; [reflexivity|].
    destruct (targetPosition ai); [|reflexivity].
    destruct (String.eqb_spec (state ai) "moving"); [contradiction | reflexivity].
Qed.

(** X16. A visit that has nothing to do changes nothing at all. When
    the behavior of the entity is none of [wander], [seek] and [idle],
    or it idles with its timer running, or it wanders with its timer
    running and is not on its way to a target, [updateEntityAI]
    leaves the manager exactly as it was: no field of the AI
    component is written and no force is applied. A timer whose
    reading is NaN counts as running. *)
Theorem updateEntityAI_rests r id dt (em : Store) ai transform :
  getAI id em = Some ai ->
  getTransform id em = Some transform ->
  rests r ai ->
  visit r id dt em = em.
Proof.
  intros Ha Ht Hr. unfold updateEntityAI. rewrite Ha, Ht.
  rewrite (dispatch_rests r id ai transform dt em Hr).
  apply writeComponent_same. now apply getComponent_of_getAI.
Qed.

(** X17. [setBehavior(id, "seek")] on an entity that has no target
    does not make it seek: the next visit finds no target and puts
    the behavior back to [wander], with the state [idle] and the
    time stamp that [setBehavior] wrote, and without applying a
    force. *)
Theorem setBehavior_seek_without_target now r id dt (em : Store) ai transform :
  getAI id em = Some ai ->
  getTransform id em = Some transform ->
  targetPosition ai = None ->
  let em' := visit r id dt (setBehavior now id "seek" em) in
  getAI id em'
  = Some (mkAI "wander" None now (directionChangeInterval ai) (wanderRadius ai)
            (seekRange ai) "idle")
  /\ (forall id', getMovement id' em' = getMovement id' em)
  /\ (forall id', getTransform id' em' = getTransform id' em).
Proof.
  intros Ha Ht Hp em'. subst em'.
  destruct (setBehavior_getAI now id "seek" em) as (Hset & _ & _).
  specialize (Hset ai Ha). rewrite Hp in Hset.
  assert (Ht' : getTransform id (setBehavior now id "seek" em) = Some transform).
  { unfold setBehavior. rewrite Ha.
    rewrite getTransform_write_other by (right; discriminate). exact Ht. }
  split; [|split].
  - destruct (updateEntityAI_getAI Math_cos Math_sin r id dt _ _ _ Hset Ht')
      as [-> _].
    reflexivity.
  - intros id'. unfold updateEntityAI. rewrite Hset, Ht'. cbn.
    rewrite getMovement_write_other by (right; discriminate).
    unfold setBehavior. rewrite Ha.
    now rewrite getMovement_write_other by (right; discriminate).
  - intros id'. unfold updateEntityAI. rewrite Hset, Ht'. cbn.
    rewrite getTransform_write_other by (right; discriminate).
    unfold setBehavior. rewrite Ha.
    now rewrite getTransform_write_other by (right; discriminate).
Qed.

Lemma visit_touches r id dt (em : Store) :
  touches [id] [AI_; MOVEMENT] em (visit r id dt em)
  /\ forall id' m,
       getMovement id' em = Some m ->
       exists m', getMovement id' (visit r id dt em) = Some m' /\ same_gait m m'.
Proof.
  unfold updateEntityAI.
  destruct (getAI id em) as [ai|];
    [|split; [apply touches_refl | intros id' m H; exists m; unfold same_gait; tauto]].
  destruct (getTransform id em) as [t|];
    [|split; [apply touches_refl | intros id' m H; exists m; unfold same_gait; tauto]].
  pose proof (dispatch_store r id ai t dt em) as Hs.
  destruct (dispatch Math_cos Math_sin r id ai t dt em) as [ai' em1].
  cbn [snd] in Hs. split.
  - apply touches_trans with em1.
    + apply touches_more with [id] [MOVEMENT]; [apply incl_refl | |].
      * intros a [<-|[]]. right. now left.
      * destruct Hs as [-> | [force ->]]; [apply touches_refl|].
        apply touches_applyForce.
    + apply touches_more with [id] [AI_]; [apply incl_refl | | apply touches_write].
      intros a [<-|[]]. now left.
  - intros id' m Hm.
    assert (H1 : exists m', getMovement id' em1 = Some m' /\ same_gait m m').
    { destruct Hs as [-> | [force ->]];
        [exists m; unfold same_gait; tauto | now apply applyForce_gait]. }
    destruct H1 as (m' & Hm' & Hg). exists m'. split; [|exact Hg].
    rewrite getMovement_write_other by (right; discriminate). exact Hm'.
Qed.

Lemma ai_fold_touches dt (r : Id -> Readings) ids :
  forall em : Store,
    let em' := fold_left (fun em1 entityId => visit (r entityId) entityId dt em1)
                 ids em in
    touches ids [AI_; MOVEMENT] em em'
    /\ forall id' m,
         getMovement id' em = Some m ->
         exists m', getMovement id' em' = Some m' /\ same_gait m m'.
Proof.
  induction ids as [|id ids IH]; intros em; cbn [fold_left].
  - split; [apply touches_refl | intros id' m H; exists m; unfold same_gait; tauto].
  - destruct (visit_touches (r id) id dt em) as [T1 G1].
    destruct (IH (visit (r id) id dt em)) as [T G]. split.
    + apply touches_trans with (visit (r id) id dt em).
      * apply touches_more with [id] [AI_; MOVEMENT]; [|apply incl_refl | exact T1].
        intros a [<-|[]]. now left.
      * apply touches_more with ids [AI_; MOVEMENT]; [|apply incl_refl | exact T].
        intros a Ha. now right.
    + intros id' m Hm. destruct (G1 id' m Hm) as (m1 & Hm1 & Hg1).
      destruct (G id' m1 Hm1) as (m2 & Hm2 & Hg2). exists m2. split; [exact Hm2|].
      unfold same_gait in *. intuition congruence.
Qed.

(** X24. An idle entity whose timer has run out becomes a wanderer
    and nothing else happens in that visit: its state, its target
    and its time stamp stay, no force is applied, and only its AI
    component is written. Since the time stamp stays, the timer is
    still expired when the entity is visited next, so that visit
    picks a target at once: after it the entity is on its way in state
    [moving], or it found itself at the target and idles again. *)
Theorem updateEntityAI_idle_expired r id dt (em : Store) ai transform :
  getAI id em = Some ai ->
  getTransform id em = Some transform ->
  behavior ai = "idle" ->
  JSNum.gt (currentTime r - lastDirectionChange ai) (directionChangeInterval ai)
  = true ->
  getAI id (visit r id dt em)
  = Some (mkAI "wander" (targetPosition ai) (lastDirectionChange ai)
            (directionChangeInterval ai) (wanderRadius ai) (seekRange ai)
            (state ai))
  /\ touches [id] [AI_] em (visit r id dt em)
  /\ (forall r',
        JSNum.gt (currentTime r' - lastDirectionChange ai)
          (directionChangeInterval ai) = true ->
        exists ai'',
          getAI id (visit r' id dt (visit r id dt em)) = Some ai''
          /\ behavior ai'' = "wander"
          /\ ((state ai'' = "moving" /\ targetPosition ai'' <> None
               /\ lastDirectionChange ai'' = currentTime r')
              \/ (state ai'' = "idle" /\ targetPosition ai'' = None
                  /\ lastDirectionChange ai'' = arrivalTime r'))).
Proof.
  intros Ha Ht Hb Hexp.
  assert (Hd : handle r id ai transform dt em
               = (mkAI "wander" (targetPosition ai) (lastDirectionChange ai)
                    (directionChangeInterval ai) (wanderRadius ai) (seekRange ai)
                    (state ai), em)).
  { unfold dispatch. rewrite Hb. cbn. unfold handleIdleBehavior. now rewrite Hexp. }
  assert (Hv : visit r id dt em
               = writeComponent id AI_
                   (CAI (mkAI "wander" (targetPosition ai) (lastDirectionChange ai)
                           (directionChangeInterval ai) (wanderRadius ai)
                           (seekRange ai) (state ai))) em).
  { unfold updateEntityAI. now rewrite Ha, Ht, Hd. }
  assert (Ha1 : getAI id (visit r id dt em)
                = Some (mkAI "wander" (targetPosition ai) (lastDirectionChange ai)
                          (directionChangeInterval ai) (wanderRadius ai)
                          (seekRange ai) (state ai))).
  { rewrite Hv. now apply getAI_write_same with ai. }
  split; [exact Ha1|]. split; [rewrite Hv; apply touches_write|].
  intros r' Hexp'.
  assert (Ht1 : getTransform id (visit r id dt em) = Some transform).
  { rewrite Hv, getTransform_write_other by (right; discriminate). exact Ht. }
  destruct (updateEntityAI_getAI Math_cos Math_sin r' id dt _ _ _ Ha1 Ht1)
    as [Hg _].
  eexists. split; [exact Hg|]. unfold dispatch. cbn.
  match goal with |- context [handleWanderBehavior _ _ _ _ ?a _ _ ?e] =>
    destruct (handleWander_expired r' id a transform dt e Hexp')
      as (p & _ & _ & _ & Hw & _ & _ & Hcase)
  end.
  split; [exact Hw|].
  destruct Hcase as [(_ & Hs & Hp & Hl & _) | (_ & Hs & Hp & Hl & _)].
  - left. repeat split; [exact Hs | now rewrite Hp | exact Hl].
  - right. repeat split; assumption.
Qed.

(** X19. The AI system steers and does nothing else. One [update]
    keeps the entities, their order and their component tags; it
    writes only to the AI and the movement components of the
    entities its query lists, so no transform is ever changed by it;
    and of a movement component it changes the velocity at most:
    [speed], [hoverHeight] and [groundY] are as before. *)
Theorem update_steers_only dt (r : Id -> Readings) (em : Store) :
  let em' := update Math_cos Math_sin dt r em in
  touches (getEntitiesWithComponents [TRANSFORM; AI_; MOVEMENT] em)
    [AI_; MOVEMENT] em em'
  /\ (forall id, getTransform id em' = getTransform id em)
  /\ (forall id m,
        getMovement id em = Some m ->
        exists m', getMovement id em' = Some m' /\ same_gait m m').
Proof.
  intros em'. subst em'. unfold update.
  destruct (ai_fold_touches dt r
              (getEntitiesWithComponents [TRANSFORM; AI_; MOVEMENT] em) em)
    as [T G].
  split; [exact T|]. split; [|exact G].
  intros id. unfold getTransform. destruct T as [_ F]. rewrite F; [reflexivity|].
  right. intros [H|[H|[]]]; discriminate.
Qed.
End Host.
End BehaviorFacts.

(** * The frame loop *)
Module EngineFacts.
Import EM EMFacts Components ComponentFacts FloatFacts NumberFacts Contracts
  Outlines ShapeFacts SteeringFacts BehaviorFacts GameEngine.
Local Open Scope float_scope.
Section Systems.
Variable Math_sin : float -> float.
Variable Math_cos : float -> float.
Variable Math_atan2 : float -> float -> float.

Local Abbreviation tick := (updateSystems Math_sin Math_cos Math_atan2).

Lemma updateEntityMovement_calm fuel id dt now (em : Store) :
  calm Math_sin Math_atan2 dt now em id ->
  exists em',
    MovementSystem.updateEntityMovement Math_sin Math_atan2 (S fuel) id dt (now id) em
    = Some em'.
Proof.
  intros Hc. destruct (getTransform id em) as [t|] eqn:Ht;
    [|unfold MovementSystem.updateEntityMovement; rewrite Ht; eauto].
  destruct (getMovement id em) as [m|] eqn:Hm;
    [|unfold MovementSystem.updateEntityMovement; rewrite Ht, Hm; eauto].
  rewrite (MovementFacts.updateEntityMovement_integrate Math_sin Math_atan2 (S fuel) id
             dt (now id) em t m Ht Hm).
  rewrite MovementFacts.integrate_steps. cbv zeta.
  destruct (Hc t m Ht Hm) as [Hslow|[Hg Hl]].
  - rewrite Hslow. cbn [option_map]. eauto.
  - destruct (JSNum.gt _ 0.1); [|cbn [option_map]; eauto].
    rewrite (MovementFacts.lerpAngle_in_band fuel _ _ _ Hg Hl). cbn [option_map]. eauto.
Qed.

Lemma movement_fold_calm fuel dt now (em : Store) ids :
  List.NoDup ids ->
  forall em1 : Store,
    (forall id, In id ids ->
       getTransform id em1 = getTransform id em
       /\ getMovement id em1 = getMovement id em) ->
    (forall id, In id ids -> calm Math_sin Math_atan2 dt now em id) ->
    exists em',
      fold_left
        (fun acc entityId =>
           match acc with
           | Some em2 =>
               MovementSystem.updateEntityMovement Math_sin Math_atan2 (S fuel)
                 entityId dt (now entityId) em2
           | None => None
           end) ids (Some em1) = Some em'.
Proof.
  induction 1 as [|id ids Hnin Hnd IH]; intros em1 Hsame Hcalm; cbn [fold_left];
    [eauto|].
  assert (Hc1 : calm Math_sin Math_atan2 dt now em1 id).
  { intros t m Ht Hm. destruct (Hsame id (or_introl eq_refl)) as [E1 E2].
    rewrite E1 in Ht. rewrite E2 in Hm. exact (Hcalm id (or_introl eq_refl) t m Ht Hm). }
  destruct (updateEntityMovement_calm fuel id dt now em1 Hc1) as [em2 H2].
  rewrite H2. apply IH.
  - intros id' Hin.
    destruct (SteeringFacts.updateEntityMovement_touches Math_sin Math_atan2 _ _ _ _ _ _
                H2) as [[_ F] _].
    assert (Hne : id' <> id) by (intros ->; contradiction).
    destruct (Hsame id' (or_intror Hin)) as [E1 E2].
    unfold getTransform, getMovement in *.
    rewrite !F by (left; intros [E|[]]; congruence). now split.
  - intros id' Hin. apply Hcalm. now right.
Qed.

Lemma updateSystems_calm fuel dt now r (em : Store) :
  reachable em ->
  (forall id, In id (getEntitiesWithComponents [TRANSFORM; MOVEMENT] em) ->
     calm Math_sin Math_atan2 dt now em id) ->
  exists em', tick (S fuel) dt now r em = Some em'.
Proof.
  intros Hr Hcalm. unfold updateSystems, MovementSystem.update.
  pose proof (reachable_keys_unique em Hr) as Hu.
  assert (Hnd : List.NoDup (getEntitiesWithComponents [TRANSFORM; MOVEMENT] em)).
  { rewrite query_as_filter_of_keys by exact Hu.
    apply List.NoDup_filter, NoDup_ListNoDup, Hu. }
  destruct (movement_fold_calm fuel dt now em _ Hnd em (fun _ _ => conj eq_refl eq_refl)
              Hcalm) as [em1 H1].
  rewrite H1. eauto.
Qed.

Lemma updateSystems_touches fuel dt now r (em em' : Store) :
  reachable em ->
  tick fuel dt now r em = Some em' ->
  touches (getEntitiesWithComponents [TRANSFORM; MOVEMENT] em)
    [TRANSFORM; MOVEMENT; AI_] em em'.
Proof.
  intros Hr. unfold updateSystems, MovementSystem.update.
  match goal with |- context [fold_left ?f ?l ?a] =>
    destruct (fold_left f l a) as [em1|] eqn:H1 end; [|discriminate].
  intros [= <-]. apply SteeringFacts.movement_fold_touches in H1 as [T1 _].
  apply touches_trans with em1.
  - apply touches_more with (getEntitiesWithComponents [TRANSFORM; MOVEMENT] em)
      [TRANSFORM; MOVEMENT]; [apply incl_refl | | exact T1].
    intros a [<-|[<-|[]]]; [now left | right; now left].
  - unfold AISystem.update.
    destruct (BehaviorFacts.ai_fold_touches Math_cos Math_sin dt r
                (getEntitiesWithComponents [TRANSFORM; AI_; MOVEMENT] em1) em1)
      as [T2 _].
    eapply touches_more; [| |exact T2].
    + intros id Hin. pose proof (reachable_keys_unique em Hr) as Hu.
      destruct T1 as [(Hk & Hh & _) _].
      assert (Hu1 : keys_unique em1) by (unfold keys_unique; now rewrite Hk).
      apply In_query in Hin as [Hl Hall]; [|exact Hu1].
      apply In_query; [exact Hu|]. split.
      * unfold live in *. apply JSMapFacts.has_In_keys.
        apply JSMapFacts.has_In_keys in Hl.
        unfold getAllEntities in Hk. now rewrite <- Hk.
      * intros v [<-|[<-|[]]]; rewrite <- Hh; apply Hall; cbn; tauto.
    + intros a [<-|[<-|[]]]; cbn; tauto.
Qed.

(** X13. A frame creates and destroys nothing, and it writes only to
    transform, movement and AI objects. When the systems of the engine
    have run, the manager has the same entities in the same order,
    each with the same component tags, and the same allocator,
    registry and systems, and what is stored under any other tag -- a
    mesh, a health record -- is as it was. The systems do return, with
    any fuel of one test or more, when every entity the movement
    system lists is calm: slow after the damping, or headed within a
    half turn of where it looks; each entity holds a transform and a
    movement object of its own there, as the loader builds them. *)
Theorem updateSystems_frame fuel dt now r (em : Store) :
  reachable em ->
  (forall em',
     tick fuel dt now r em = Some em' ->
     same_shape em em'
     /\ forall id v, v <> TRANSFORM -> v <> MOVEMENT -> v <> AI_ ->
          getComponent id v em' = getComponent id v em)
  /\ ((forall id, In id (getEntitiesWithComponents [TRANSFORM; MOVEMENT] em) ->
         calm Math_sin Math_atan2 dt now em id) ->
      exists em',
        tick (S fuel) dt now r em = Some em'
        /\ same_shape em em'
        /\ forall id v, v <> TRANSFORM -> v <> MOVEMENT -> v <> AI_ ->
             getComponent id v em' = getComponent id v em).
Proof.
  intros Hr.
  assert (Hframe : forall n em',
            tick n dt now r em = Some em' ->
            same_shape em em'
            /\ forall id v, v <> TRANSFORM -> v <> MOVEMENT -> v <> AI_ ->
                 getComponent id v em' = getComponent id v em).
  { intros n em' H. destruct (updateSystems_touches n dt now r em em' Hr H) as [S F].
    split; [exact S|]. intros id v H1 H2 H3. apply F. right.
    intros [E|[E|[E|[]]]]; congruence. }
  split; [exact (Hframe fuel)|].
  intros Hcalm. destruct (updateSystems_calm fuel dt now r em Hr Hcalm) as [em' H].
  exists em'. split; [exact H|]. exact (Hframe _ em' H).
Qed.

End Systems.

Section Counter.
Variable Math_round : float -> float.

Local Abbreviation count := (updateFPS Math_round).
Local Abbreviation counted := (frames Math_round).

Lemma frames_nan deltas :
  forall c,
    is_nan (fpsUpdateTime c) = true ->
    fps (counted deltas c) = fps c
    /\ is_nan (fpsUpdateTime (counted deltas c)) = true.
Proof.
  induction deltas as [|d deltas IH]; intros c N; cbn [frames fold_left];
    [now split|].
  assert (Hc : count d c
               = mkCounter (frameCount c + 1) (fps c) (fpsUpdateTime c + d)).
  { unfold updateFPS. now rewrite (le_nan_r _ _ (add_nan_l _ d N)). }
  rewrite Hc. destruct (IH (mkCounter (frameCount c + 1) (fps c) (fpsUpdateTime c + d)))
    as [F T]; [now apply add_nan_l|].
  now split.
Qed.

(** X20. The frame counter publishes a rate only when a second has
    accumulated, and then starts over: after every [updateFPS] the
    accumulated time fails the test [>= 1000]. A frame whose duration
    is NaN stops the counter for good: the accumulated time is NaN from
    then on, the test never passes again, and the published rate stays
    what it was, however many frames follow. *)
Theorem updateFPS_spec dt c :
  JSNum.le 1000 (fpsUpdateTime (count dt c)) = false
  /\ (JSNum.le 1000 (fpsUpdateTime c + dt) = true ->
        count dt c
        = mkCounter 0
            (Math_round ((frameCount c + 1) * 1000 / (fpsUpdateTime c + dt))) 0)
  /\ (JSNum.le 1000 (fpsUpdateTime c + dt) = false ->
        count dt c = mkCounter (frameCount c + 1) (fps c) (fpsUpdateTime c + dt))
  /\ (is_nan dt = true \/ is_nan (fpsUpdateTime c) = true ->
        forall deltas,
          fps (counted deltas (count dt c)) = fps c
          /\ is_nan (fpsUpdateTime (counted deltas (count dt c))) = true).
Proof.
  split; [|split; [|split]].
  - unfold updateFPS. destruct (JSNum.le 1000 (fpsUpdateTime c + dt)) eqn:E;
      cbn [fpsUpdateTime]; [vm_compute; reflexivity | exact E].
  - unfold updateFPS. now intros ->.
  - unfold updateFPS. now intros ->.
  - intros N deltas.
    assert (N1 : is_nan (fpsUpdateTime c + dt) = true)
      by (destruct N; [now apply add_nan_r | now apply add_nan_l]).
    assert (Hc : count dt c
                 = mkCounter (frameCount c + 1) (fps c) (fpsUpdateTime c + dt)).
    { unfold updateFPS. now rewrite (le_nan_r _ _ N1). }
    rewrite Hc. apply (frames_nan deltas (mkCounter _ _ _)). exact N1.
Qed.
End Counter.

Section Loop.
Variable Math_round : float -> float.
Variable Math_sin : float -> float.
Variable Math_cos : float -> float.
Variable Math_atan2 : float -> float -> float.

Local Abbreviation loop := (gameLoop Math_round Math_sin Math_cos Math_atan2).
Local Abbreviation resume := (start Math_round Math_sin Math_cos Math_atan2).
Local Abbreviation called := (animationFrame Math_round Math_sin Math_cos Math_atan2).
Local Abbreviation toggle := (togglePause Math_round Math_sin Math_cos Math_atan2).

Local Abbreviation tick := (updateSystems Math_sin Math_cos Math_atan2).

Local Abbreviation framed := (Outlines.framed Math_round).

Lemma gameLoop_running fuel f g :
  isRunning g = true ->
  loop fuel f g
  = option_map (framed f (lastTime g) g (S (scheduled g)))
      (tick fuel (currentTime f - lastTime g) (clock f) (draws f) (entityManager g)).
Proof.
  intros Hr. unfold gameLoop. rewrite Hr. cbn [negb].
  now destruct (updateSystems _ _ _ _ _ _ _ _).
Qed.

End Loop.
End EngineFacts.

(** * The contracts at the sample worlds *)
Module Examples.
Import EM EMFacts Components ComponentFacts MovementSystem MovementFacts
  AISystem AIInvariant AIFacts Samples Contracts.

(** Closed facts are settled by evaluation. *)
Ltac conjuncts := repeat match goal with |- _ /\ _ => split end.
Ltac evaluate := conjuncts; vm_compute; reflexivity.

Lemma engine_reachable : reachable engine.
Proof. unfold engine. repeat constructor. Qed.

Lemma spawn_reachable px pz (em : Store) : reachable em -> reachable (spawn px pz em).
Proof. intros H. unfold spawn. cbn zeta. repeat constructor. exact H. Qed.

Lemma world1_reachable : reachable world1.
Proof. apply spawn_reachable, engine_reachable. Qed.

Lemma world3_reachable : reachable world3.
Proof. unfold world3. repeat apply spawn_reachable. apply engine_reachable. Qed.


(** C1: the mob of [world1] has no health component, and removing one
    still calls the renderer's hook. *)
Lemma removeComponent_notifies_without_component :
  hasComponent 1 HEALTH world1 = false
  /\ JSMap.has 1 (entities world1) = true
  /\ notified (removeComponent 1 HEALTH world1)
     = [onComponentRemoved "render" 1 HEALTH]
  /\ store (removeComponent 1 HEALTH world1) = world1.
Proof. evaluate. Qed.



Lemma destroyEntity_spec_witness :
  reachable world1
  /\ JSMap.has 1 (entities (store (destroyEntity 1 world1))) = false
  /\ notified (destroyEntity 1 world1) = [onEntityDestroyed "render" 1]
  /\ notified (destroyEntity 1 (store (destroyEntity 1 world1)))
     = [onEntityDestroyed "render" 1].
Proof.
  split; [exact world1_reachable|].
  destruct (destroyEntity_spec world1 1 world1_reachable)
    as (_ & Hgone & _ & _ & _ & _ & _ & Hcalls & Hagain).
  split; [exact Hgone|].
  assert (H : notified (destroyEntity 1 world1) = [onEntityDestroyed "render" 1])
    by (rewrite Hcalls; vm_compute; reflexivity).
  split; [exact H|]. rewrite Hagain. exact H.
Defined.

Lemma taken_reachable : reachable taken.
Proof. unfold taken. repeat constructor. Qed.

(** C10: on a manager where the supplied id 1 is live and the
    allocator still stands at 1, [createEntity(0)] returns 1, the id of
    the live entity, and empties its component set: the id it returns
    is not a fresh one. *)
Lemma createEntity_zero_returns_live_id :
  nextEntityId taken = 1
  /\ getAllEntities taken = [1]
  /\ hasComponent 1 TRANSFORM taken = true
  /\ returned (createEntity (Some 0) taken) = inr 1
  /\ getAllEntities (store (createEntity (Some 0) taken)) = [1]
  /\ hasComponent 1 TRANSFORM (store (createEntity (Some 0) taken)) = false.
Proof. evaluate. Qed.

Lemma createEntity_falsy_id_witness :
  reachable world1
  /\ returned (createEntity (Some 0) world1) = inr 2
  /\ JSMap.get 0 (entities (store (createEntity (Some 0) world1))) = None
  /\ JSMap.has 2 (entities world1) = false
  /\ getAllEntities (store (createEntity (Some 0) world1)) = [1; 2].
Proof.
  split; [exact world1_reachable|].
  destruct (createEntity_falsy_id world1 world1_reachable)
    as (_ & Hret & _ & _ & _ & _ & Hzero & _ & Hfresh & _).
  split; [rewrite Hret; vm_compute; reflexivity|].
  split; [rewrite Hzero; vm_compute; reflexivity|].
  assert (Hall : Forall (fun k => k < nextEntityId world1) (getAllEntities world1))
    by (vm_compute; repeat constructor).
  destruct (Hfresh Hall) as [Hfree Hkeys].
  split; [exact Hfree|]. rewrite Hkeys. vm_compute. reflexivity.
Defined.

Lemma getEntitiesWithComponents_spec_witness :
  reachable world3
  /\ getEntitiesWithComponents [TRANSFORM; MOVEMENT] world3 = [1; 2; 3]
  /\ (In 2 (getEntitiesWithComponents [TRANSFORM; MOVEMENT]
              (store (removeComponent 2 MOVEMENT world3)))
      <-> In 2 (getEntitiesWithComponents [TRANSFORM; MOVEMENT] world3)
          /\ ~ In MOVEMENT [TRANSFORM; MOVEMENT]).
Proof.
  split; [exact world3_reachable|].
  destruct (getEntitiesWithComponents_spec world3 [TRANSFORM; MOVEMENT]
              world3_reachable) as (_ & _ & _ & _ & _ & Hrem & _).
  split; [vm_compute; reflexivity | exact (proj1 (Hrem 2 MOVEMENT))].
Defined.

(** Ids are listed in creation order, not by value. *)
Example query_in_creation_order :
  getEntitiesWithComponents []
    (store (createEntity (Some 2)
              (store (createEntity (Some 5) (constructor (Data := Component))))))
  = [5; 2].
Proof. vm_compute. reflexivity. Qed.

(** *** AI *)

Lemma world1_ids : JSMap.keys (entities world1) = [1].
Proof. evaluate. Qed.

Lemma getAI_world1 id ai :
  getAI id world1 = Some ai -> id = 1 /\ ai = createAIComponent "wander" None.
Proof.
  intros H. destruct (Z.eq_dec id 1) as [->|Hne].
  - split; [reflexivity|]. vm_compute in H. injection H as <-. reflexivity.
  - exfalso. unfold getAI, getComponent in H.
    assert (Hnone : JSMap.get id (entities world1) = None).
    { apply JSMapFacts.get_None_keys. rewrite world1_ids. intros [E|[]]. congruence. }
    rewrite Hnone in H. discriminate.
Qed.

Lemma world1_holds : everywhere holds world1.
Proof.
  intros id ai H. apply getAI_world1 in H as [_ ->].
  split; [intros E; vm_compute in E; discriminate | intros E; now contradiction E].
Qed.

(** C3: a seeker in state [moving] that the visit finds at its target
    is left in state [moving] without a target; and [setBehavior]
    leaves the target on an entity it has just made idle. *)
Lemma seek_arrival_leaves_moving :
  getAI 1 seeking = Some seeker
  /\ holds seeker
  /\ (forall Math_cos Math_sin r,
        getAI 1 (updateEntityAI Math_cos Math_sin r 1 16 seeking) = Some arrived)
  /\ state arrived = "moving" /\ targetPosition arrived = None
  /\ ~ moving_has_target arrived
  /\ getAI 1 (setBehavior 5000 1 "idle" seeking) = Some idled
  /\ targetPosition idled = Some origin
  /\ ~ target_only_pursued idled.
Proof.
  split; [evaluate|]. split.
  { split; [intros _; discriminate | intros _; now left]. }
  split; [intros Math_cos Math_sin r; vm_compute; reflexivity|].
  split; [reflexivity|]. split; [reflexivity|]. split.
  { intros H. now apply (H eq_refl). }
  split; [evaluate|]. split; [reflexivity|].
  intros H. destruct (H ltac:(discriminate)) as [E|[E _]]; discriminate.
Qed.

Lemma ai_invariant_spec_witness :
  everywhere holds world1
  /\ everywhere holds (setTarget 1 origin world1)
  /\ everywhere moving_has_target (setBehavior 5000 1 "idle" world1).
Proof.
  split; [exact world1_holds|].
  destruct (ai_invariant_spec const_cos const_sin world1 world1_holds)
    as (_ & Htarget & Hbehavior).
  split; [exact (proj1 (Htarget 1 origin))|].
  exact (proj1 (Hbehavior 5000%float 1 "idle"%string)).
Defined.

(** *** Movement *)

Lemma world1_components :
  getTransform 1 world1 = Some (createTransformComponent 0 0 0 origin)
  /\ getMovement 1 world1 = Some (createMovementComponent 2 1.5).
Proof. evaluate. Qed.

(** C6: towards a target with a NaN coordinate the distance is NaN;
    [moveTowards] reports arrival although the distance fails
    [distance <= 0.1]. *)
Lemma moveTowards_nan_target :
  getTransform 1 world1 = Some (createTransformComponent 0 0 0 origin)
  /\ getMovement 1 world1 = Some (createMovementComponent 2 1.5)
  /\ fst (moveTowards 1 nowhere 16 world1) = Some true
  /\ snd (moveTowards 1 nowhere 16 world1) = world1
  /\ JSNum.le (planar_distance origin nowhere) 0.1 = false
  /\ JSNum.gt (planar_distance origin nowhere) 0.1 = false.
Proof. evaluate. Qed.

Lemma moveTowards_spec_witness :
  getTransform 1 world1 = Some (createTransformComponent 0 0 0 origin)
  /\ getMovement 1 world1 = Some (createMovementComponent 2 1.5)
  /\ fst (moveTowards 1 (mkVec3 3 0 4) 16 world1) = Some false
  /\ getTransform 1 (snd (moveTowards 1 (mkVec3 3 0 4) 16 world1))
     = Some (createTransformComponent 0 0 0 origin).
Proof.
  destruct world1_components as [Ht Hm].
  split; [exact Ht|]. split; [exact Hm|].
  destruct (moveTowards_spec world1 1 (mkVec3 3 0 4) 16 _ _ Ht Hm)
    as (_ & Hfar & Hsame & _).
  split; [|exact Hsame].
  apply Hfar. vm_compute. reflexivity.
Defined.

Lemma spinning_components :
  getTransform 1 spinning = Some spun /\ getMovement 1 spinning = Some drifting.
Proof. evaluate. Qed.

(** C7: the mob of [spinning] moves along [+x] with a yaw of [1e300].
    The difference to its heading is [-1e300], below the band, and
    adding [2 * Math.PI] gives [-1e300] again: the update does not
    return, whatever the fuel. *)
Lemma updateEntityMovement_hangs_witness :
  getTransform 1 spinning = Some spun
  /\ getMovement 1 spinning = Some drifting
  /\ (east_atan2 0.95 0 - y (rotation spun) = - huge)%float
  /\ (- huge + 2 * JSNum.Math_PI = - huge)%float
  /\ forall fuel, updateEntityMovement const_sin east_atan2 fuel 1 16 0 spinning = None.
Proof.
  destruct spinning_components as [Ht Hm].
  split; [exact Ht|]. split; [exact Hm|].
  split; [vm_compute; reflexivity|]. split; [vm_compute; reflexivity|].
  intros fuel.
  refine (proj1 (updateEntityMovement_hangs const_sin east_atan2 fuel 1 16 0
                   spinning spun drifting Ht Hm _ _)).
  - vm_compute. reflexivity.
  - right. split; [vm_compute; reflexivity|].
    split; vm_compute; reflexivity.
Defined.

Lemma updateEntityMovement_spec_witness :
  getTransform 1 world1 = Some (createTransformComponent 0 0 0 origin)
  /\ getMovement 1 world1 = Some (createMovementComponent 2 1.5)
  /\ updateEntityMovement const_sin const_atan2 1 1 16 0 world1
     = Some (written 1
               (MovementSteps.before_facing const_sin 1 16 0
                  (createTransformComponent 0 0 0 origin,
                   createMovementComponent 2 1.5))
               world1).
Proof.
  destruct world1_components as [Ht Hm].
  split; [exact Ht|]. split; [exact Hm|].
  destruct (updateEntityMovement_spec const_sin const_atan2 1 1 16 0 world1 _ _ Ht Hm)
    as (Hslow & _).
  apply Hslow. vm_compute. reflexivity.
Defined.

(** A difference of 5 radians loses one full turn. *)
Example lerpAngle_wraps_once :
  lerpAngle 2 0 5 1 = Some (0 + (5 - 2 * JSNum.Math_PI) * 1)%float
  /\ lerpAngle 1 0 5 1 = None.
Proof. evaluate. Qed.

(** A mob of speed 2 at the origin, sent to [(3, 0, 4)], gains the
    velocity [(1.2, 0, 1.6)] and stays where it is. *)
Example moveTowards_far :
  getMovement 1 (snd (moveTowards 1 (mkVec3 3 0 4) 16 world1))
  = Some (mkMovement (mkVec3 1.2 0 1.6) 2 1.5 0).
Proof. evaluate. Qed.

(** *** Range queries *)

End Examples.

(** * The further contracts at the sample worlds *)
Module MoreExamples.
Import EM EMFacts EMSteps Components ComponentFacts MovementSystem AISystem
  Samples Scenes Contracts Outlines Examples.

Lemma componentTypes_spec_witness :
  reachable world1
  /\ evolves world1 (store (destroyEntity 1 world1))
  /\ hasComponent 1 TRANSFORM world1 = true
  /\ hasComponent 1 TRANSFORM (store (destroyEntity 1 world1)) = false
  /\ TRANSFORM ∈ componentTypes (store (destroyEntity 1 world1)).
Proof.
  assert (He : evolves world1 (store (destroyEntity 1 world1)))
    by (eapply evolves_step; [apply evolves_refl | constructor]).
  assert (Hh : hasComponent 1 TRANSFORM world1 = true) by (vm_compute; reflexivity).
  split; [exact world1_reachable|]. split; [exact He|]. split; [exact Hh|].
  split; [vm_compute; reflexivity|].
  exact (proj2 (LifecycleFacts.componentTypes_spec world1 _ world1_reachable He)
           1 TRANSFORM (or_introl Hh)).
Defined.

Lemma createEntity_auto_increasing_witness :
  returned (createEntity None world1) = inr 2
  /\ evolves (store (createEntity None world1)) respawned
  /\ (nextEntityId respawned < 2 ^ 53)%Z
  /\ returned (createEntity None respawned) = inr 3
  /\ (2 < 3)%Z.
Proof.
  assert (H1 : returned (createEntity None world1) = inr 2)
    by (vm_compute; reflexivity).
  assert (He : evolves (store (createEntity None world1)) respawned)
    by (eapply evolves_step; [apply evolves_refl | constructor]).
  assert (H2 : returned (createEntity None respawned) = inr 3)
    by (vm_compute; reflexivity).
  assert (Hb : (nextEntityId respawned < 2 ^ 53)%Z) by (vm_compute; reflexivity).
  split; [exact H1|]. split; [exact He|]. split; [exact Hb|]. split; [exact H2|].
  exact (proj1 (LifecycleFacts.createEntity_auto_increasing world1 respawned 2 3
                  H1 He Hb H2)).
Defined.


Lemma removeSystem_spec_witness :
  Forall (fun s' => sys_name s' <> sys_name movementSystem) [renderSystem]
  /\ systems engine = [renderSystem] ++ movementSystem :: [aiSystem]
  /\ systems (removeSystem movementSystem engine) = [renderSystem] ++ [aiSystem].
Proof.
  assert (Hb : Forall (fun s' => sys_name s' <> sys_name movementSystem) [renderSystem])
    by (repeat constructor; discriminate).
  assert (Hs : systems engine = [renderSystem] ++ movementSystem :: [aiSystem])
    by reflexivity.
  split; [exact Hb|]. split; [exact Hs|].
  exact (proj1 (LifecycleFacts.removeSystem_spec engine movementSystem
                  [renderSystem] Hb)
           movementSystem [aiSystem] eq_refl Hs).
Defined.

Lemma getEntitiesWithComponents_narrow_witness :
  reachable world3
  /\ getEntitiesWithComponents ([TRANSFORM] ++ [MOVEMENT]) world3
     = List.filter (fun id => forallb (fun v => hasComponent id v world3) [MOVEMENT])
         (getEntitiesWithComponents [TRANSFORM] world3).
Proof.
  split; [exact world3_reachable|].
  exact (proj1 (LifecycleFacts.getEntitiesWithComponents_narrow world3 [TRANSFORM]
                  [MOVEMENT] world3_reachable)).
Defined.

(** A definition with a movement entry, a mesh entry and a second
    movement entry: the renderer's hook throws at the mesh, the loader
    throws with it, and entity 1 is left with the movement component
    and the mesh. *)
Lemma createEntityFromDefinition_spec_witness :
  Forall2 (accepted override movement_or_mesh no_overrides) [(MOVEMENT, 2%float)]
    [(MOVEMENT, walker)]
  /\ quiet mesh_throws (flat_map (announced (systems engine) 1) [(MOVEMENT, walker)])
  /\ ends override movement_or_mesh mesh_throws no_overrides (systems engine) 1
       [(MESH, 1%float); (MOVEMENT, 3%float)] [(MESH, box)]
       ([] ++ [onComponentAdded "render" 1%Z MESH box])
       (inl (EntityLoader.FromHook "TypeError"))
  /\ EntityLoader.returned
       (EntityLoader.createEntityFromDefinition override movement_or_mesh mesh_throws
          (Some ([(MOVEMENT, 2%float)] ++ [(MESH, 1%float); (MOVEMENT, 3%float)]))
          no_overrides engine)
     = inl (EntityLoader.FromHook "TypeError")
  /\ EntityLoader.notified
       (EntityLoader.createEntityFromDefinition override movement_or_mesh mesh_throws
          (Some ([(MOVEMENT, 2%float)] ++ [(MESH, 1%float); (MOVEMENT, 3%float)]))
          no_overrides engine)
     = [onComponentAdded "render" 1%Z MOVEMENT walker;
        onComponentAdded "render" 1%Z MESH box]
  /\ getComponent 1 MESH
       (EntityLoader.store
          (EntityLoader.createEntityFromDefinition override movement_or_mesh mesh_throws
             (Some ([(MOVEMENT, 2%float)] ++ [(MESH, 1%float); (MOVEMENT, 3%float)]))
             no_overrides engine))
     = Some box
  /\ getComponent 1 MOVEMENT
       (EntityLoader.store
          (EntityLoader.createEntityFromDefinition override movement_or_mesh mesh_throws
             (Some ([(MOVEMENT, 2%float)] ++ [(MESH, 1%float); (MOVEMENT, 3%float)]))
             no_overrides engine))
     = Some walker.
Proof.
  assert (Hd : Forall2 (accepted override movement_or_mesh no_overrides)
                 [(MOVEMENT, 2%float)] [(MOVEMENT, walker)])
    by (repeat constructor).
  assert (Hq : quiet mesh_throws
                 (flat_map (announced (systems engine) 1) [(MOVEMENT, walker)]))
    by (repeat constructor).
  assert (He : ends override movement_or_mesh mesh_throws no_overrides (systems engine) 1
                 [(MESH, 1%float); (MOVEMENT, 3%float)] [(MESH, box)]
                 ([] ++ [onComponentAdded "render" 1%Z MESH box])
                 (inl (EntityLoader.FromHook "TypeError"))).
  { apply (ends_hook_threw override movement_or_mesh mesh_throws no_overrides
             (systems engine) 1 MESH 1%float [(MOVEMENT, 3%float)] box [] renderSystem
             [] "TypeError"); [reflexivity | reflexivity | constructor | reflexivity]. }
  split; [exact Hd|]. split; [exact Hq|]. split; [exact He|].
  destruct (LoaderFacts.createEntityFromDefinition_spec override movement_or_mesh
              mesh_throws engine no_overrides _ _ _ _ _ _ Hd Hq He)
    as (Hret & _ & _ & _ & _ & Hnot & Hget & _).
  split; [exact Hret|].
  split; [rewrite Hnot; vm_compute; reflexivity|].
  change (nextEntityId engine) with 1%Z in Hget.
  split; [rewrite (Hget MESH) | rewrite (Hget MOVEMENT)]; vm_compute; reflexivity.
Defined.

Lemma moveTowards_own_position_witness :
  getTransform 1 world1 = Some (createTransformComponent 0 0 0 origin)
  /\ getMovement 1 world1 = Some (createMovementComponent 2 1.5)
  /\ moveTowards 1 origin 16 world1 = (Some true, world1).
Proof.
  destruct world1_components as [Ht Hm].
  split; [exact Ht|]. split; [exact Hm|].
  exact (SteeringFacts.moveTowards_own_position 1 16 world1 _ _ origin Ht Hm
           eq_refl eq_refl).
Defined.

Lemma world1_calm id :
  In id (getEntitiesWithComponents [TRANSFORM; MOVEMENT] world1) ->
  calm const_sin const_atan2 16 (fun _ => 0%float) world1 id.
Proof.
  change (getEntitiesWithComponents [TRANSFORM; MOVEMENT] world1) with [1%Z].
  intros [<-|[]] t m Ht Hm. destruct world1_components as [Ht' Hm'].
  rewrite Ht' in Ht. rewrite Hm' in Hm. injection Ht as <-. injection Hm as <-.
  left. vm_compute. reflexivity.
Qed.

(** One frame of the world with one mob: the systems return and the
    mob is the only entity as before. *)
Lemma updateSystems_frame_witness :
  reachable world1
  /\ GameEngine.updateSystems const_sin const_cos const_atan2 1 16 (fun _ => 0%float)
       (fun _ => readings0) world1
     = Some after_frame
  /\ getAllEntities after_frame = getAllEntities world1
  /\ nextEntityId after_frame = nextEntityId world1
  /\ exists em',
       GameEngine.updateSystems const_sin const_cos const_atan2 1 16
         (fun _ => 0%float) (fun _ => readings0) world1
       = Some em'
       /\ same_shape world1 em'.
Proof.
  assert (Hf : GameEngine.updateSystems const_sin const_cos const_atan2 1 16
                 (fun _ => 0%float) (fun _ => readings0) world1
               = Some after_frame) by (vm_compute; reflexivity).
  split; [exact world1_reachable|]. split; [exact Hf|].
  destruct (EngineFacts.updateSystems_frame const_sin const_cos const_atan2 1 16
              (fun _ => 0%float) (fun _ => readings0) world1 world1_reachable)
    as [Hframe _].
  destruct (Hframe after_frame Hf) as [(Hk & _ & Hn & _) _].
  split; [exact Hk|]. split; [exact Hn|].
  destruct (EngineFacts.updateSystems_frame const_sin const_cos const_atan2 0 16
              (fun _ => 0%float) (fun _ => readings0) world1 world1_reachable)
    as [_ Hreturns].
  destruct (Hreturns world1_calm) as (em' & H & S & _).
  exists em'. split; [exact H | exact S].
Defined.

Lemma updateEntityAI_rests_witness :
  getAI 1 world1 = Some (createAIComponent "wander" None)
  /\ getTransform 1 world1 = Some (createTransformComponent 0 0 0 origin)
  /\ rests early (createAIComponent "wander" None)
  /\ updateEntityAI const_cos const_sin early 1 16 world1 = world1.
Proof.
  assert (Ha : getAI 1 world1 = Some (createAIComponent "wander" None))
    by (vm_compute; reflexivity).
  destruct world1_components as [Ht _].
  assert (Hr : rests early (createAIComponent "wander" None)).
  { right. right. split; [reflexivity|]. split; [vm_compute; reflexivity|].
    left. reflexivity. }
  split; [exact Ha|]. split; [exact Ht|]. split; [exact Hr|].
  exact (BehaviorFacts.updateEntityAI_rests const_cos const_sin early 1 16 world1
           _ _ Ha Ht Hr).
Defined.

Lemma setBehavior_seek_without_target_witness :
  getAI 1 world1 = Some (createAIComponent "wander" None)
  /\ getTransform 1 world1 = Some (createTransformComponent 0 0 0 origin)
  /\ getAI 1 (updateEntityAI const_cos const_sin readings0 1 16
                (setBehavior 5000 1 "seek" world1))
     = Some (mkAI "wander" None 5000 2000 10 15 "idle").
Proof.
  assert (Ha : getAI 1 world1 = Some (createAIComponent "wander" None))
    by (vm_compute; reflexivity).
  destruct world1_components as [Ht _].
  split; [exact Ha|]. split; [exact Ht|].
  exact (proj1 (BehaviorFacts.setBehavior_seek_without_target const_cos const_sin
                  5000%float readings0 1 16 world1 _ _ Ha Ht eq_refl)).
Defined.

Lemma updateEntityAI_wander_expired_witness :
  getAI 1 world1 = Some (createAIComponent "wander" None)
  /\ getTransform 1 world1 = Some (createTransformComponent 0 0 0 origin)
  /\ JSNum.gt (currentTime readings0 - 0) 2000 = true
  /\ exists ai',
       getAI 1 (updateEntityAI const_cos const_sin readings0 1 16 world1) = Some ai'
       /\ behavior ai' = "wander".
Proof.
  assert (Ha : getAI 1 world1 = Some (createAIComponent "wander" None))
    by (vm_compute; reflexivity).
  destruct world1_components as [Ht _].
  assert (He : JSNum.gt (currentTime readings0 - 0) 2000 = true)
    by (vm_compute; reflexivity).
  split; [exact Ha|]. split; [exact Ht|]. split; [exact He|].
  destruct (BehaviorFacts.updateEntityAI_wander_expired const_cos const_sin
              readings0 1 16 world1 _ _ Ha Ht eq_refl He)
    as (ai' & p & Hg & _ & _ & _ & Hb & _).
  exists ai'. split; [exact Hg | exact Hb].
Defined.

Lemma updateEntityAI_idle_expired_witness :
  getAI 1 idling = Some idler
  /\ getTransform 1 idling = Some (createTransformComponent 0 0 0 origin)
  /\ JSNum.gt (currentTime readings0 - 0) 2000 = true
  /\ getAI 1 (updateEntityAI const_cos const_sin readings0 1 16 idling)
     = Some (mkAI "wander" None 0 2000 10 15 "idle").
Proof.
  assert (Ha : getAI 1 idling = Some idler) by (vm_compute; reflexivity).
  assert (Ht : getTransform 1 idling = Some (createTransformComponent 0 0 0 origin))
    by (vm_compute; reflexivity).
  assert (He : JSNum.gt (currentTime readings0 - 0) 2000 = true)
    by (vm_compute; reflexivity).
  split; [exact Ha|]. split; [exact Ht|]. split; [exact He|].
  exact (proj1 (BehaviorFacts.updateEntityAI_idle_expired const_cos const_sin
                  readings0 1 16 idling idler _ Ha Ht eq_refl He)).
Defined.

Lemma getEntitiesInRange_narrow_witness :
  JSNum.le 3 5 = true
  /\ getEntitiesInRange origin 3 world3
     = List.filter (fun e => JSNum.le (distance e) 3)
         (getEntitiesInRange origin 5 world3)
  /\ List.map entityId (getEntitiesInRange origin 5 world3) = [2; 3; 1]%Z
  /\ List.map entityId (getEntitiesInRange origin 3 world3) = [2; 3]%Z.
Proof.
  assert (Hle : JSNum.le 3 5 = true) by (vm_compute; reflexivity).
  split; [exact Hle|].
  split; [exact (proj1 (BehaviorFacts.getEntitiesInRange_narrow origin 3 5 world3 Hle))|].
  split; vm_compute; reflexivity.
Defined.

Lemma lerpAngle_nan_witness :
  is_nan nan = true
  /\ exists yaw, lerpAngle 1 nan 0 0.5 = Some yaw /\ is_nan yaw = true.
Proof.
  assert (N : is_nan nan = true) by (vm_compute; reflexivity).
  split; [exact N|].
  exact (SteeringFacts.lerpAngle_nan 0 nan 0 0.5 (or_introl N)).
Defined.

Lemma getEntitiesInRange_nan_witness :
  is_nan (x nowhere) = true
  /\ getEntitiesWithComponents [TRANSFORM] world3 = [1; 2; 3]%Z
  /\ getEntitiesInRange nowhere 10 world3 = [].
Proof.
  assert (N : is_nan (x nowhere) = true) by (vm_compute; reflexivity).
  split; [exact N|]. split; [vm_compute; reflexivity|].
  exact (BehaviorFacts.getEntitiesInRange_nan nowhere 10 world3
           (or_intror (or_introl N))).
Defined.

End MoreExamples.
